(** * Technical indicator and signal scoring engine of [app.py]

    A shallow embedding of the numeric core of the stock monitor:
    [calculate_indicators], [analyze_hawk_strategy], [analyze_quick_strategy],
    [calculate_entry_exit_points], [get_all_indicators],
    [analyze_single_stock] and the ranking done by [api_market_scan].

    Numbers.  The program computes on binary64 values held in pandas
    columns.  A value is modelled by [float]: a rational, one of the two
    infinities, or NaN.  The special values follow IEEE 754 (division by
    zero, NaN absorbing, comparisons with NaN false).  The averages, the
    bands and the on-balance volume are computed with exact arithmetic on
    finite values, kept in lowest terms.  Where rounding decides the
    outcome the operations are those of binary64, the exact outcome rounded
    to the nearest 53-bit number by [b64]: the RSI formula, which
    saturates at 100, and the rounding of a value to two decimals, on
    which the levels and ratios of a plan depend.  The sign of zero is not
    part of the model. *)

From Stdlib Require Import String ZArith QArith Qround Qreduction Qpower Qabs
  List Bool Lia Lqa Sorted Permutation.
Import ListNotations.

Set Implicit Arguments.

Local Open Scope Q_scope.

(* ================================================================== *)
(** ** Floating values *)

Inductive float : Type :=
| Fin (q : Q)
| PInf
| NInf
| NaN.

Definition is_nan (x : float) : bool :=
  match x with NaN => true | _ => false end.

Definition is_finite (x : float) : bool :=
  match x with Fin _ => true | _ => false end.

Definition fzero : float := Fin 0.

Definition fneg (x : float) : float :=
  match x with
  | Fin q => Fin (Qred (- q))
  | PInf => NInf
  | NInf => PInf
  | NaN => NaN
  end.

Definition fadd (x y : float) : float :=
  match x, y with
  | NaN, _ | _, NaN => NaN
  | Fin a, Fin b => Fin (Qred (a + b))
  | PInf, NInf | NInf, PInf => NaN
  | PInf, _ | _, PInf => PInf
  | NInf, _ | _, NInf => NInf
  end.

Definition fsub (x y : float) : float := fadd x (fneg y).

(** Sign of a rational as a comparison with zero. *)
Definition Qsign (q : Q) : comparison := Qcompare q 0.

Definition inf_of_sign (c : comparison) : float :=
  match c with Gt => PInf | Lt => NInf | Eq => NaN end.

Definition flip (c : comparison) : comparison := CompOpp c.

Definition fmul (x y : float) : float :=
  match x, y with
  | NaN, _ | _, NaN => NaN
  | Fin a, Fin b => Fin (Qred (a * b))
  | Fin a, PInf | PInf, Fin a => inf_of_sign (Qsign a)
  | Fin a, NInf | NInf, Fin a => inf_of_sign (flip (Qsign a))
  | PInf, PInf | NInf, NInf => PInf
  | PInf, NInf | NInf, PInf => NInf
  end.

(** numpy scalar and column division: a zero divisor gives an infinity, or
    NaN for [0/0], and never raises. *)
Definition fdiv (x y : float) : float :=
  match x, y with
  | NaN, _ | _, NaN => NaN
  | Fin a, Fin b =>
      match Qsign b with
      | Eq => inf_of_sign (Qsign a)
      | _ => Fin (Qred (a / b))
      end
  | Fin _, _ => Fin 0
  | PInf, Fin b => match Qsign b with Lt => NInf | _ => PInf end
  | NInf, Fin b => match Qsign b with Lt => PInf | _ => NInf end
  | _, _ => NaN
  end.

(** [x < y]; false as soon as one side is NaN. *)
Definition fltb (x y : float) : bool :=
  match x, y with
  | NaN, _ | _, NaN => false
  | Fin a, Fin b => match Qcompare a b with Lt => true | _ => false end
  | NInf, NInf | PInf, _ | _, NInf => false
  | NInf, _ | _, PInf => true
  end.

(** [x > y]. *)
Definition fgtb (x y : float) : bool := fltb y x.

Definition of_Z (z : Z) : float := Fin (inject_Z z).

(** Round half to even to the nearest integer. *)
Definition round_half_even (q : Q) : Z :=
  let f := Qfloor q in
  match Qcompare (q - inject_Z f) (1 # 2) with
  | Lt => f
  | Gt => (f + 1)%Z
  | Eq => if Z.even f then f else (f + 1)%Z
  end.

(** Python's [round(q, d)] on a finite value, for [scale = 10^d]. *)
Definition Qround_to (scale : positive) (q : Q) : Q :=
  Qred (round_half_even (q * inject_Z (Zpos scale)) # scale).

(** The order of two values, none of them NaN. *)
Definition fle (x y : float) : Prop :=
  match x, y with
  | NaN, _ | _, NaN => False
  | Fin a, Fin b => a <= b
  | NInf, _ | _, PInf => True
  | _, _ => False
  end.

(** [np.sign]. *)
Definition fsign (x : float) : float :=
  match x with
  | NaN => NaN
  | PInf => Fin 1
  | NInf => Fin (-1)
  | Fin q => match Qsign q with Gt => Fin 1 | Lt => Fin (-1) | Eq => Fin 0 end
  end.

(* ================================================================== *)
(** ** binary64 rounding *)

(** The binade of a positive rational: [2^b <= q < 2^(b+1)]. *)
Definition binade (q : Q) : Z :=
  let b := (Z.log2 (Qnum q) - Z.log2 (Zpos (Qden q)))%Z in
  if Qle_bool (2 ^ b) q then b else (b - 1)%Z.

(** Exponent of the unit in the last place of a 53-bit significand; the
    subnormal numbers share the exponent -1074. *)
Definition ulp_exp (q : Q) : Z := Z.max (binade q - 52) (-1074).

(** A positive rational rounded to the nearest multiple of its unit in the
    last place, a tie going to the even significand. *)
Definition nearest (q : Q) : Q :=
  let e := ulp_exp q in inject_Z (round_half_even (q / 2 ^ e)) * 2 ^ e.

(** The binary64 value nearest to a rational; an outcome of magnitude
    [2^1024] or more is an infinity. *)
Definition b64 (q : Q) : float :=
  match Qcompare q 0 with
  | Eq => Fin 0
  | Gt => let r := nearest q in
          if Qle_bool (2 ^ 1024) r then PInf else Fin (Qred r)
  | Lt => let r := nearest (- q) in
          if Qle_bool (2 ^ 1024) r then NInf else Fin (Qred (- r))
  end.

(** Rounding of the exact outcome of an operation. *)
Definition rnd (x : float) : float :=
  match x with
  | Fin q => b64 q
  | _ => x
  end.

(** The four operations of binary64: the exact outcome, rounded. *)
Definition b_add (x y : float) : float := rnd (fadd x y).
Definition b_sub (x y : float) : float := rnd (fsub x y).
Definition b_mul (x y : float) : float := rnd (fmul x y).
Definition b_div (x y : float) : float := rnd (fdiv x y).

(** A decimal literal of the source: the binary64 number nearest to it. *)
Definition lit (q : Q) : float := b64 q.

(** [np.rint]. *)
Definition rint (x : float) : float :=
  match x with
  | Fin q => Fin (inject_Z (round_half_even q))
  | _ => x
  end.

(** [round(x, 2)] on a numpy value: [np.rint(x * 100) / 100], NaN and the
    infinities being returned unchanged. *)
Definition round2 (x : float) : float :=
  b_div (rint (b_mul x (of_Z 100))) (of_Z 100).

(* ================================================================== *)
(** ** Exceptions *)

Inductive exn : Type := IndexError | KeyError | ValueError | OverflowError.

Inductive result (A : Type) : Type :=
| Ok (a : A)
| Raise (e : exn).

Arguments Ok {A} a.
Arguments Raise {A} e.

Definition bind {A B : Type} (m : result A) (k : A -> result B) : result B :=
  match m with
  | Ok a => k a
  | Raise e => Raise e
  end.

Notation "x <- m ;; k" := (bind m (fun x => k))
  (at level 61, m at next level, right associativity).

(* ================================================================== *)
(** ** pandas columns

    A column ([pd.Series] of dtype float64) is a list of values in bar
    order.  The operations below are the ones [app.py] calls, with the
    behaviour the pandas documentation gives them. *)

Definition Series : Type := list float.

Fixpoint map2 (f : float -> float -> float) (l1 l2 : Series) : Series :=
  match l1, l2 with
  | x :: t1, y :: t2 => f x y :: map2 f t1 t2
  | _, _ => []
  end.

Definition fsum (l : Series) : float := fold_left fadd l fzero.

(** [s.diff()]: undefined on the first bar, then the change against the
    previous bar. *)
Definition diff (l : Series) : Series :=
  match l with
  | [] => []
  | _ :: t => NaN :: map2 fsub t l
  end.

(** [s.where(cond, other)]. *)
Definition where_ (cond : float -> bool) (other : float) (l : Series) : Series :=
  map (fun x => if cond x then x else other) l.

(** [s.fillna(v)]. *)
Definition fillna (v : float) (l : Series) : Series :=
  map (fun x => if is_nan x then v else x) l.

(** The [w] bars ending at position [i]. *)
Definition window_at (w i : nat) (l : Series) : Series :=
  firstn w (skipn (i + 1 - w) l).

(** [s.rolling(window=w).agg()]: undefined on the first [w-1] bars and
    wherever the window holds an undefined value ([min_periods] is [w]). *)
Definition rolling_at (w : nat) (agg : Series -> float) (l : Series) (i : nat)
  : float :=
  if (i + 1 <? w)%nat then NaN
  else let win := window_at w i l in
       if existsb is_nan win then NaN else agg win.

Definition rolling (w : nat) (agg : Series -> float) (l : Series) : Series :=
  map (rolling_at w agg l) (seq 0 (length l)).

Definition mean_of (l : Series) : float :=
  fdiv (fsum l) (of_Z (Z.of_nat (length l))).

Definition rolling_mean (w : nat) : Series -> Series := rolling w mean_of.

(** [s.cumsum()]: an undefined entry stays undefined and is skipped by the
    running total. *)
Fixpoint cumsum_from (acc : float) (l : Series) : Series :=
  match l with
  | [] => []
  | x :: t =>
      if is_nan x then NaN :: cumsum_from acc t
      else let acc' := fadd acc x in acc' :: cumsum_from acc' t
  end.

Definition cumsum : Series -> Series := cumsum_from fzero.

(** [s.ewm(span=n, adjust=False).mean()]: seeded by the first defined
    value, then [y := (1-a)*y + a*x] with [a = 2/(n+1)]; an undefined
    observation repeats the previous average and ages its weight. *)
Definition ewm_alpha (span : Z) : float := fdiv (of_Z 2) (of_Z (span + 1)).

Fixpoint ewm_from (alpha weighted old_wt : float) (l : Series) : Series :=
  match l with
  | [] => []
  | cur :: t =>
      if is_nan weighted then
        let weighted' := if is_nan cur then weighted else cur in
        weighted' :: ewm_from alpha weighted' old_wt t
      else
        let aged := fmul old_wt (fsub (of_Z 1) alpha) in
        if is_nan cur then weighted :: ewm_from alpha weighted aged t
        else
          let weighted' :=
            fdiv (fadd (fmul aged weighted) (fmul alpha cur)) (fadd aged alpha) in
          weighted' :: ewm_from alpha weighted' (of_Z 1) t
  end.

Definition ewm_mean (span : Z) (l : Series) : Series :=
  match l with
  | [] => []
  | x :: t => x :: ewm_from (ewm_alpha span) x (of_Z 1) t
  end.

(** [s.mean()] and [s.max()] skip undefined entries and are undefined on
    a column without a defined entry. *)
Definition dropna (l : Series) : Series := filter (fun x => negb (is_nan x)) l.

Definition series_mean (l : Series) : float :=
  match dropna l with
  | [] => NaN
  | d => mean_of d
  end.

Definition fmax (x y : float) : float := if fltb x y then y else x.

Definition series_max (l : Series) : float :=
  match dropna l with
  | [] => NaN
  | x :: t => fold_left fmax t x
  end.

(** Position of a Python index in a column of [n] entries, for a slice
    bound: negative indices count from the end, and the bound is clamped. *)
Definition slice_bound (n : nat) (i : Z) : nat :=
  Z.to_nat (Z.min (Z.max (if (i <? 0)%Z then i + Z.of_nat n else i) 0) (Z.of_nat n)).

(** [s.iloc[start:stop]]; [stop = None] is a slice open to the right. *)
Definition iloc_slice (start : Z) (stop : option Z) (l : Series) : Series :=
  let n := length l in
  let a := slice_bound n start in
  let b := match stop with Some s => slice_bound n s | None => n end in
  firstn (b - a) (skipn a l).

(** [s.iloc[-1]]: raises [IndexError] on an empty column. *)
Definition iloc_last (l : Series) : result float :=
  match l with
  | [] => Raise IndexError
  | x :: t => Ok (last t x)
  end.

(** Column-wise arithmetic; the quotient of two columns is rounded to
    binary64. *)
Definition s_sub : Series -> Series -> Series := map2 fsub.
Definition s_add : Series -> Series -> Series := map2 fadd.
Definition s_mul : Series -> Series -> Series := map2 fmul.
Definition s_div : Series -> Series -> Series := map2 b_div.
Definition s_neg : Series -> Series := map fneg.
Definition s_scale (k : float) : Series -> Series := map (fun x => fmul x k).

(* ================================================================== *)
(** ** Frames *)

(** The columns [calculate_indicators] attaches to a frame. *)
Record IndicatorColumns : Type := {
  MA20 : Series;
  MA50 : Series;
  MA100 : Series;
  MA200 : Series;
  RSI : Series;
  MACD : Series;
  Signal_Line : Series;
  BB_Middle : Series;
  Upper_Band : Series;
  Lower_Band : Series;
  OBV : Series;
  Volume_MA20 : Series
}.

(** A [pd.DataFrame] of daily bars: the price and volume columns of the
    data provider, and the indicator columns once they have been attached.
    A frame with a bar has its columns; [no_columns] tells, of a frame
    without a bar, whether it is [pd.DataFrame()], which has no column
    either. *)
Record DataFrame : Type := {
  Open : Series;
  High : Series;
  Low : Series;
  Close : Series;
  Volume : Series;
  indicators : option IndicatorColumns;
  no_columns : bool
}.

Definition len (df : DataFrame) : nat := length (Close df).

(** [df.empty]. *)
Definition empty (df : DataFrame) : bool := (len df =? 0)%nat.

(** Access to the indicator columns: the first [df[name]] or [latest[name]]
    naming one of them raises [KeyError] when they were never attached. *)
Definition indicator_columns (df : DataFrame) : result IndicatorColumns :=
  match indicators df with
  | Some cols => Ok cols
  | None => Raise KeyError
  end.

(** [latest[name]] for the row [latest = df.iloc[-1]] of a frame that has
    a last row. *)
Definition latest (l : Series) : float := last l NaN.

Definition set_indicators (df : DataFrame) (cols : IndicatorColumns) : DataFrame :=
  {| Open := Open df; High := High df; Low := Low df; Close := Close df;
     Volume := Volume df; indicators := Some cols;
     no_columns := no_columns df |}.

(** [df["Close"]]: raises [KeyError] on [pd.DataFrame()]. *)
Definition close_column (df : DataFrame) : result Series :=
  if no_columns df && empty df then Raise KeyError else Ok (Close df).

(* ================================================================== *)
(** ** Strategy results, plans and reports *)

Inductive Signal : Type := buy | promising | watch.

(** A conditions dictionary keeps its keys in insertion order. *)
Definition Conditions : Type := list (string * bool).

Record StrategyResult : Type := {
  conditions : Conditions;
  conditions_met : nat;
  total_conditions : nat;
  percentage : Q;
  signal : Signal
}.

(** [sum(conditions.values())]. *)
Definition sum_values (c : Conditions) : nat :=
  fold_left (fun acc (kv : string * bool) => if snd kv then S acc else acc) c 0%nat.

(** [conditions[name]]. *)
Fixpoint lookup (name : string) (c : Conditions) : option bool :=
  match c with
  | [] => None
  | (k, v) :: t => if String.eqb k name then Some v else lookup name t
  end.

Record EntryExit : Type := {
  current_price : float;
  entry_price : float;
  stop_loss : float;
  target1 : float;
  target2 : float;
  risk_reward_1 : float;
  risk_reward_2 : float
}.

Record IndicatorValues : Type := {
  rsi : float;
  macd : float;
  signal_line : float;
  ma20 : float;
  ma50 : float;
  ma100 : float;
  ma200 : float;
  upper_band : float;
  middle_band : float;
  lower_band : float;
  obv : Z;
  volume : Z;
  volume_ma20 : Z
}.

Record Report : Type := {
  company : string;
  symbol : string;
  sector : string;
  hawk : StrategyResult;
  quick : StrategyResult;
  entry_exit : option EntryExit;
  indicator_values : option IndicatorValues;
  timestamp : string
}.

(* ================================================================== *)
(** ** The engine *)

Section Engine.

(** The square root of the floating-point library, used by the rolling
    standard deviation only. *)
Variable fsqrt : float -> float.

(** [rolling(window=w).std()]: the sample standard deviation. *)
Definition std_of (win : Series) : float :=
  let m := mean_of win in
  let sq := map (fun x => fmul (fsub x m) (fsub x m)) win in
  fsqrt (fdiv (fsum sq) (of_Z (Z.of_nat (length win) - 1))).

Definition rolling_std (w : nat) : Series -> Series := rolling w std_of.

(** The two 14-bar averages behind the RSI. *)
Definition rsi_gain (close : Series) : Series :=
  let delta := diff close in
  rolling_mean 14 (where_ (fun d => fgtb d fzero) fzero delta).

Definition rsi_loss (close : Series) : Series :=
  let delta := diff close in
  rolling_mean 14 (s_neg (where_ (fun d => fltb d fzero) fzero delta)).

Definition rsi_of_rs (rs : float) : float :=
  b_sub (of_Z 100) (b_div (of_Z 100) (b_add (of_Z 1) rs)).

Definition rsi_column (close : Series) : Series :=
  let rs := s_div (rsi_gain close) (rsi_loss close) in
  map rsi_of_rs rs.

Definition obv_column (close vol : Series) : Series :=
  cumsum (fillna fzero (s_mul (map fsign (diff close)) vol)).

Definition calculate_indicators (df : DataFrame) : DataFrame :=
  if empty df || (len df <? 200)%nat then df
  else
    let close := Close df in
    let exp1 := ewm_mean 12 close in
    let exp2 := ewm_mean 26 close in
    let macd_line := s_sub exp1 exp2 in
    let bb_middle := rolling_mean 20 close in
    let bb_std := rolling_std 20 close in
    set_indicators df
      {| MA20 := rolling_mean 20 close;
         MA50 := rolling_mean 50 close;
         MA100 := rolling_mean 100 close;
         MA200 := rolling_mean 200 close;
         RSI := rsi_column close;
         MACD := macd_line;
         Signal_Line := ewm_mean 9 macd_line;
         BB_Middle := bb_middle;
         Upper_Band := s_add bb_middle (s_scale (of_Z 2) bb_std);
         Lower_Band := s_sub bb_middle (s_scale (of_Z 2) bb_std);
         OBV := obv_column close (Volume df);
         Volume_MA20 := rolling_mean 20 (Volume df) |}.

(** [round(percentage, 1)] of [(conditions_met / total) * 100]. *)
Definition percentage_of (met total : nat) : Q :=
  Qround_to 10 ((inject_Z (Z.of_nat met) / inject_Z (Z.of_nat total)) * 100).

(** The index condition shared by the two strategies. *)
Definition tasi_condition (tasi_data : DataFrame) : result bool :=
  tasi_close <- close_column tasi_data ;;
  tasi_last <- iloc_last tasi_close ;;
  Ok (fgtb tasi_last (series_mean (iloc_slice (-5) None tasi_close))).

(** The breakout condition shared by the two strategies. *)
Definition breakout_condition (stock_data : DataFrame) : bool :=
  fgtb (latest (Close stock_data))
       (series_max (iloc_slice (-11) (Some (-1)%Z) (High stock_data))).

Definition signal_of (met total promising_from : nat) : Signal :=
  if (met =? total)%nat then buy
  else if (promising_from <=? met)%nat then promising
  else watch.

Definition analyze_hawk_strategy (stock_data tasi_data : DataFrame)
    (sector_trend : bool) : result (option StrategyResult) :=
  if empty stock_data || (len stock_data <? 200)%nat then Ok None
  else
    c_tasi <- tasi_condition tasi_data ;;
    cols <- indicator_columns stock_data ;;
    let close := latest (Close stock_data) in
    let conditions :=
      [ ("tasi", c_tasi);
        ("sector", sector_trend);
        ("obv", fgtb (latest (OBV cols))
                     (series_mean (iloc_slice (-20) None (OBV cols))));
        ("volume", fgtb (latest (Volume stock_data))
                        (fmul (latest (Volume_MA20 cols)) (of_Z 2)));
        ("breakout", breakout_condition stock_data);
        ("ma", fgtb close (latest (MA50 cols)));
        ("rsi", fltb (of_Z 50) (latest (RSI cols))
                && fltb (latest (RSI cols)) (of_Z 70));
        ("macd", fgtb (latest (MACD cols)) (latest (Signal_Line cols))
                 && fgtb (latest (MACD cols)) fzero);
        ("bollinger", fgtb close (latest (Upper_Band cols))) ]%string in
    let conditions_met := sum_values conditions in
    Ok (Some {| conditions := conditions;
                conditions_met := conditions_met;
                total_conditions := 9;
                percentage := percentage_of conditions_met 9;
                signal := signal_of conditions_met 9 7 |}).

Definition analyze_quick_strategy (stock_data tasi_data : DataFrame)
    : result (option StrategyResult) :=
  if empty stock_data || (len stock_data <? 200)%nat then Ok None
  else
    c_tasi <- tasi_condition tasi_data ;;
    cols <- indicator_columns stock_data ;;
    let close := latest (Close stock_data) in
    let conditions :=
      [ ("tasi", c_tasi);
        ("volume", fgtb (latest (Volume stock_data))
                        (fmul (latest (Volume_MA20 cols)) (Fin (3 # 2))));
        ("breakout", breakout_condition stock_data);
        ("ma20", fgtb close (latest (MA20 cols)));
        ("ma50", fgtb close (latest (MA50 cols)));
        ("rsi", fltb (of_Z 45) (latest (RSI cols))
                && fltb (latest (RSI cols)) (of_Z 75));
        ("macd", fgtb (latest (MACD cols)) (latest (Signal_Line cols)));
        ("bollinger", fgtb close (latest (BB_Middle cols))) ]%string in
    let conditions_met := sum_values conditions in
    Ok (Some {| conditions := conditions;
                conditions_met := conditions_met;
                total_conditions := 8;
                percentage := percentage_of conditions_met 8;
                signal := signal_of conditions_met 8 6 |}).

Definition calculate_entry_exit_points (stock_data : DataFrame)
    : option EntryExit :=
  if empty stock_data then None
  else
    let current_price := latest (Close stock_data) in
    let entry_price := round2 (b_mul current_price (lit (995 # 1000))) in
    let stop_loss := round2 (b_mul current_price (lit (95 # 100))) in
    let target1 := round2 (b_mul current_price (lit (110 # 100))) in
    let target2 := round2 (b_mul current_price (lit (120 # 100))) in
    Some {| current_price := round2 current_price;
            entry_price := entry_price;
            stop_loss := stop_loss;
            target1 := target1;
            target2 := target2;
            risk_reward_1 :=
              round2 (b_div (b_sub target1 entry_price)
                            (b_sub entry_price stop_loss));
            risk_reward_2 :=
              round2 (b_div (b_sub target2 entry_price)
                            (b_sub entry_price stop_loss)) |}.

(** [int(x)]: truncation toward zero; NaN and the infinities raise. *)
Definition int_of (x : float) : result Z :=
  match x with
  | Fin q => Ok (Z.quot (Qnum q) (Zpos (Qden q)))
  | NaN => Raise ValueError
  | _ => Raise OverflowError
  end.

Definition get_all_indicators (stock_data : DataFrame)
    : result (option IndicatorValues) :=
  if empty stock_data then Ok None
  else
    cols <- indicator_columns stock_data ;;
    v_obv <- int_of (latest (OBV cols)) ;;
    v_volume <- int_of (latest (Volume stock_data)) ;;
    v_volume_ma20 <- int_of (latest (Volume_MA20 cols)) ;;
    Ok (Some {| rsi := round2 (latest (RSI cols));
                macd := round2 (latest (MACD cols));
                signal_line := round2 (latest (Signal_Line cols));
                ma20 := round2 (latest (MA20 cols));
                ma50 := round2 (latest (MA50 cols));
                ma100 := round2 (latest (MA100 cols));
                ma200 := round2 (latest (MA200 cols));
                upper_band := round2 (latest (Upper_Band cols));
                middle_band := round2 (latest (BB_Middle cols));
                lower_band := round2 (latest (Lower_Band cols));
                obv := v_obv;
                volume := v_volume;
                volume_ma20 := v_volume_ma20 |}).

(** [analyze_single_stock]: the two frames returned by the data provider
    for the security and for the index, and the clock reading, are taken as
    arguments. *)
Definition analyze_single_stock (company_name symbol_ sector_ : string)
    (fetched tasi_data : DataFrame) (now : string) : result (option Report) :=
  if empty fetched then Ok None
  else
    let stock_data := calculate_indicators fetched in
    if empty tasi_data then Ok None
    else
      hawk_analysis <- analyze_hawk_strategy stock_data tasi_data true ;;
      quick_analysis <- analyze_quick_strategy stock_data tasi_data ;;
      match hawk_analysis, quick_analysis with
      | Some h, Some q =>
          let entry_exit_ := calculate_entry_exit_points stock_data in
          indicators_ <- get_all_indicators stock_data ;;
          Ok (Some {| company := company_name;
                      symbol := symbol_;
                      sector := sector_;
                      hawk := h;
                      quick := q;
                      entry_exit := entry_exit_;
                      indicator_values := indicators_;
                      timestamp := now |})
      | _, _ => Ok None
      end.

End Engine.

(* ================================================================== *)
(** ** Ranking of a scan *)

Section Sorting.

Variable A : Type.
Variable key : A -> Q.

Definition Qltb (x y : Q) : bool :=
  match Qcompare x y with Lt => true | _ => false end.

(** Insertion behind every entry with a strictly smaller key. *)
Fixpoint insert_sorted (x : A) (l : list A) : list A :=
  match l with
  | [] => [x]
  | y :: t => if Qltb (key y) (key x) then y :: insert_sorted x t else x :: y :: t
  end.

(** A stable ascending sort that compares keys with [<] only. *)
Definition sort_stable (l : list A) : list A := fold_right insert_sorted [] l.

(** [sorted(l, key=key, reverse=r)]: a reversed sort reverses the list,
    sorts it, and reverses the outcome, which keeps equal keys in their
    original order. *)
Definition sorted (reverse : bool) (l : list A) : list A :=
  if reverse then rev (sort_stable (rev l)) else sort_stable l.

End Sorting.

(** Truth value of a strategy result stored in a report: a dictionary with
    its five keys is never empty. *)
Definition truthy (r : StrategyResult) : bool := true.

(** [hawk_top] and [quick_top] of [api_market_scan]. *)
Definition hawk_top (data : list Report) : list Report :=
  firstn 20 (sorted (fun d => percentage (hawk d)) true
                    (filter (fun d => truthy (hawk d)) data)).

Definition quick_top (data : list Report) : list Report :=
  firstn 20 (sorted (fun d => percentage (quick d)) true
                    (filter (fun d => truthy (quick d)) data)).

Definition is_buy (s : Signal) : bool :=
  match s with buy => true | _ => false end.

Definition hawk_signals (data : list Report) : nat :=
  length (filter (fun d => is_buy (signal (hawk d))) data).

Definition quick_signals (data : list Report) : nat :=
  length (filter (fun d => is_buy (signal (quick d))) data).

(* ================================================================== *)
(** ** Scan and search *)

(** An entry of the registry [SAUDI_MARKET_STOCKS]: a company name with its
    ticker and sector.  The registry is kept in its listing order. *)
Record StockInfo : Type := {
  info_symbol : string;
  info_sector : string
}.

Definition Registry : Type := list (string * StockInfo).

(** What the data provider and the clock answered while the company of a
    given name was being analysed. *)
Record Feed : Type := {
  stock_history : string -> DataFrame;
  tasi_history : string -> DataFrame;
  clock : string -> string
}.

(** A JSON answer of the search: a failure with its message, or the
    analysis. *)
Inductive SearchResponse : Type :=
| Failure (error : string)
| Success (data : Report).

Section Scan.

Variable fsqrt : float -> float.
Variable feed : Feed.

(** The call [analyze_single_stock(company_name, symbol, sector)] for an
    entry of the registry. *)
Definition analyze_listed (entry : string * StockInfo) : result (option Report) :=
  let company_name := fst entry in
  analyze_single_stock fsqrt company_name
    (info_symbol (snd entry)) (info_sector (snd entry))
    (stock_history feed company_name) (tasi_history feed company_name)
    (clock feed company_name).

(** The loop of [scan_market]: the analyses that gave a report are appended
    in turn; an analysis that raises ends the scan. *)
Fixpoint scan_loop (stocks : Registry) (results : list Report)
  : result (list Report) :=
  match stocks with
  | [] => Ok results
  | entry :: rest =>
      analysis <- analyze_listed entry ;;
      scan_loop rest
        (match analysis with
         | Some a => results ++ [a]
         | None => results
         end)
  end.

Definition scan_market (stocks : Registry) : result (list Report) :=
  scan_loop stocks [].

(** [str.strip] and [str.lower] of the string library. *)
Variable strip : string -> string.
Variable lower : string -> string.

(** [needle in hay]. *)
Fixpoint contains (needle hay : string) : bool :=
  prefix needle hay
  || match hay with
     | EmptyString => false
     | String _ rest => contains needle rest
     end.

(** The test of the search loop on one entry. *)
Definition matches (query : string) (entry : string * StockInfo) : bool :=
  contains (lower query) (lower (fst entry))
  || String.eqb query (info_symbol (snd entry)).

(** [api_search] for the request parameter [q] (empty when absent): the
    first entry that matches is analysed. *)
Definition api_search (stocks : Registry) (q : string) : result SearchResponse :=
  let query := strip q in
  if String.eqb query "" then Ok (Failure "No query provided")
  else
    match find (matches query) stocks with
    | None => Ok (Failure "Stock not found")
    | Some found =>
        analysis <- analyze_listed found ;;
        match analysis with
        | None => Ok (Failure "Failed to analyze stock")
        | Some a => Ok (Success a)
        end
    end.

End Scan.

(* ================================================================== *)
(** ** Reference definitions used by the statements *)

(** Equality of values up to the representation of a rational. *)
Definition feq (x y : float) : Prop :=
  match x, y with
  | Fin a, Fin b => a == b
  | PInf, PInf | NInf, NInf | NaN, NaN => True
  | _, _ => False
  end.

(** The largest relative error of a rounding to binary64, [2^-53]. *)
Definition u64 : Q := 1 # 9007199254740992.

(** The signed volume of one bar against the previous close. *)
Definition signed_volume (prev cur vol : float) : float :=
  if fgtb cur prev then vol
  else if fltb cur prev then fneg vol
  else fzero.

(** On-balance volume accumulated bar over bar: the running total [acc]
    after the bar whose close is [prev]. *)
Fixpoint obv_steps (prev acc : float) (closes vols : Series) : Series :=
  match closes, vols with
  | c :: cs, v :: vs =>
      let acc' := fadd acc (signed_volume prev c v) in
      acc' :: obv_steps c acc' cs vs
  | _, _ => []
  end.

(** The first bar has no previous close and contributes nothing. *)
Definition obv_stepwise (closes vols : Series) : Series :=
  match closes, vols with
  | c :: cs, v :: vs => fzero :: obv_steps c fzero cs vs
  | _, _ => []
  end.

(** A finite value that is not negative. *)
Definition nonneg (x : float) : Prop := exists q : Q, x = Fin q /\ 0 <= q.

(** Number of bars of a column with a defined value. *)
Definition count_defined (l : Series) : nat := length (dropna l).

(** Orders on entries compared by their key. *)
Definition ascending (A : Type) (key : A -> Q) (a b : A) : Prop :=
  key a <= key b.

Definition descending (A : Type) (key : A -> Q) (a b : A) : Prop :=
  key b <= key a.

(** [d] has percentage [p]. *)
Definition has_percentage (A : Type) (key : A -> Q) (p : Q) (d : A) : bool :=
  Qeq_bool (key d) p.

(** Sum of rationals, and the last [k] entries of a list. *)
Definition Qsum (l : list Q) : Q := fold_right Qplus 0 l.

Definition last_n (A : Type) (k : nat) (l : list A) : list A :=
  skipn (length l - k) l.

(** A frame as the provider delivers it: columns of equal length holding
    finite numbers in the two columns the analysis computes on. *)
Definition finite_bars (df : DataFrame) : Prop :=
  length (Volume df) = len df
  /\ Forall (fun c => is_finite c = true) (Close df)
  /\ Forall (fun v => is_finite v = true) (Volume df).

(** A volume of at most [2^63] in magnitude. *)
Definition bounded_volume (v : float) : bool :=
  match v with
  | Fin q => Qle_bool (Qabs q) 9223372036854775808
  | _ => false
  end.

(** Finite bars in a number and with volumes that keep every running
    total of the volumes, a binary64 sum in the program, far inside the
    range of binary64: at most [10^9] bars, each volume of at most [2^63]
    in magnitude. *)
Definition provider_bars (df : DataFrame) : Prop :=
  finite_bars df
  /\ (Z.of_nat (len df) <= 1000000000)%Z
  /\ Forall (fun v => bounded_volume v = true) (Volume df).

(** A strategy result as the two evaluators build it. *)
Definition scored (total promising_from : nat) (r : StrategyResult) : Prop :=
  (conditions_met r <= total)%nat
  /\ total_conditions r = total
  /\ percentage r = percentage_of (conditions_met r) total
  /\ signal r = signal_of (conditions_met r) total promising_from.

(** The reports a scan collects: those of the entries whose analysis gave
    one, in registry order. *)
Definition reports_of (fsqrt : float -> float) (feed : Feed) (stocks : Registry)
  : list Report :=
  flat_map (fun entry =>
              match analyze_listed fsqrt feed entry with
              | Ok (Some a) => [a]
              | _ => []
              end) stocks.

(** An entry the analysis can report on: at least 200 bars for the security
    and at least one for the index. *)
Definition reportable (feed : Feed) (entry : string * StockInfo) : bool :=
  (200 <=? len (stock_history feed (fst entry)))%nat
  && negb (len (tasi_history feed (fst entry)) =? 0)%nat.

(* ================================================================== *)
(** ** Sample data *)

(** A square root to six decimal places, standing for the library's. *)
Definition sqrt_micro (x : float) : float :=
  match x with
  | Fin q =>
      if Qltb q 0 then NaN
      else Fin (Qred (Z.sqrt (Qnum q * 10 ^ 12 / Zpos (Qden q)) # 1000000))
  | NInf => NaN
  | _ => x
  end.

Definition frame_of (closes highs vols : Series) : DataFrame :=
  {| Open := closes; High := highs; Low := closes; Close := closes;
     Volume := vols; indicators := None; no_columns := false |}.

(** [pd.DataFrame()], as [get_yfinance_data] returns it when the provider
    has no data. *)
Definition no_data : DataFrame :=
  {| Open := []; High := []; Low := []; Close := []; Volume := [];
     indicators := None; no_columns := true |}.

(** Two hundred bars: flat at 100, then a rising zigzag over the last
    twelve bars and a volume spike on the last one. *)
Definition closes200 : Series :=
  repeat (of_Z 100) 188
  ++ map of_Z [101; 103; 102; 105; 104; 107; 106; 109; 108; 111; 110; 113]%Z.

Definition highs200 : Series := map (fun c => fadd c (of_Z 1)) closes200.

Definition vols200 : Series := repeat (of_Z 1000) 199 ++ [of_Z 5000].

Definition bars200 : DataFrame := frame_of closes200 highs200 vols200.

Definition stock200 : DataFrame := calculate_indicators sqrt_micro bars200.

(** An index with a single bar, and one with six. *)
Definition tasi1 : DataFrame := frame_of [of_Z 100] [of_Z 100] [of_Z 1].

Definition tasi6 : DataFrame :=
  let c := map of_Z [1; 2; 3; 4; 5; 9]%Z in frame_of c c c.

(** Three bars only. *)
Definition bars3 : DataFrame :=
  let c := map of_Z [10; 11; 12]%Z in frame_of c c c.

(** One bar, priced at one hundredth and at zero. *)
Definition penny : DataFrame :=
  frame_of [lit (1 # 100)] [lit (1 # 100)] [of_Z 1].

Definition zero_price : DataFrame := frame_of [Fin 0] [Fin 0] [of_Z 1].

(** One bar priced at one hundred. *)
Definition hundred : DataFrame := frame_of [of_Z 100] [of_Z 100] [of_Z 1].

(** Two hundred bars ending in a steeper zigzag: every condition of both
    strategies holds on the last bar. *)
Definition closes_buy : Series :=
  repeat (of_Z 100) 188
  ++ map of_Z [101; 104; 102; 105; 103; 106; 104; 107; 105; 108; 106; 112]%Z.

Definition bars_buy : DataFrame :=
  frame_of closes_buy (map (fun c => fadd c (of_Z 1)) closes_buy) vols200.



(** Two hundred bars that never move. *)
Definition flat200 : DataFrame :=
  let c := repeat (of_Z 100) 200 in frame_of c c (repeat (of_Z 1000) 200).

(** A registry of three companies and a feed that has 200 bars for the
    first and the third, and three bars for the second. *)
Definition registry3 : Registry :=
  [ ("Alpha Bank", {| info_symbol := "1010"; info_sector := "Banks" |});
    ("Beta Cement", {| info_symbol := "3030"; info_sector := "Materials" |});
    ("Gamma Telecom", {| info_symbol := "7010"; info_sector := "Telecom" |}) ]%string.

Definition feed3 : Feed :=
  {| stock_history :=
       fun name =>
         if String.eqb name "Beta Cement" then bars3
         else if String.eqb name "Gamma Telecom" then bars_buy
         else bars200;
     tasi_history := fun _ => tasi6;
     clock := fun _ => "now"%string |}.

(* ================================================================== *)
(** * Properties *)

Unset Implicit Arguments.

(** ** The 200-bar guard *)

Lemma short_guard (df : DataFrame) :
  (len df < 200)%nat -> empty df || (len df <? 200)%nat = true.
Proof.
  intros H. apply orb_true_iff. right. now apply Nat.ltb_lt.
Qed.

Lemma long_guard (df : DataFrame) :
  (200 <= len df)%nat -> empty df || (len df <? 200)%nat = false.
Proof.
  intros H. apply orb_false_iff. split.
  - unfold empty. apply Nat.eqb_neq. lia.
  - apply Nat.ltb_ge. exact H.
Qed.

Lemma len_calculate_indicators (fsqrt : float -> float) (df : DataFrame) :
  len (calculate_indicators fsqrt df) = len df.
Proof.
  unfold calculate_indicators.
  destruct (empty df || (len df <? 200)%nat); reflexivity.
Qed.

Lemma Close_calculate_indicators (fsqrt : float -> float) (df : DataFrame) :
  Close (calculate_indicators fsqrt df) = Close df.
Proof.
  unfold calculate_indicators.
  destruct (empty df || (len df <? 200)%nat); reflexivity.
Qed.

(** C1.  On a series of fewer than 200 bars (the empty one included) the
    indicator calculation attaches no indicator column: it hands the frame
    back as it received it.  Both strategy evaluations answer [None] on such
    a frame, before reading any indicator, and so does the analysis of the
    security as a whole. *)
Theorem short_series_not_computable :
  forall (fsqrt : float -> float) (df tasi_data : DataFrame)
         (sector_trend : bool) (name sym sec now : string),
    (len df < 200)%nat ->
    calculate_indicators fsqrt df = df
    /\ (indicators df = None ->
        indicators (calculate_indicators fsqrt df) = None)
    /\ analyze_hawk_strategy df tasi_data sector_trend = Ok None
    /\ analyze_quick_strategy df tasi_data = Ok None
    /\ analyze_single_stock fsqrt name sym sec df tasi_data now = Ok None.
Proof.
  intros fsqrt df td st name sym sec now Hlen.
  pose proof (short_guard df Hlen) as Hg.
  assert (Hc : calculate_indicators fsqrt df = df).
  { unfold calculate_indicators. now rewrite Hg. }
  assert (Hh : analyze_hawk_strategy df td true = Ok None).
  { unfold analyze_hawk_strategy. now rewrite Hg. }
  assert (Hq : analyze_quick_strategy df td = Ok None).
  { unfold analyze_quick_strategy. now rewrite Hg. }
  repeat split.
  - exact Hc.
  - intros Hn. now rewrite Hc.
  - unfold analyze_hawk_strategy. now rewrite Hg.
  - exact Hq.
  - unfold analyze_single_stock. rewrite Hc, Hh, Hq.
    destruct (empty df); [reflexivity|].
    destruct (empty td); reflexivity.
Qed.

Lemma short_series_not_computable_witness :
  (len bars3 < 200)%nat
  /\ calculate_indicators sqrt_micro bars3 = bars3
  /\ analyze_hawk_strategy bars3 tasi6 true = Ok None
  /\ analyze_quick_strategy bars3 tasi6 = Ok None.
Proof.
  assert (H : (len bars3 < 200)%nat) by (vm_compute; lia).
  destruct (short_series_not_computable sqrt_micro bars3 tasi6 true
              "a" "b" "c" "t" H) as (H1 & _ & H3 & H4 & _).
  repeat split; assumption.
Defined.

(** ** Scores and signals *)

Lemma sum_values_acc (c : Conditions) (n : nat) :
  fold_left (fun acc (kv : string * bool) => if snd kv then S acc else acc) c n
  = (n + sum_values c)%nat.
Proof.
  unfold sum_values. revert n.
  induction c as [|[k v] c IH]; intros n; cbn.
  - lia.
  - rewrite (IH (if v then S n else n)), (IH (if v then 1%nat else 0%nat)).
    destruct v; lia.
Qed.

Lemma sum_values_cons (k : string) (v : bool) (c : Conditions) :
  sum_values ((k, v) :: c) = ((if v then 1 else 0) + sum_values c)%nat.
Proof.
  unfold sum_values at 1. cbn. rewrite sum_values_acc. destruct v; lia.
Qed.

Lemma sum_values_le (c : Conditions) : (sum_values c <= length c)%nat.
Proof.
  induction c as [|[k v] c IH].
  - cbn. lia.
  - rewrite sum_values_cons. cbn [length]. destruct v; lia.
Qed.

Lemma signal_of_spec (met total from : nat) :
  (from <= total)%nat ->
  (signal_of met total from = buy <-> met = total)
  /\ (met <> total -> (from <= met)%nat -> signal_of met total from = promising)
  /\ ((met < from)%nat -> signal_of met total from = watch).
Proof.
  intros Hft. unfold signal_of.
  destruct (Nat.eqb_spec met total) as [He|Hne].
  - repeat split; intros; try congruence; lia.
  - destruct (Nat.leb_spec from met) as [Hle|Hlt].
    + repeat split; intros; try congruence; try lia.
    + repeat split; intros; try congruence; try lia.
Qed.

(** What an evaluation that produces a result looks like. *)
Lemma hawk_result_inv (sd td : DataFrame) (st : bool) (r : StrategyResult) :
  analyze_hawk_strategy sd td st = Ok (Some r) ->
  (200 <= len sd)%nat
  /\ length (conditions r) = 9%nat
  /\ conditions_met r = sum_values (conditions r)
  /\ total_conditions r = 9%nat
  /\ signal r = signal_of (conditions_met r) 9 7
  /\ lookup "sector" (conditions r) = Some st
  /\ lookup "breakout" (conditions r) = Some (breakout_condition sd).
Proof.
  unfold analyze_hawk_strategy.
  destruct (empty sd || (len sd <? 200)%nat) eqn:Hg; [discriminate|].
  apply orb_false_iff in Hg. destruct Hg as [_ Hg]. apply Nat.ltb_ge in Hg.
  destruct (tasi_condition td) as [c_tasi|e]; [|discriminate].
  cbn [bind].
  destruct (indicator_columns sd) as [cols|e]; [|discriminate].
  cbn [bind]. intros H. injection H as <-. cbn.
  repeat split; assumption.
Qed.

Lemma quick_result_inv (sd td : DataFrame) (r : StrategyResult) :
  analyze_quick_strategy sd td = Ok (Some r) ->
  (200 <= len sd)%nat
  /\ length (conditions r) = 8%nat
  /\ conditions_met r = sum_values (conditions r)
  /\ total_conditions r = 8%nat
  /\ signal r = signal_of (conditions_met r) 8 6
  /\ lookup "breakout" (conditions r) = Some (breakout_condition sd).
Proof.
  unfold analyze_quick_strategy.
  destruct (empty sd || (len sd <? 200)%nat) eqn:Hg; [discriminate|].
  apply orb_false_iff in Hg. destruct Hg as [_ Hg]. apply Nat.ltb_ge in Hg.
  destruct (tasi_condition td) as [c_tasi|e]; [|discriminate].
  cbn [bind].
  destruct (indicator_columns sd) as [cols|e]; [|discriminate].
  cbn [bind]. intros H. injection H as <-. cbn.
  repeat split; assumption.
Qed.

(** C4.  Whenever the two evaluators produce a result, the count of
    conditions met lies between 0 and the total (9 for Hawk, 8 for Quick);
    the signal is [buy] exactly when the count equals the total; otherwise it
    is [promising] from 7 (Hawk) or 6 (Quick) conditions on, and [watch]
    below. *)
Theorem score_and_signal :
  forall (sd td : DataFrame) (st : bool) (rh rq : StrategyResult),
    analyze_hawk_strategy sd td st = Ok (Some rh) ->
    analyze_quick_strategy sd td = Ok (Some rq) ->
    ((0 <= conditions_met rh <= 9)%nat
     /\ total_conditions rh = 9%nat
     /\ (signal rh = buy <-> conditions_met rh = 9%nat)
     /\ (conditions_met rh <> 9%nat -> (7 <= conditions_met rh)%nat ->
         signal rh = promising)
     /\ ((conditions_met rh < 7)%nat -> signal rh = watch))
    /\
    ((0 <= conditions_met rq <= 8)%nat
     /\ total_conditions rq = 8%nat
     /\ (signal rq = buy <-> conditions_met rq = 8%nat)
     /\ (conditions_met rq <> 8%nat -> (6 <= conditions_met rq)%nat ->
         signal rq = promising)
     /\ ((conditions_met rq < 6)%nat -> signal rq = watch)).
Proof.
  intros sd td st rh rq Hh Hq.
  apply hawk_result_inv in Hh.
  destruct Hh as (_ & Hlen & Hmet & Htot & Hsig & _).
  apply quick_result_inv in Hq.
  destruct Hq as (_ & Hlen' & Hmet' & Htot' & Hsig' & _).
  split.
  - pose proof (sum_values_le (conditions rh)) as Hle.
    rewrite Hlen, <- Hmet in Hle.
    destruct (signal_of_spec (conditions_met rh) 9 7) as (Hb & Hp & Hw); [lia|].
    rewrite Hsig. repeat split; try assumption; try lia; apply Hb.
  - pose proof (sum_values_le (conditions rq)) as Hle.
    rewrite Hlen', <- Hmet' in Hle.
    destruct (signal_of_spec (conditions_met rq) 8 6) as (Hb & Hp & Hw); [lia|].
    rewrite Hsig'. repeat split; try assumption; try lia; apply Hb.
Qed.

Lemma score_and_signal_witness :
  exists rh rq : StrategyResult,
    analyze_hawk_strategy stock200 tasi6 true = Ok (Some rh)
    /\ analyze_quick_strategy stock200 tasi6 = Ok (Some rq)
    /\ (conditions_met rh <= 9)%nat
    /\ (conditions_met rq <= 8)%nat
    /\ (signal rh = buy <-> conditions_met rh = 9%nat)
    /\ (signal rq = buy <-> conditions_met rq = 8%nat).
Proof.
  destruct (analyze_hawk_strategy stock200 tasi6 true) as [[rh|]|e] eqn:Hh;
    [|vm_compute in Hh; discriminate Hh|vm_compute in Hh; discriminate Hh].
  destruct (analyze_quick_strategy stock200 tasi6) as [[rq|]|e] eqn:Hq;
    [|vm_compute in Hq; discriminate Hq|vm_compute in Hq; discriminate Hq].
  exists rh, rq.
  destruct (score_and_signal stock200 tasi6 true rh rq Hh Hq)
    as ((Hr & _ & Hb & _) & (Hr' & _ & Hb' & _)).
  repeat split; try reflexivity; try apply Hb; try apply Hb'; lia.
Defined.

(** ** The sector condition *)

(** C10.  The only evaluation of the Hawk strategy the program performs, in
    [analyze_single_stock], passes no sector input, so the default [True] is
    used: in every report the [sector] entry of the Hawk conditions is true
    and at least one Hawk condition is met. *)
Theorem sector_condition_default :
  forall (fsqrt : float -> float) (name sym sec now : string)
         (fetched tasi_data : DataFrame) (rep : Report),
    analyze_single_stock fsqrt name sym sec fetched tasi_data now
      = Ok (Some rep) ->
    lookup "sector" (conditions (hawk rep)) = Some true
    /\ (1 <= conditions_met (hawk rep))%nat.
Proof.
  intros fsqrt name sym sec now fetched td rep.
  unfold analyze_single_stock.
  destruct (empty fetched); [discriminate|].
  destruct (empty td); [discriminate|].
  destruct (analyze_hawk_strategy (calculate_indicators fsqrt fetched) td true)
    as [[h|]|e] eqn:Hh; cbn [bind]; try discriminate.
  - destruct (analyze_quick_strategy (calculate_indicators fsqrt fetched) td)
      as [[q|]|e] eqn:Hq; cbn [bind]; try discriminate.
    destruct (get_all_indicators (calculate_indicators fsqrt fetched))
      as [iv|e]; cbn [bind]; try discriminate.
    intros H. injection H as <-. cbn [hawk].
    unfold analyze_hawk_strategy in Hh.
    destruct (empty _ || (len _ <? 200)%nat); [discriminate|].
    destruct (tasi_condition td) as [c_tasi|e]; [|discriminate].
    cbn [bind] in Hh.
    destruct (indicator_columns _) as [cols|e]; [|discriminate].
    cbn [bind] in Hh. injection Hh as <-.
    cbn [conditions conditions_met]. split; [reflexivity|].
    rewrite sum_values_cons, sum_values_cons. destruct c_tasi; cbn; lia.
  - destruct (analyze_quick_strategy (calculate_indicators fsqrt fetched) td)
      as [[q|]|e]; cbn [bind]; discriminate.
Qed.

Lemma sector_condition_default_witness :
  exists rep : Report,
    analyze_single_stock sqrt_micro "Bank" "1120" "Banks" bars200 tasi6 "now"
      = Ok (Some rep)
    /\ lookup "sector" (conditions (hawk rep)) = Some true
    /\ (1 <= conditions_met (hawk rep))%nat.
Proof.
  destruct (analyze_single_stock sqrt_micro "Bank" "1120" "Banks" bars200
              tasi6 "now") as [[rep|]|e] eqn:H;
    [|vm_compute in H; discriminate H|vm_compute in H; discriminate H].
  exists rep. split; [reflexivity|].
  exact (sector_condition_default sqrt_micro "Bank" "1120" "Banks" "now"
           bars200 tasi6 rep H).
Defined.

(** ** Arithmetic of values *)

Lemma Qcompare_Lt_iff (a b : Q) : Qcompare a b = Lt <-> a < b.
Proof. symmetry. apply Qlt_alt. Qed.

Lemma Qcompare_Gt_iff (a b : Q) : Qcompare a b = Gt <-> b < a.
Proof. symmetry. apply Qgt_alt. Qed.

Lemma Qcompare_Eq_iff (a b : Q) : Qcompare a b = Eq <-> a == b.
Proof. symmetry. apply Qeq_alt. Qed.

Lemma Qsign_sub (a b : Q) : Qsign (Qred (a + Qred (- b))) = Qcompare a b.
Proof.
  unfold Qsign.
  assert (E : Qred (a + Qred (- b)) == a - b).
  { rewrite Qred_correct, Qred_correct. reflexivity. }
  destruct (Qcompare a b) eqn:C.
  - apply (proj1 (Qcompare_Eq_iff _ _)) in C. apply Qcompare_Eq_iff. rewrite E. lra.
  - apply (proj1 (Qcompare_Lt_iff _ _)) in C. apply Qcompare_Lt_iff. rewrite E. lra.
  - apply (proj1 (Qcompare_Gt_iff _ _)) in C. apply Qcompare_Gt_iff. rewrite E. lra.
Qed.

Lemma fltb_Fin (a b : Q) : fltb (Fin a) (Fin b) = true <-> a < b.
Proof.
  cbn. destruct (Qcompare a b) eqn:C.
  - apply (proj1 (Qcompare_Eq_iff _ _)) in C. split; [discriminate|lra].
  - apply (proj1 (Qcompare_Lt_iff _ _)) in C. tauto.
  - apply (proj1 (Qcompare_Gt_iff _ _)) in C. split; [discriminate|lra].
Qed.

Lemma feq_refl (x : float) : feq x x.
Proof. destruct x; cbn [feq]; auto. reflexivity. Qed.

Lemma feq_sym (x y : float) : feq x y -> feq y x.
Proof. destruct x, y; cbn [feq]; auto. intros H. now symmetry. Qed.

Lemma feq_trans (x y z : float) : feq x y -> feq y z -> feq x z.
Proof.
  destruct x, y, z; cbn [feq]; auto; try contradiction.
  intros H1 H2. now rewrite H1.
Qed.

Lemma fadd_feq (x x' y y' : float) :
  feq x x' -> feq y y' -> feq (fadd x y) (fadd x' y').
Proof.
  destruct x, x'; cbn [feq]; try contradiction; intros Hx;
    destruct y, y'; cbn [feq fadd]; try contradiction; intros Hy; auto.
  rewrite !Qred_correct, Hx, Hy. reflexivity.
Qed.

Lemma feq_is_nan (x y : float) : feq x y -> is_nan x = is_nan y.
Proof. destruct x, y; cbn [feq is_nan]; auto; contradiction. Qed.

(** ** On-balance volume *)

Ltac feq_values :=
  cbn [fmul fneg is_nan inf_of_sign flip CompOpp feq fzero Qsign];
  rewrite ?Qred_correct; try exact I; try reflexivity; try lra.

(** One bar of the column pipeline against one step of the accumulation. *)
Lemma obv_term (prev c v : float) :
  is_nan v = false ->
  let x := fmul (fsign (fsub c prev)) v in
  feq (if is_nan x then fzero else x) (signed_volume prev c v).
Proof.
  intros Hv. unfold signed_volume, fgtb.
  destruct c as [a| | |], prev as [b| | |]; cbn [fsub fneg fadd fsign fltb].
  1: { rewrite Qsign_sub. rewrite <- (Qcompare_antisym a b).
       destruct (Qcompare a b) eqn:C; cbn [CompOpp];
         destruct v as [q| | |]; try discriminate; feq_values. }
  all: destruct v as [q| | |]; try discriminate; feq_values;
    try (vm_compute; exact I).
Qed.

Lemma fill_defined (x : float) : is_nan (if is_nan x then fzero else x) = false.
Proof. destruct x; reflexivity. Qed.

Lemma obv_steps_correct (cs : Series) :
  forall (vs : Series) (prev acc acc' : float),
    feq acc acc' ->
    Forall (fun v => is_nan v = false) vs ->
    Forall2 feq
      (cumsum_from acc
         (fillna fzero (s_mul (map fsign (map2 fsub cs (prev :: cs))) vs)))
      (obv_steps prev acc' cs vs).
Proof.
  induction cs as [|c cs IH]; intros vs prev acc acc' Hacc Hvs.
  - cbn. constructor.
  - destruct vs as [|v vs]; [cbn; constructor|].
    inversion Hvs as [|? ? Hv Hvs']; subst.
    cbn [map2 map s_mul fillna cumsum_from obv_steps].
    change (map2 fmul ?a ?b) with (s_mul a b).
    change (map (fun x => if is_nan x then fzero else x) ?l) with (fillna fzero l).
    rewrite fill_defined.
    assert (Hstep :
      feq (fadd acc (if is_nan (fmul (fsign (fsub c prev)) v) then fzero
                     else fmul (fsign (fsub c prev)) v))
          (fadd acc' (signed_volume prev c v))).
    { apply fadd_feq; [exact Hacc|]. now apply obv_term. }
    constructor; [exact Hstep|].
    apply IH; assumption.
Qed.

Lemma obv_column_stepwise (closes vols : Series) :
  Forall (fun v => is_nan v = false) vols ->
  Forall2 feq (obv_column closes vols) (obv_stepwise closes vols).
Proof.
  intros Hv. unfold obv_column, obv_stepwise, cumsum, diff.
  destruct closes as [|c cs]; [cbn; constructor|].
  destruct vols as [|v vs]; [cbn; constructor|].
  inversion Hv as [|? ? Hv0 Hvs]; subst.
  cbn [map fsign s_mul map2 fmul fillna is_nan cumsum_from].
  change (map2 fmul ?a ?b) with (s_mul a b).
  change (map (fun x => if is_nan x then fzero else x) ?l) with (fillna fzero l).
  constructor.
  - vm_compute. reflexivity.
  - apply obv_steps_correct; [|exact Hvs]. vm_compute. reflexivity.
Qed.

(** C7.  The OBV column attached by [calculate_indicators] is, bar for bar,
    the running total of the signed volumes: nothing on the first bar, then
    plus the volume when the close rose against the previous bar, minus the
    volume when it fell, nothing when it is unchanged, carried across the
    whole series.  The volume is a defined number on every bar. *)
Theorem obv_is_running_signed_volume :
  forall (fsqrt : float -> float) (df : DataFrame),
    (200 <= len df)%nat ->
    Forall (fun v => is_nan v = false) (Volume df) ->
    exists cols : IndicatorColumns,
      indicators (calculate_indicators fsqrt df) = Some cols
      /\ Forall2 feq (OBV cols) (obv_stepwise (Close df) (Volume df)).
Proof.
  intros fsqrt df Hlen Hv.
  unfold calculate_indicators. rewrite (long_guard df Hlen).
  eexists. split; [reflexivity|].
  cbn [OBV]. now apply obv_column_stepwise.
Qed.

Lemma obv_is_running_signed_volume_witness :
  exists cols : IndicatorColumns,
    indicators (calculate_indicators sqrt_micro bars200) = Some cols
    /\ Forall2 feq (OBV cols) (obv_stepwise (Close bars200) (Volume bars200)).
Proof.
  apply (obv_is_running_signed_volume sqrt_micro bars200).
  - apply Nat.leb_le. vm_compute. reflexivity.
  - unfold bars200, frame_of, vols200. cbn [Volume].
    apply Forall_app. split.
    + apply Forall_forall. intros v Hin. apply repeat_spec in Hin.
      subst v. reflexivity.
    + repeat constructor.
Defined.

(** The running total on a hand-made series of five bars. *)
Example obv_five_bars :
  obv_column (map of_Z [10; 11; 11; 9; 12]%Z)
             (map of_Z [100; 200; 300; 400; 500]%Z)
  = map of_Z [0; 200; 200; -200; 300]%Z.
Proof. vm_compute. reflexivity. Qed.

(** ** Order on defined values *)

Lemma fltb_Fin_false (a b : Q) : fltb (Fin a) (Fin b) = false <-> b <= a.
Proof.
  pose proof (fltb_Fin a b) as H.
  destruct (fltb (Fin a) (Fin b)).
  - split; [discriminate|]. intros Hle. assert (a < b) by now apply H. lra.
  - split; [|reflexivity]. intros _.
    destruct (Qlt_le_dec a b) as [Hlt|Hle]; [|exact Hle].
    apply H in Hlt. discriminate.
Qed.

Lemma fltb_trans (x y z : float) :
  fltb x y = true -> fltb y z = true -> fltb x z = true.
Proof.
  destruct x as [a| | |], y as [b| | |], z as [c| | |];
    try (cbn [fltb]; intros; congruence).
  rewrite !fltb_Fin. intros. lra.
Qed.

Lemma fltb_below (x y c : float) :
  is_nan y = false -> fltb x y = false -> fltb x c = true -> fltb y c = true.
Proof.
  destruct x as [a| | |], y as [b| | |], c as [q| | |];
    try (cbn [fltb is_nan]; intros; congruence).
  rewrite !fltb_Fin, fltb_Fin_false. intros. lra.
Qed.

Lemma fmax_below (x y c : float) :
  is_nan x = false -> is_nan y = false ->
  (fltb (fmax x y) c = true <-> fltb x c = true /\ fltb y c = true).
Proof.
  intros Hx Hy. unfold fmax. destruct (fltb x y) eqn:E.
  - split; [|tauto]. intros H. split; [|exact H].
    now apply fltb_trans with y.
  - split; [|tauto]. intros H. split; [exact H|].
    now apply fltb_below with x.
Qed.

Lemma fmax_defined (x y : float) :
  is_nan x = false -> is_nan y = false -> is_nan (fmax x y) = false.
Proof. intros Hx Hy. unfold fmax. now destruct (fltb x y). Qed.

Lemma fold_fmax_below (t : Series) :
  forall (x c : float),
    is_nan x = false ->
    Forall (fun y => is_nan y = false) t ->
    (fltb (fold_left fmax t x) c = true
     <-> fltb x c = true /\ Forall (fun y => fltb y c = true) t).
Proof.
  induction t as [|y t IH]; intros x c Hx Ht.
  - cbn. split; [intros H; split; [exact H|constructor]|tauto].
  - inversion Ht as [|? ? Hy Ht']; subst. cbn [fold_left].
    rewrite (IH (fmax x y) c (fmax_defined x y Hx Hy) Ht').
    rewrite (fmax_below x y c Hx Hy).
    split.
    + intros [[H1 H2] H3]. split; [exact H1|]. constructor; assumption.
    + intros [H1 H2]. inversion H2; subst. tauto.
Qed.

Lemma dropna_defined (l : Series) :
  Forall (fun y => is_nan y = false) l -> dropna l = l.
Proof.
  induction 1 as [|y l Hy Hl IH]; [reflexivity|].
  unfold dropna in *. cbn [filter]. rewrite Hy. cbn [negb]. now rewrite IH.
Qed.

(** On a window of defined values, a value exceeds the column maximum
    exactly when it exceeds every entry of a non-empty window. *)
Lemma series_max_below (win : Series) (c : float) :
  win <> [] ->
  Forall (fun y => is_nan y = false) win ->
  (fltb (series_max win) c = true <-> Forall (fun y => fltb y c = true) win).
Proof.
  intros Hne Hd. unfold series_max. rewrite (dropna_defined _ Hd).
  destruct win as [|x t]; [contradiction|].
  inversion Hd as [|? ? Hx Ht]; subst.
  rewrite (fold_fmax_below t x c Hx Ht).
  split.
  - intros [H1 H2]. constructor; assumption.
  - intros H. inversion H; subst. tauto.
Qed.

(** ** Slices *)

Lemma firstn_skipn_nth (l : Series) :
  forall (a k : nat),
    (a + k <= length l)%nat ->
    firstn k (skipn a l) = map (fun j => nth j l NaN) (seq a k).
Proof.
  induction l as [|x l IH]; intros a k H.
  - cbn in H. assert (a = 0%nat) by lia. assert (k = 0%nat) by lia.
    subst. reflexivity.
  - destruct a as [|a].
    + destruct k as [|k]; [reflexivity|].
      cbn [skipn firstn seq map nth]. f_equal.
      cbn [length] in H.
      specialize (IH 0%nat k). cbn [skipn] in IH. rewrite IH by lia.
      rewrite <- seq_shift, map_map. reflexivity.
    + cbn [skipn]. cbn [length] in H. rewrite IH by lia.
      rewrite <- seq_shift, map_map. reflexivity.
Qed.

(** [High.iloc[-11:-1]] is the ten bars before the last one. *)
Lemma breakout_window (l : Series) :
  (11 <= length l)%nat ->
  iloc_slice (-11) (Some (-1)%Z) l
  = map (fun j => nth j l NaN) (seq (length l - 11) 10).
Proof.
  intros H. unfold iloc_slice, slice_bound.
  replace (Z.to_nat (Z.min (Z.max (if (-11 <? 0)%Z then -11 + Z.of_nat (length l)
                                   else -11) 0) (Z.of_nat (length l))))
    with (length l - 11)%nat by (cbn [Z.ltb Z.compare]; lia).
  replace (Z.to_nat (Z.min (Z.max (if (-1 <? 0)%Z then -1 + Z.of_nat (length l)
                                   else -1) 0) (Z.of_nat (length l))))
    with (length l - 1)%nat by (cbn [Z.ltb Z.compare]; lia).
  replace (length l - 1 - (length l - 11))%nat with 10%nat by lia.
  apply firstn_skipn_nth. lia.
Qed.

Lemma latest_nth (l : Series) : latest l = nth (length l - 1) l NaN.
Proof.
  unfold latest. induction l as [|x l IH]; [reflexivity|].
  destruct l as [|y l]; [reflexivity|].
  cbn [last length] in *. rewrite IH.
  replace (S (S (length l)) - 1)%nat with (S (S (length l) - 1)) by lia.
  reflexivity.
Qed.

Lemma breakout_condition_spec (sd : DataFrame) :
  (11 <= len sd)%nat ->
  length (High sd) = len sd ->
  (forall j : nat, (len sd - 11 <= j < len sd - 1)%nat ->
                   is_nan (nth j (High sd) NaN) = false) ->
  (breakout_condition sd = true
   <-> forall j : nat, (len sd - 11 <= j < len sd - 1)%nat ->
         fltb (nth j (High sd) NaN) (nth (len sd - 1) (Close sd) NaN) = true).
Proof.
  intros Hlen Hhigh Hdef.
  unfold breakout_condition, fgtb.
  rewrite latest_nth. fold (len sd).
  rewrite breakout_window by lia. rewrite Hhigh.
  set (c := nth (len sd - 1) (Close sd) NaN).
  rewrite series_max_below.
  - rewrite Forall_map, Forall_forall. split.
    + intros H j Hj. apply H. apply in_seq. lia.
    + intros H j Hj. apply in_seq in Hj. apply H. lia.
  - discriminate.
  - rewrite Forall_map, Forall_forall. intros j Hj.
    apply in_seq in Hj. apply Hdef. lia.
Qed.

(** ** The breakout condition *)

(** C8.  In every evaluation of the two strategies that produces a result,
    the [breakout] condition is true exactly when the latest close (bar
    [n-1]) is strictly above the high of each of the ten bars [n-11 .. n-2],
    that is above their maximum; the latest bar is not part of the window.
    The highs of the window are defined numbers. *)
Theorem breakout_is_close_above_previous_ten_highs :
  forall (sd td : DataFrame) (st : bool) (rh rq : StrategyResult),
    analyze_hawk_strategy sd td st = Ok (Some rh) ->
    analyze_quick_strategy sd td = Ok (Some rq) ->
    length (High sd) = len sd ->
    (forall j : nat, (len sd - 11 <= j < len sd - 1)%nat ->
                     is_nan (nth j (High sd) NaN) = false) ->
    let above_window :=
      forall j : nat, (len sd - 11 <= j < len sd - 1)%nat ->
        fltb (nth j (High sd) NaN) (nth (len sd - 1) (Close sd) NaN) = true in
    (exists b : bool, lookup "breakout" (conditions rh) = Some b
                      /\ (b = true <-> above_window))
    /\ (exists b : bool, lookup "breakout" (conditions rq) = Some b
                         /\ (b = true <-> above_window)).
Proof.
  intros sd td st rh rq Hh Hq Hhigh Hdef above_window.
  apply hawk_result_inv in Hh.
  destruct Hh as (Hlen & _ & _ & _ & _ & _ & Hb).
  apply quick_result_inv in Hq.
  destruct Hq as (_ & _ & _ & _ & _ & Hb').
  assert (Hspec : breakout_condition sd = true <-> above_window).
  { apply breakout_condition_spec; [lia|exact Hhigh|exact Hdef]. }
  split; exists (breakout_condition sd); split; assumption.
Qed.

Lemma breakout_is_close_above_previous_ten_highs_witness :
  exists rh rq : StrategyResult,
    analyze_hawk_strategy stock200 tasi6 true = Ok (Some rh)
    /\ analyze_quick_strategy stock200 tasi6 = Ok (Some rq)
    /\ (exists b : bool, lookup "breakout" (conditions rh) = Some b
          /\ (b = true <->
              forall j : nat, (len stock200 - 11 <= j < len stock200 - 1)%nat ->
                fltb (nth j (High stock200) NaN)
                     (nth (len stock200 - 1) (Close stock200) NaN) = true))
    /\ (exists b : bool, lookup "breakout" (conditions rq) = Some b
          /\ (b = true <->
              forall j : nat, (len stock200 - 11 <= j < len stock200 - 1)%nat ->
                fltb (nth j (High stock200) NaN)
                     (nth (len stock200 - 1) (Close stock200) NaN) = true)).
Proof.
  destruct (analyze_hawk_strategy stock200 tasi6 true) as [[rh|]|e] eqn:Hh;
    [|vm_compute in Hh; discriminate Hh|vm_compute in Hh; discriminate Hh].
  destruct (analyze_quick_strategy stock200 tasi6) as [[rq|]|e] eqn:Hq;
    [|vm_compute in Hq; discriminate Hq|vm_compute in Hq; discriminate Hq].
  exists rh, rq. split; [reflexivity|]. split; [reflexivity|].
  apply (breakout_is_close_above_previous_ten_highs stock200 tasi6 true rh rq Hh Hq).
  - vm_compute. reflexivity.
  - intros j Hj.
    assert (Hall : forallb (fun j => negb (is_nan (nth j (High stock200) NaN)))
                     (seq (len stock200 - 11) 10) = true)
      by (vm_compute; reflexivity).
    rewrite forallb_forall in Hall.
    specialize (Hall j). rewrite in_seq in Hall.
    apply negb_true_iff. apply Hall.
    assert (Hn : len stock200 = 200%nat) by (vm_compute; reflexivity).
    rewrite Hn in *. lia.
Defined.

(** ** Ranking *)

Section SortingFacts.

Variable A : Type.
Variable key : A -> Q.

Lemma Qltb_true (x y : Q) : Qltb x y = true <-> x < y.
Proof.
  unfold Qltb. destruct (Qcompare x y) eqn:C.
  - apply (proj1 (Qcompare_Eq_iff _ _)) in C. split; [discriminate|lra].
  - apply (proj1 (Qcompare_Lt_iff _ _)) in C. tauto.
  - apply (proj1 (Qcompare_Gt_iff _ _)) in C. split; [discriminate|lra].
Qed.

Lemma Qltb_false (x y : Q) : Qltb x y = false <-> y <= x.
Proof.
  pose proof (Qltb_true x y) as H. destruct (Qltb x y).
  - split; [discriminate|]. intros Hle. assert (x < y) by now apply H. lra.
  - split; [|reflexivity]. intros _.
    destruct (Qlt_le_dec x y) as [Hlt|Hle]; [|exact Hle].
    apply H in Hlt. discriminate.
Qed.

Lemma insert_sorted_perm (x : A) (l : list A) :
  Permutation (x :: l) (insert_sorted key x l).
Proof.
  induction l as [|y t IH]; cbn [insert_sorted]; [reflexivity|].
  destruct (Qltb (key y) (key x)); [|reflexivity].
  rewrite perm_swap. now constructor.
Qed.

Lemma sort_stable_perm (l : list A) : Permutation l (sort_stable key l).
Proof.
  induction l as [|x l IH]; cbn; [constructor|].
  rewrite <- insert_sorted_perm. now constructor.
Qed.

Lemma insert_sorted_Forall (P : A -> Prop) (x : A) (l : list A) :
  P x -> Forall P l -> Forall P (insert_sorted key x l).
Proof.
  intros Hx Hl. induction Hl as [|y t Hy Ht IH]; cbn [insert_sorted].
  - repeat constructor. exact Hx.
  - destruct (Qltb (key y) (key x)); repeat constructor; assumption.
Qed.

Lemma insert_sorted_ascending (x : A) (l : list A) :
  StronglySorted (ascending key) l ->
  StronglySorted (ascending key) (insert_sorted key x l).
Proof.
  induction 1 as [|y t Hs IH Hy]; cbn [insert_sorted].
  - repeat constructor.
  - destruct (Qltb (key y) (key x)) eqn:E.
    + constructor; [exact IH|].
      apply insert_sorted_Forall; [|exact Hy].
      apply Qltb_true in E. unfold ascending. lra.
    + apply Qltb_false in E.
      constructor; [constructor; assumption|].
      constructor; [exact E|].
      eapply Forall_impl; [|exact Hy].
      unfold ascending. intros a Ha. cbn beta in Ha. lra.
Qed.

Lemma sort_stable_ascending (l : list A) :
  StronglySorted (ascending key) (sort_stable key l).
Proof.
  induction l as [|x l IH]; cbn; [constructor|].
  now apply insert_sorted_ascending.
Qed.

Lemma StronglySorted_snoc (R : A -> A -> Prop) (l : list A) (x : A) :
  StronglySorted R l -> Forall (fun y => R y x) l -> StronglySorted R (l ++ [x]).
Proof.
  induction 1 as [|y t Hs IH Hy]; intros Hx; cbn.
  - repeat constructor.
  - inversion Hx; subst. constructor; [now apply IH|].
    apply Forall_app. split; [exact Hy|]. repeat constructor. assumption.
Qed.

Lemma StronglySorted_rev (R : A -> A -> Prop) (l : list A) :
  StronglySorted R l -> StronglySorted (fun a b => R b a) (rev l).
Proof.
  induction 1 as [|y t Hs IH Hy]; cbn; [constructor|].
  apply StronglySorted_snoc; [exact IH|].
  apply Forall_rev. exact Hy.
Qed.

Lemma StronglySorted_firstn (R : A -> A -> Prop) (k : nat) (l : list A) :
  StronglySorted R l -> StronglySorted R (firstn k l).
Proof.
  intros H. revert k. induction H as [|y t Hs IH Hy]; intros k.
  - rewrite firstn_nil. constructor.
  - destruct k as [|k]; cbn [firstn]; [constructor|].
    constructor; [apply IH|].
    apply Forall_forall. intros z Hz.
    rewrite Forall_forall in Hy. apply Hy.
    rewrite <- (firstn_skipn k t). apply in_or_app. now left.
Qed.

(** An entry is inserted behind smaller keys only, so entries of equal key
    keep their order. *)
Lemma filter_insert_sorted (p : Q) (x : A) (l : list A) :
  filter (has_percentage key p) (insert_sorted key x l)
  = filter (has_percentage key p) (x :: l).
Proof.
  induction l as [|y t IH]; cbn [insert_sorted]; [reflexivity|].
  destruct (Qltb (key y) (key x)) eqn:E; [|reflexivity].
  apply Qltb_true in E.
  cbn [filter] in *. rewrite IH.
  destruct (has_percentage key p x) eqn:Hx; [|reflexivity].
  destruct (has_percentage key p y) eqn:Hy; [|reflexivity].
  unfold has_percentage in Hx, Hy.
  apply Qeq_bool_iff in Hx. apply Qeq_bool_iff in Hy. lra.
Qed.

Lemma filter_sort_stable (p : Q) (l : list A) :
  filter (has_percentage key p) (sort_stable key l)
  = filter (has_percentage key p) l.
Proof.
  induction l as [|x l IH]; cbn [sort_stable fold_right]; [reflexivity|].
  fold (sort_stable key l). rewrite filter_insert_sorted.
  cbn [filter]. now rewrite IH.
Qed.

(** The reversed sort is descending, a rearrangement of its input, and keeps
    entries of equal key in their input order. *)
Lemma sorted_reverse_descending (l : list A) :
  StronglySorted (descending key) (sorted key true l).
Proof.
  unfold sorted.
  apply (StronglySorted_rev (ascending key)). apply sort_stable_ascending.
Qed.

Lemma sorted_reverse_perm (l : list A) : Permutation l (sorted key true l).
Proof.
  unfold sorted. rewrite <- Permutation_rev, <- sort_stable_perm.
  apply Permutation_rev.
Qed.

Lemma sorted_reverse_stable (p : Q) (l : list A) :
  filter (has_percentage key p) (sorted key true l)
  = filter (has_percentage key p) l.
Proof.
  unfold sorted.
  rewrite filter_rev, filter_sort_stable, filter_rev, rev_involutive.
  reflexivity.
Qed.

End SortingFacts.

Lemma filter_truthy (f : Report -> StrategyResult) (data : list Report) :
  filter (fun d => truthy (f d)) data = data.
Proof.
  induction data as [|d data IH]; cbn; [reflexivity|]. now rewrite IH.
Qed.

(** What holds of the first twenty entries of a reversed sort. *)
Lemma top20_of_sorted (key : Report -> Q) (data : list Report) :
  let top := firstn 20 (sorted key true data) in
  (length top <= 20)%nat
  /\ length top = Nat.min 20 (length data)
  /\ StronglySorted (descending key) top
  /\ exists rest : list Report,
       Permutation data (top ++ rest)
       /\ StronglySorted (descending key) (top ++ rest)
       /\ forall p : Q,
            filter (has_percentage key p) data
            = filter (has_percentage key p) top
              ++ filter (has_percentage key p) rest.
Proof.
  intros top. subst top.
  pose proof (sorted_reverse_perm _ key data) as Hperm.
  repeat split.
  - apply firstn_le_length.
  - rewrite length_firstn. now rewrite <- (Permutation_length Hperm).
  - apply StronglySorted_firstn. apply sorted_reverse_descending.
  - exists (skipn 20 (sorted key true data)).
    rewrite firstn_skipn. repeat split.
    + exact Hperm.
    + apply sorted_reverse_descending.
    + intros p. rewrite <- filter_app, firstn_skipn.
      symmetry. apply (sorted_reverse_stable _ key).
Qed.

(** C9.  For every list of scan results, each of the two top lists of the
    scan summary has at most 20 entries, as many as the scan has results
    when these are fewer than 20 and 20 otherwise, is ordered by the
    strategy's percentage from high to low, and is the head of a
    rearrangement of the whole list in which securities of equal
    percentage keep their scan order: the entries of a given percentage in
    the top list are the first ones of the scan with that percentage, in
    scan order. *)
Theorem top20_is_stable_descending :
  forall data : list Report,
    let hawk_pct := fun d : Report => percentage (hawk d) in
    let quick_pct := fun d : Report => percentage (quick d) in
    ((length (hawk_top data) <= 20)%nat
     /\ length (hawk_top data) = Nat.min 20 (length data)
     /\ StronglySorted (descending hawk_pct) (hawk_top data)
     /\ exists rest : list Report,
          Permutation data (hawk_top data ++ rest)
          /\ StronglySorted (descending hawk_pct)
                            (hawk_top data ++ rest)
          /\ forall p : Q,
               filter (has_percentage hawk_pct p) data
               = filter (has_percentage hawk_pct p) (hawk_top data)
                 ++ filter (has_percentage hawk_pct p) rest)
    /\
    ((length (quick_top data) <= 20)%nat
     /\ length (quick_top data) = Nat.min 20 (length data)
     /\ StronglySorted (descending quick_pct) (quick_top data)
     /\ exists rest : list Report,
          Permutation data (quick_top data ++ rest)
          /\ StronglySorted (descending quick_pct)
                            (quick_top data ++ rest)
          /\ forall p : Q,
               filter (has_percentage quick_pct p) data
               = filter (has_percentage quick_pct p) (quick_top data)
                 ++ filter (has_percentage quick_pct p) rest).
Proof.
  intros data hawk_pct quick_pct. unfold hawk_top, quick_top.
  rewrite (filter_truthy hawk), (filter_truthy quick).
  split.
  - destruct (top20_of_sorted hawk_pct data) as (H1 & H2 & H3 & H4).
    repeat split; assumption.
  - destruct (top20_of_sorted quick_pct data) as (H1 & H2 & H3 & H4).
    repeat split; assumption.
Qed.

(** ** Rounding to the nearest integer *)

Lemma round_half_even_comp (x y : Q) :
  x == y -> round_half_even x = round_half_even y.
Proof.
  intros H. unfold round_half_even.
  rewrite (Qfloor_comp x y H).
  assert (E : x - inject_Z (Qfloor y) == y - inject_Z (Qfloor y)) by now rewrite H.
  now rewrite (Qcompare_comp _ _ E (1 # 2) (1 # 2) (Qeq_refl _)).
Qed.

Lemma round_half_even_bounds (x : Q) :
  x - (1 # 2) <= inject_Z (round_half_even x) <= x + (1 # 2).
Proof.
  unfold round_half_even.
  pose proof (Qfloor_le x) as Hlo.
  pose proof (Qlt_floor x) as Hhi.
  rewrite inject_Z_plus in Hhi. change (inject_Z 1) with 1 in Hhi.
  set (f := Qfloor x) in *.
  destruct (Qcompare (x - inject_Z f) (1 # 2)) eqn:C.
  - apply (proj1 (Qcompare_Eq_iff _ _)) in C.
    destruct (Z.even f); [|rewrite inject_Z_plus; change (inject_Z 1) with 1];
      lra.
  - apply (proj1 (Qcompare_Lt_iff _ _)) in C. lra.
  - apply (proj1 (Qcompare_Gt_iff _ _)) in C.
    rewrite inject_Z_plus. change (inject_Z 1) with 1. lra.
Qed.

Lemma round_half_even_cases (x : Q) :
  round_half_even x = Qfloor x \/ round_half_even x = (Qfloor x + 1)%Z.
Proof.
  unfold round_half_even.
  destruct (Qcompare (x - inject_Z (Qfloor x)) (1 # 2)); auto.
  destruct (Z.even (Qfloor x)); auto.
Qed.

Lemma round_half_even_monotone (x y : Q) :
  x <= y -> (round_half_even x <= round_half_even y)%Z.
Proof.
  intros Hxy.
  pose proof (Qfloor_resp_le x y Hxy) as Hf.
  destruct (Z.eq_dec (Qfloor x) (Qfloor y)) as [E|E].
  - unfold round_half_even. rewrite E.
    destruct (Qcompare (x - inject_Z (Qfloor y)) (1 # 2)) eqn:Cx;
      destruct (Qcompare (y - inject_Z (Qfloor y)) (1 # 2)) eqn:Cy;
      try (apply (proj1 (Qcompare_Eq_iff _ _)) in Cx);
      try (apply (proj1 (Qcompare_Lt_iff _ _)) in Cx);
      try (apply (proj1 (Qcompare_Gt_iff _ _)) in Cx);
      try (apply (proj1 (Qcompare_Eq_iff _ _)) in Cy);
      try (apply (proj1 (Qcompare_Lt_iff _ _)) in Cy);
      try (apply (proj1 (Qcompare_Gt_iff _ _)) in Cy);
      try lra; destruct (Z.even (Qfloor y)); lia.
  - destruct (round_half_even_cases x) as [-> | ->];
      destruct (round_half_even_cases y) as [-> | ->]; lia.
Qed.

(** ** Powers of two *)

Lemma two_neq_0 : ~ 2 == 0.
Proof. discriminate. Qed.

Lemma pow2_pos (e : Z) : 0 < 2 ^ e.
Proof. apply Qpower_0_lt. reflexivity. Qed.

Lemma pow2_add (a b : Z) : 2 ^ (a + b) == 2 ^ a * 2 ^ b.
Proof. apply Qpower_plus, two_neq_0. Qed.

Lemma pow2_succ (e : Z) : 2 ^ (e + 1) == 2 * 2 ^ e.
Proof. rewrite pow2_add. change (2 ^ 1) with 2. ring. Qed.

Lemma pow2_sub (a b : Z) : 2 ^ (a - b) == 2 ^ a / 2 ^ b.
Proof. apply Qpower_minus, two_neq_0. Qed.

Lemma pow2_le (a b : Z) : (a <= b)%Z -> 2 ^ a <= 2 ^ b.
Proof. intros H. apply Qpower_le_compat_l; [exact H|discriminate]. Qed.

Lemma pow2_lt (a b : Z) : (a < b)%Z -> 2 ^ a < 2 ^ b.
Proof. intros H. apply Qpower_lt_compat_l; [exact H|reflexivity]. Qed.

Lemma pow2_lt_inv (a b : Z) : 2 ^ a < 2 ^ b -> (a < b)%Z.
Proof. intros H. apply (Qpower_lt_compat_l_inv 2); [exact H|reflexivity]. Qed.

Lemma pow2_inject (n : Z) : (0 <= n)%Z -> inject_Z (2 ^ n) == 2 ^ n.
Proof. intros H. now rewrite Zpower_Qpower. Qed.

Lemma binade_spec (q : Q) : 0 < q -> 2 ^ binade q <= q < 2 ^ (binade q + 1).
Proof.
  intros Hq. unfold binade.
  set (a := Z.log2 (Qnum q)). set (b := Z.log2 (Zpos (Qden q))).
  assert (Hn : (0 < Qnum q)%Z).
  { unfold Qlt in Hq. cbn in Hq. lia. }
  destruct (Z.log2_spec (Qnum q) Hn) as [Ha1 Ha2].
  destruct (Z.log2_spec (Zpos (Qden q)) (Pos2Z.is_pos _)) as [Hb1 Hb2].
  fold a in Ha1, Ha2. fold b in Hb1, Hb2.
  pose proof (Z.log2_nonneg (Qnum q)) as Ha0. fold a in Ha0.
  pose proof (Z.log2_nonneg (Zpos (Qden q))) as Hb0. fold b in Hb0.
  rewrite Zle_Qle, pow2_inject in Ha1, Hb1 by lia.
  rewrite Zlt_Qlt, pow2_inject in Ha2, Hb2 by lia.
  unfold Z.succ in Ha2, Hb2. rewrite pow2_succ in Ha2, Hb2.
  assert (Eq : q == inject_Z (Qnum q) / inject_Z (Zpos (Qden q))).
  { destruct q as [n d]. cbn [Qnum Qden]. apply Qmake_Qdiv. }
  set (N := inject_Z (Qnum q)) in *. set (D := inject_Z (Zpos (Qden q))) in *.
  pose proof (pow2_pos a) as HA. pose proof (pow2_pos b) as HB.
  assert (HD : 0 < D) by lra.
  assert (Hlo : 2 ^ (a - b - 1) < q).
  { rewrite Eq. apply Qlt_shift_div_l; [exact HD|].
    replace (a - b - 1)%Z with (a - (b + 1))%Z by lia.
    rewrite pow2_sub, pow2_succ.
    assert (E : 2 ^ a / (2 * 2 ^ b) * D == (2 ^ a * D) / (2 * 2 ^ b)) by (field; lra).
    rewrite E. apply Qlt_shift_div_r; [lra|]. nra. }
  assert (Hhi : q < 2 ^ (a - b + 1)).
  { rewrite Eq. apply Qlt_shift_div_r; [exact HD|].
    rewrite pow2_succ, pow2_sub.
    assert (E : 2 * (2 ^ a / 2 ^ b) * D == (2 * 2 ^ a) * (D / 2 ^ b)) by (field; lra).
    rewrite E.
    assert (1 <= D / 2 ^ b) by (apply Qle_shift_div_l; lra).
    nra. }
  destruct (Qle_bool (2 ^ (a - b)) q) eqn:C.
  - apply Qle_bool_iff in C. split; assumption.
  - assert (Hlt : q < 2 ^ (a - b)).
    { destruct (Qlt_le_dec q (2 ^ (a - b))) as [H|H]; [exact H|].
      apply Qle_bool_iff in H. congruence. }
    replace (a - b - 1 + 1)%Z with (a - b)%Z by lia. split; [lra|exact Hlt].
Qed.

Lemma binade_unique (q : Q) (b : Z) :
  2 ^ b <= q -> q < 2 ^ (b + 1) -> binade q = b.
Proof.
  intros Hlo Hhi.
  assert (Hq : 0 < q) by (pose proof (pow2_pos b); lra).
  destruct (binade_spec q Hq) as [Blo Bhi].
  assert (H1 : (binade q < b + 1)%Z) by (apply pow2_lt_inv; lra).
  assert (H2 : (b < binade q + 1)%Z) by (apply pow2_lt_inv; lra).
  lia.
Qed.

Lemma binade_comp (a b : Q) : 0 < a -> a == b -> binade a = binade b.
Proof.
  intros Ha E. symmetry. destruct (binade_spec a Ha) as [Blo Bhi].
  apply binade_unique; rewrite <- E; assumption.
Qed.

Lemma binade_monotone (a b : Q) : 0 < a -> a <= b -> (binade a <= binade b)%Z.
Proof.
  intros Ha Hab.
  destruct (binade_spec a Ha) as [Alo _].
  destruct (binade_spec b) as [_ Bhi]; [lra|].
  assert (H : (binade a < binade b + 1)%Z) by (apply pow2_lt_inv; lra).
  lia.
Qed.

Lemma round_half_even_Z (z : Z) : round_half_even (inject_Z z) = z.
Proof.
  unfold round_half_even. rewrite Qfloor_Z.
  assert (E : Qcompare (inject_Z z - inject_Z z) (1 # 2) = Lt).
  { apply Qcompare_Lt_iff. lra. }
  now rewrite E.
Qed.

Lemma nearest_comp (a b : Q) : 0 < a -> a == b -> nearest a == nearest b.
Proof.
  intros Ha E. unfold nearest, ulp_exp.
  rewrite (binade_comp a b Ha E).
  set (e := Z.max (binade b - 52) (-1074)).
  rewrite (round_half_even_comp (a / 2 ^ e) (b / 2 ^ e)); [reflexivity|].
  now rewrite E.
Qed.

Lemma nearest_scaled (q : Q) : q / 2 ^ ulp_exp q * 2 ^ ulp_exp q == q.
Proof. pose proof (pow2_pos (ulp_exp q)). field. lra. Qed.

(** Rounding moves a value by at most half a unit in the last place. *)
Lemma nearest_error (q : Q) :
  q - 2 ^ ulp_exp q / 2 <= nearest q <= q + 2 ^ ulp_exp q / 2.
Proof.
  unfold nearest. cbv zeta.
  pose proof (round_half_even_bounds (q / 2 ^ ulp_exp q)) as B.
  pose proof (nearest_scaled q) as E.
  pose proof (pow2_pos (ulp_exp q)) as Hp.
  set (e := ulp_exp q) in *. set (x := q / 2 ^ e) in *.
  set (r := inject_Z (round_half_even x)) in *.
  set (p := 2 ^ e) in *.
  assert (H1 : (x - (1 # 2)) * p <= r * p) by (apply Qmult_le_compat_r; lra).
  assert (H2 : r * p <= (x + (1 # 2)) * p) by (apply Qmult_le_compat_r; lra).
  assert (E1 : (x - (1 # 2)) * p == q - p / 2) by (rewrite <- E at 1; field).
  assert (E2 : (x + (1 # 2)) * p == q + p / 2) by (rewrite <- E at 1; field).
  rewrite E1 in H1. rewrite E2 in H2. split; assumption.
Qed.

Lemma nearest_nonneg (q : Q) : 0 < q -> 0 <= nearest q.
Proof.
  intros Hq. unfold nearest. cbv zeta.
  pose proof (pow2_pos (ulp_exp q)) as Hp.
  apply Qmult_le_0_compat; [|lra].
  change 0 with (inject_Z 0). rewrite <- Zle_Qle.
  rewrite <- (round_half_even_Z 0). apply round_half_even_monotone.
  change (inject_Z 0) with 0. apply Qle_shift_div_l; lra.
Qed.

(** A rounded value stays in the closure of its binade. *)
Lemma nearest_upper (q : Q) : 0 < q -> nearest q <= 2 ^ (binade q + 1).
Proof.
  intros Hq. destruct (binade_spec q Hq) as [_ Bhi].
  unfold nearest. cbv zeta.
  pose proof (pow2_pos (ulp_exp q)) as Hp.
  set (e := ulp_exp q) in *.
  assert (Hx : q / 2 ^ e <= 2 ^ (binade q + 1 - e)).
  { rewrite pow2_sub. apply Qle_shift_div_l; [exact Hp|].
    assert (E : q / 2 ^ e * 2 ^ e == q) by (field; lra).
    rewrite E. lra. }
  destruct (Z_lt_le_dec (binade q + 1 - e) 0) as [Hk|Hk].
  - assert (Hhalf : 2 ^ (binade q + 1 - e) <= 1 # 2).
    { change (1 # 2) with (2 ^ (-1)). apply pow2_le. lia. }
    assert (Hr : (round_half_even (q / 2 ^ e) <= 0)%Z).
    { change 0%Z with (round_half_even (1 # 2)).
      apply round_half_even_monotone. lra. }
    rewrite Zle_Qle in Hr. change (inject_Z 0) with 0 in Hr.
    pose proof (pow2_pos (binade q + 1)). nra.
  - assert (Hr : (round_half_even (q / 2 ^ e) <= 2 ^ (binade q + 1 - e))%Z).
    { rewrite <- (round_half_even_Z (2 ^ (binade q + 1 - e))).
      apply round_half_even_monotone. rewrite pow2_inject by exact Hk. exact Hx. }
    rewrite Zle_Qle, pow2_inject in Hr by exact Hk.
    assert (E : 2 ^ (binade q + 1) == 2 ^ (binade q + 1 - e) * 2 ^ e).
    { rewrite <- pow2_add. now replace (binade q + 1 - e + e)%Z with (binade q + 1)%Z by lia. }
    rewrite E. apply Qmult_le_compat_r; lra.
Qed.

(** A normal number is not rounded below its binade. *)
Lemma nearest_lower (q : Q) :
  0 < q -> (-1022 <= binade q)%Z -> 2 ^ binade q <= nearest q.
Proof.
  intros Hq Hb. destruct (binade_spec q Hq) as [Blo _].
  unfold nearest, ulp_exp. cbv zeta.
  replace (Z.max (binade q - 52) (-1074)) with (binade q - 52)%Z by lia.
  set (e := (binade q - 52)%Z).
  pose proof (pow2_pos e) as Hp.
  assert (Hx : 2 ^ 52 <= q / 2 ^ e).
  { apply Qle_shift_div_l; [exact Hp|]. rewrite <- pow2_add.
    now replace (52 + e)%Z with (binade q) by (unfold e; lia). }
  assert (Hr : (2 ^ 52 <= round_half_even (q / 2 ^ e))%Z).
  { rewrite <- (round_half_even_Z (2 ^ 52)) at 1.
    apply round_half_even_monotone. rewrite pow2_inject by lia. exact Hx. }
  rewrite Zle_Qle, pow2_inject in Hr by lia.
  assert (E : 2 ^ binade q == 2 ^ 52 * 2 ^ e).
  { rewrite <- pow2_add. now replace (52 + e)%Z with (binade q) by (unfold e; lia). }
  rewrite E. apply Qmult_le_compat_r; lra.
Qed.

Lemma nearest_monotone (a b : Q) : 0 < a -> a <= b -> nearest a <= nearest b.
Proof.
  intros Ha Hab.
  pose proof (binade_monotone a b Ha Hab) as Hbin.
  destruct (Z.eq_dec (ulp_exp a) (ulp_exp b)) as [E|E].
  - unfold nearest. cbv zeta. rewrite E.
    pose proof (pow2_pos (ulp_exp b)) as Hp.
    apply Qmult_le_compat_r; [|lra].
    rewrite <- Zle_Qle. apply round_half_even_monotone.
    apply Qmult_le_compat_r; [exact Hab|].
    apply Qlt_le_weak, Qinv_lt_0_compat, Hp.
  - unfold ulp_exp in E.
    assert (Hlt : (binade a < binade b)%Z) by lia.
    assert (Hnorm : (-1022 <= binade b)%Z) by lia.
    apply Qle_trans with (2 ^ (binade a + 1)); [now apply nearest_upper|].
    apply Qle_trans with (2 ^ binade b); [apply pow2_le; lia|].
    apply nearest_lower; [lra|exact Hnorm].
Qed.

(** ** Rounding to binary64 *)

Lemma b64_pos (q : Q) :
  0 < q ->
  b64 q = if Qle_bool (2 ^ 1024) (nearest q) then PInf else Fin (Qred (nearest q)).
Proof.
  intros H. unfold b64.
  now rewrite (proj2 (Qcompare_Gt_iff q 0) H).
Qed.

Lemma b64_neg (q : Q) :
  q < 0 ->
  b64 q = if Qle_bool (2 ^ 1024) (nearest (- q)) then NInf
          else Fin (Qred (- nearest (- q))).
Proof.
  intros H. unfold b64.
  now rewrite (proj2 (Qcompare_Lt_iff q 0) H).
Qed.

Lemma b64_zero (q : Q) : q == 0 -> b64 q = Fin 0.
Proof.
  intros H. unfold b64.
  now rewrite (proj2 (Qcompare_Eq_iff q 0) H).
Qed.

Lemma Qle_bool_false (x y : Q) : Qle_bool x y = false <-> y < x.
Proof.
  split.
  - intros H. destruct (Qlt_le_dec y x) as [Hlt|Hle]; [exact Hlt|].
    apply Qle_bool_iff in Hle. congruence.
  - intros H. destruct (Qle_bool x y) eqn:E; [|reflexivity].
    apply Qle_bool_iff in E. lra.
Qed.

(** Rounding does not depend on the fraction that represents the value. *)
Lemma b64_comp (a b : Q) : a == b -> b64 a = b64 b.
Proof.
  intros E.
  destruct (Q_dec a 0) as [[Hlt|Hgt]|Hz].
  - rewrite (b64_neg a Hlt), (b64_neg b) by (rewrite <- E; exact Hlt).
    assert (En : nearest (- a) == nearest (- b)).
    { apply nearest_comp; [lra|now rewrite E]. }
    rewrite (Qred_complete _ _ (Qopp_comp _ _ En)).
    destruct (Qle_bool (2 ^ 1024) (nearest (- a))) eqn:C.
    + apply Qle_bool_iff in C. rewrite En in C. apply Qle_bool_iff in C.
      now rewrite C.
    + apply Qle_bool_false in C. rewrite En in C. apply Qle_bool_false in C.
      now rewrite C.
  - rewrite (b64_pos a Hgt), (b64_pos b) by (rewrite <- E; exact Hgt).
    assert (En : nearest a == nearest b) by now apply nearest_comp.
    rewrite (Qred_complete _ _ En).
    destruct (Qle_bool (2 ^ 1024) (nearest a)) eqn:C.
    + apply Qle_bool_iff in C. rewrite En in C. apply Qle_bool_iff in C.
      now rewrite C.
    + apply Qle_bool_false in C. rewrite En in C. apply Qle_bool_false in C.
      now rewrite C.
  - rewrite (b64_zero a Hz), (b64_zero b) by (rewrite <- E; exact Hz).
    reflexivity.
Qed.

(** Rounding keeps the order. *)
Lemma b64_monotone (a b : Q) : a <= b -> fle (b64 a) (b64 b).
Proof.
  intros Hab.
  destruct (Q_dec a 0) as [[Ha|Ha]|Ha]; destruct (Q_dec b 0) as [[Hb|Hb]|Hb];
    try (exfalso; lra).
  - rewrite (b64_neg a Ha), (b64_neg b Hb).
    assert (Hn : nearest (- b) <= nearest (- a)) by (apply nearest_monotone; lra).
    destruct (Qle_bool (2 ^ 1024) (nearest (- b))) eqn:Cb.
    + apply Qle_bool_iff in Cb.
      assert (Ca : Qle_bool (2 ^ 1024) (nearest (- a)) = true)
        by (apply Qle_bool_iff; lra).
      rewrite Ca. exact I.
    + destruct (Qle_bool (2 ^ 1024) (nearest (- a))); [exact I|].
      cbn [fle]. rewrite !Qred_correct. lra.
  - rewrite (b64_neg a Ha), (b64_pos b Hb).
    pose proof (nearest_nonneg (- a)) as Na. pose proof (nearest_nonneg b Hb) as Nb.
    destruct (Qle_bool (2 ^ 1024) (nearest (- a)));
      destruct (Qle_bool (2 ^ 1024) (nearest b)); try exact I.
    cbn [fle]. rewrite !Qred_correct. lra.
  - rewrite (b64_neg a Ha), (b64_zero b Hb).
    pose proof (nearest_nonneg (- a)) as Na.
    destruct (Qle_bool (2 ^ 1024) (nearest (- a))); [exact I|].
    cbn [fle]. rewrite !Qred_correct. lra.
  - rewrite (b64_pos a Ha), (b64_pos b Hb).
    assert (Hn : nearest a <= nearest b) by (apply nearest_monotone; lra).
    destruct (Qle_bool (2 ^ 1024) (nearest a)) eqn:Ca.
    + apply Qle_bool_iff in Ca.
      assert (Cb : Qle_bool (2 ^ 1024) (nearest b) = true)
        by (apply Qle_bool_iff; lra).
      rewrite Cb. exact I.
    + destruct (Qle_bool (2 ^ 1024) (nearest b)); [exact I|].
      cbn [fle]. rewrite !Qred_correct. lra.
  - rewrite (b64_zero a Ha), (b64_pos b Hb).
    pose proof (nearest_nonneg b Hb) as Nb.
    destruct (Qle_bool (2 ^ 1024) (nearest b)); [exact I|].
    cbn [fle]. rewrite !Qred_correct. lra.
  - rewrite (b64_zero a Ha), (b64_zero b Hb). cbn [fle]. lra.
Qed.

(** The relative error of rounding a normal number is at most [2^-53]. *)
Lemma b64_error (q : Q) :
  2 ^ (-1022) <= q -> q < 2 ^ 1023 ->
  exists y : Q,
    b64 q = Fin y /\ q - q * 2 ^ (-53) <= y <= q + q * 2 ^ (-53).
Proof.
  intros Hlo Hhi.
  assert (Hq : 0 < q) by (pose proof (pow2_pos (-1022)); lra).
  destruct (binade_spec q Hq) as [Blo Bhi].
  assert (Hb1 : (-1022 < binade q + 1)%Z) by (apply pow2_lt_inv; lra).
  assert (Hb2 : (binade q < 1023)%Z) by (apply pow2_lt_inv; lra).
  pose proof (nearest_upper q Hq) as Hup.
  pose proof (nearest_error q) as Herr.
  assert (Ee : ulp_exp q = (binade q - 52)%Z) by (unfold ulp_exp; lia).
  rewrite Ee in Herr.
  assert (Eu : 2 ^ (binade q - 52) / 2 == 2 ^ binade q * 2 ^ (-53)).
  { rewrite <- pow2_add.
    replace (binade q - 52)%Z with (binade q + -53 + 1)%Z by lia.
    rewrite pow2_succ. field. }
  rewrite Eu in Herr.
  assert (Hu : 0 < 2 ^ (-53)) by apply pow2_pos.
  assert (Hs : 2 ^ binade q * 2 ^ (-53) <= q * 2 ^ (-53))
    by (apply Qmult_le_compat_r; lra).
  assert (Hno : Qle_bool (2 ^ 1024) (nearest q) = false).
  { apply Qle_bool_false.
    apply Qle_lt_trans with (2 ^ (binade q + 1)); [exact Hup|].
    apply pow2_lt. lia. }
  rewrite (b64_pos q Hq), Hno. eexists. split; [reflexivity|].
  rewrite Qred_correct. lra.
Qed.

(** ** Relative strength index *)

Lemma Qsign_Gt (q : Q) : 0 < q -> Qsign q = Gt.
Proof. intros H. unfold Qsign. now apply Qcompare_Gt_iff. Qed.


Lemma fdiv_pos (a b : Q) : 0 < b -> fdiv (Fin a) (Fin b) = Fin (Qred (a / b)).
Proof. intros H. cbn [fdiv]. now rewrite (Qsign_Gt b H). Qed.

(** Binary64 numbers used as bounds. *)
Lemma b64_0 : b64 0 = Fin 0.
Proof. reflexivity. Qed.



(** A value between two binary64 numbers is rounded to a number between
    them. *)
Lemma b64_between (lo hi q : Q) :
  b64 lo = Fin lo -> b64 hi = Fin hi -> lo <= q <= hi ->
  exists y : Q, b64 q = Fin y /\ lo <= y <= hi.
Proof.
  intros Elo Ehi [Hlo Hhi].
  pose proof (b64_monotone lo q Hlo) as M1.
  pose proof (b64_monotone q hi Hhi) as M2.
  rewrite Elo in M1. rewrite Ehi in M2.
  destruct (b64 q) as [y| | |]; cbn [fle] in M1, M2; try contradiction.
  exists y. split; [reflexivity|]. split; assumption.
Qed.












Lemma nonneg_defined (x : float) : nonneg x -> is_nan x = false.
Proof. intros (q & -> & _). reflexivity. Qed.







Lemma map2_length (f : float -> float -> float) (l1 : Series) :
  forall l2 : Series, length (map2 f l1 l2) = Nat.min (length l1) (length l2).
Proof.
  induction l1 as [|x l1 IH]; intros [|y l2]; cbn; auto.
Qed.

Lemma map2_map (f : float -> float -> float) (g h : nat -> float) (s : list nat) :
  map2 f (map g s) (map h s) = map (fun i => f (g i) (h i)) s.
Proof.
  induction s as [|i s IH]; cbn; [reflexivity|]. now rewrite IH.
Qed.

Lemma nth_map_seq (f : nat -> float) (n i : nat) :
  (i < n)%nat -> nth i (map f (seq 0 n)) NaN = f i.
Proof.
  intros H. rewrite (nth_indep _ NaN (f 0%nat)) by now rewrite length_map, length_seq.
  rewrite map_nth, seq_nth by exact H. reflexivity.
Qed.

Lemma diff_length (l : Series) : length (diff l) = length l.
Proof.
  destruct l as [|x t]; [reflexivity|]. cbn [diff length].
  rewrite map2_length. cbn [length]. lia.
Qed.






Lemma rsi_column_seq (close : Series) :
  rsi_column close
  = map (fun i =>
           rsi_of_rs
             (b_div (rolling_at 14 mean_of
                       (where_ (fun d => fgtb d fzero) fzero (diff close)) i)
                    (rolling_at 14 mean_of
                       (s_neg (where_ (fun d => fltb d fzero) fzero (diff close))) i)))
        (seq 0 (length close)).
Proof.
  unfold rsi_column, rsi_gain, rsi_loss, rolling_mean, rolling, s_div, s_neg, where_.
  rewrite !length_map, diff_length, map2_map, map_map. reflexivity.
Qed.




Lemma rsi_column_length (close : Series) :
  length (rsi_column close) = length close.
Proof. now rewrite rsi_column_seq, length_map, length_seq. Qed.



Lemma forallb_Forall_true (f : float -> bool) (l : Series) :
  forallb f l = true -> Forall (fun x => f x = true) l.
Proof.
  intros H. apply Forall_forall. now apply forallb_forall.
Qed.




(** A run of fourteen rising closes has no loss to average: the RSI is 100. *)
Example rsi_all_gains :
  latest (rsi_column (map of_Z [1; 2; 3; 4; 5; 6; 7; 8; 9; 10; 11; 12; 13; 14; 15]%Z))
  = Fin 100.
Proof. vm_compute. reflexivity. Qed.

(** A flat run has neither gain nor loss: the RSI is undefined. *)
Example rsi_flat :
  latest (rsi_column (repeat (of_Z 7) 15)) = NaN.
Proof. vm_compute. reflexivity. Qed.

(** ** Rounding *)

Lemma Qmake_hundredths (z : Z) : z # 100 == inject_Z z * (1 # 100).
Proof. unfold Qeq, inject_Z, Qmult. cbn [Qnum Qden]. lia. Qed.

Lemma fsub_Fin (a b : Q) : exists d : Q, fsub (Fin a) (Fin b) = Fin d /\ d == a - b.
Proof.
  eexists. split; [reflexivity|]. rewrite !Qred_correct. reflexivity.
Qed.

Lemma last_cons (t : Series) :
  forall y d : float, last (y :: t) d = last t y.
Proof.
  induction t as [|z t IH]; intros y d; [reflexivity|].
  change (last (y :: z :: t) d) with (last (z :: t) d).
  now rewrite (IH z d), (IH z y).
Qed.

Lemma latest_nonempty (l : Series) : l <> [] -> iloc_last l = Ok (latest l).
Proof.
  intros H. destruct l as [|y t]; [contradiction|].
  unfold iloc_last, latest. now rewrite last_cons.
Qed.

(** ** Rounding to two decimals *)

(** The relative error of a rounding, on the range of the prices and of
    their ratios. *)
Lemma b64_near (q : Q) :
  (1 # 1000) <= q <= 1000000000000000000 ->
  exists y : Q, b64 q = Fin y /\ q - q * u64 <= y <= q + q * u64.
Proof.
  intros [Hlo Hhi].
  assert (H1 : 2 ^ (-1022) <= 1 # 1000)
    by (apply Qle_bool_imp_le; vm_compute; reflexivity).
  assert (H2 : 1000000000000000000 < 2 ^ 1023) by (vm_compute; reflexivity).
  assert (Eu : 2 ^ (-53) == u64) by reflexivity.
  destruct (b64_error q) as (y & Ey & Hy); [lra|lra|].
  exists y. split; [exact Ey|]. rewrite Eu in Hy. exact Hy.
Qed.

Lemma lit_hundredths (k : Z) :
  b_div (Fin (inject_Z k)) (of_Z 100) = lit (k # 100).
Proof.
  unfold b_div, of_Z, lit. rewrite fdiv_pos by reflexivity. cbn [rnd].
  apply b64_comp. rewrite Qred_correct. symmetry. apply Qmake_Qdiv.
Qed.

(** The binary64 number written with two decimals. *)
Lemma lit_grid (k : Z) :
  (1 <= k <= 100000000000000000)%Z ->
  exists y : Q,
    lit (k # 100) = Fin y
    /\ (k # 100) - (k # 100) * u64 <= y <= (k # 100) + (k # 100) * u64.
Proof.
  intros [Hlo Hhi]. unfold lit. apply b64_near.
  rewrite Qmake_hundredths. rewrite Zle_Qle in Hlo, Hhi.
  change (inject_Z 1) with 1 in Hlo.
  change (inject_Z 100000000000000000) with 100000000000000000 in Hhi.
  lra.
Qed.

(** A value rounded to two decimals: the binary64 number written [k/100],
    for the integer [k] nearest to a hundred times the value. *)
Lemma round2_grid (x : Q) :
  (1 # 1000) <= x <= 1000000000000000 ->
  exists k : Z,
    round2 (Fin x) = lit (k # 100)
    /\ 100 * x - 100 * x * u64 - (1 # 2) <= inject_Z k
       <= 100 * x + 100 * x * u64 + (1 # 2).
Proof.
  intros [Hlo Hhi]. unfold round2, b_mul, of_Z. cbn [fmul rnd].
  assert (E : Qred (x * inject_Z 100) == 100 * x).
  { rewrite Qred_correct. change (inject_Z 100) with 100. ring. }
  destruct (b64_near (Qred (x * inject_Z 100))) as (m & Em & Hm); [lra|].
  rewrite Em. cbn [rint]. change (Fin (inject_Z 100)) with (of_Z 100).
  rewrite lit_hundredths.
  exists (round_half_even m). split; [reflexivity|].
  pose proof (round_half_even_bounds m) as B. unfold u64 in *. lra.
Qed.


Lemma inject_Z_sub (a b : Z) : inject_Z (a - b) == inject_Z a - inject_Z b.
Proof.
  unfold Z.sub. rewrite inject_Z_plus, inject_Z_opp. reflexivity.
Qed.

(** Two-decimal numbers in their order. *)
Lemma lit_lt (a b : Z) :
  (1 <= a)%Z -> (a < b)%Z -> (b <= 1000000000000000)%Z ->
  fltb (lit (a # 100)) (lit (b # 100)) = true.
Proof.
  intros Ha Hab Hb.
  destruct (lit_grid a) as (x & -> & Hx); [lia|].
  destruct (lit_grid b) as (y & -> & Hy); [lia|].
  apply fltb_Fin.
  rewrite (Qmake_hundredths a) in Hx. rewrite (Qmake_hundredths b) in Hy.
  assert (H1 : (a + 1 <= b)%Z) by lia.
  rewrite Zle_Qle, inject_Z_plus in H1. change (inject_Z 1) with 1 in H1.
  rewrite Zle_Qle in Ha, Hb. change (inject_Z 1) with 1 in Ha.
  change (inject_Z 1000000000000000) with 1000000000000000 in Hb.
  unfold u64 in *. lra.
Qed.

Lemma lit_positive (a : Z) :
  (1 <= a)%Z -> (a <= 1000000000000000)%Z -> fltb fzero (lit (a # 100)) = true.
Proof.
  intros Ha Hb.
  destruct (lit_grid a) as (x & -> & Hx); [lia|].
  apply fltb_Fin.
  rewrite (Qmake_hundredths a) in Hx.
  rewrite Zle_Qle in Ha. change (inject_Z 1) with 1 in Ha.
  unfold u64 in *. lra.
Qed.

(** Bounds of a quotient. *)
Lemma div_between (a b lo hi : Q) :
  0 < b -> lo * b <= a -> a <= hi * b -> lo <= a / b <= hi.
Proof.
  intros Hb Hlo Hhi. split.
  - apply Qle_shift_div_l; assumption.
  - apply Qle_shift_div_r; assumption.
Qed.

Lemma scaled_ratio_upper (a0 b0 a b ch cl k : Q) :
  0 < b0 -> 0 <= a0 -> 0 < cl -> 0 < ch ->
  a <= a0 * ch -> b0 * cl <= b -> ch <= k * cl ->
  a / b <= (a0 / b0) * k.
Proof.
  intros Hb0 Ha0 Hcl Hch Ha Hb Hk.
  assert (Hbpos : 0 < b).
  { apply Qlt_le_trans with (b0 * cl); [|exact Hb].
    apply Qmult_lt_0_compat; assumption. }
  assert (Hr : 0 <= a0 / b0) by (apply Qle_shift_div_l; lra).
  assert (Hk0 : 0 <= k).
  { destruct (Qlt_le_dec k 0) as [Hneg|Hpos]; [|exact Hpos].
    assert (k * cl < 0 * cl) by (apply Qmult_lt_compat_r; assumption). lra. }
  apply Qle_shift_div_r; [exact Hbpos|].
  assert (E : a0 / b0 * k * (b0 * cl) == a0 * (k * cl)) by (field; lra).
  assert (H1 : a0 * ch <= a0 * (k * cl)).
  { rewrite !(Qmult_comm a0). apply Qmult_le_compat_r; assumption. }
  assert (H2 : a0 / b0 * k * (b0 * cl) <= a0 / b0 * k * b).
  { rewrite !(Qmult_comm (a0 / b0 * k)).
    apply Qmult_le_compat_r; [assumption|].
    apply Qmult_le_0_compat; assumption. }
  lra.
Qed.

Lemma scaled_ratio_lower (a0 b0 a b ch cl k : Q) :
  0 < b0 -> 0 <= a0 -> 0 <= cl -> 0 < ch -> 0 < b -> 0 <= k ->
  a0 * cl <= a -> b <= b0 * ch -> k * ch <= cl ->
  (a0 / b0) * k <= a / b.
Proof.
  intros Hb0 Ha0 Hcl Hch Hbpos Hk0 Ha Hb Hk.
  assert (Hr : 0 <= a0 / b0) by (apply Qle_shift_div_l; lra).
  apply Qle_shift_div_l; [exact Hbpos|].
  assert (E : a0 / b0 * k * (b0 * ch) == a0 * (k * ch)) by (field; lra).
  assert (H1 : a0 * (k * ch) <= a0 * cl).
  { rewrite !(Qmult_comm a0). apply Qmult_le_compat_r; assumption. }
  assert (H2 : a0 / b0 * k * b <= a0 / b0 * k * (b0 * ch)).
  { rewrite !(Qmult_comm (a0 / b0 * k)).
    apply Qmult_le_compat_r; [assumption|].
    apply Qmult_le_0_compat; assumption. }
  lra.
Qed.

(** The difference of two two-decimal numbers that are not too close to
    each other, computed in binary64. *)
Lemma b_sub_grid (a b : Z) :
  (1 <= b)%Z -> (b < a)%Z -> (a <= 1000000000000000)%Z ->
  (a + b <= 100 * (a - b))%Z ->
  exists d : Q,
    b_sub (lit (a # 100)) (lit (b # 100)) = Fin d
    /\ (inject_Z (a - b) * (1 # 100)) * (1 - 102 * u64) <= d
       <= (inject_Z (a - b) * (1 # 100)) * (1 + 102 * u64).
Proof.
  intros Hb Hba Ha Hc.
  destruct (lit_grid a) as (x & Ex & Hx); [lia|].
  destruct (lit_grid b) as (y & Ey & Hy); [lia|].
  rewrite Ex, Ey. unfold b_sub.
  destruct (fsub_Fin x y) as (d0 & -> & Hd0). cbn [rnd].
  rewrite (Qmake_hundredths a) in Hx. rewrite (Qmake_hundredths b) in Hy.
  assert (H1 : (b + 1 <= a)%Z) by lia.
  rewrite Zle_Qle, inject_Z_plus in H1. change (inject_Z 1) with 1 in H1.
  rewrite Zle_Qle in Hb, Ha. change (inject_Z 1) with 1 in Hb.
  change (inject_Z 1000000000000000) with 1000000000000000 in Ha.
  rewrite Zle_Qle, inject_Z_plus, inject_Z_mult in Hc.
  change (inject_Z 100) with 100 in Hc.
  pose proof (inject_Z_sub a b) as Eab.
  set (D := inject_Z (a - b)) in *.
  set (A := inject_Z a) in *. set (B := inject_Z b) in *.
  destruct (b64_near d0) as (d & Ed & Hd); [unfold u64 in *; lra|].
  exists d. split; [exact Ed|]. unfold u64 in *. lra.
Qed.

Lemma ratio_hundredths (t e s : Z) :
  (s < e)%Z ->
  ((t # 100) - (e # 100)) / ((e # 100) - (s # 100))
  == inject_Z (t - e) / inject_Z (e - s).
Proof.
  intros Hse.
  rewrite (Qmake_hundredths t), (Qmake_hundredths e), (Qmake_hundredths s).
  rewrite !inject_Z_sub.
  rewrite Zlt_Qlt in Hse. field. lra.
Qed.

(** A risk/reward ratio formed on three two-decimal levels: the
    two-decimal number nearest to the quotient of the differences, up to
    the rounding of the operations. *)
Lemma ratio_grid (t e s : Z) :
  (1 <= s)%Z -> (s < e)%Z -> (e < t)%Z -> (t <= 1000000000000000)%Z ->
  (t + e <= 100 * (t - e))%Z -> (e + s <= 100 * (e - s))%Z ->
  (t - e <= 20 * (e - s))%Z -> (e - s <= 100 * (t - e))%Z ->
  exists r : Z,
    round2 (b_div (b_sub (lit (t # 100)) (lit (e # 100)))
                  (b_sub (lit (e # 100)) (lit (s # 100)))) = lit (r # 100)
    /\ (1 <= r <= 2001)%Z
    /\ Qabs ((r # 100) - inject_Z (t - e) / inject_Z (e - s))
       <= (1 # 200) + (1 # 1000000000000).
Proof.
  intros Hs Hse Het Ht Hc1 Hc2 Hhi Hlo.
  destruct (b_sub_grid t e) as (A & -> & HA); try lia.
  destruct (b_sub_grid e s) as (B & -> & HB); try lia.
  assert (Ha0 : (1 <= t - e)%Z) by lia.
  assert (Hb0 : (1 <= e - s)%Z) by lia.
  rewrite Zle_Qle in Ha0, Hb0, Hhi, Hlo.
  rewrite inject_Z_mult in Hhi, Hlo.
  change (inject_Z 1) with 1 in Ha0, Hb0.
  change (inject_Z 20) with 20 in Hhi. change (inject_Z 100) with 100 in Hlo.
  set (a0 := inject_Z (t - e)) in *. set (b0 := inject_Z (e - s)) in *.
  assert (HBpos : 0 < B) by (unfold u64 in *; lra).
  unfold b_div. rewrite (fdiv_pos A B HBpos). cbn [rnd].
  assert (EX : Qred (A / B) == A / B) by apply Qred_correct.
  assert (Er : a0 * (1 # 100) / (b0 * (1 # 100)) == a0 / b0) by (field; lra).
  assert (Hup : A / B <= a0 / b0 * (1 + 205 * u64)).
  { rewrite <- Er.
    apply (scaled_ratio_upper _ _ A B (1 + 102 * u64) (1 - 102 * u64));
      unfold u64 in *; lra. }
  assert (Hdn : a0 / b0 * (1 - 205 * u64) <= A / B).
  { rewrite <- Er.
    apply (scaled_ratio_lower _ _ A B (1 + 102 * u64) (1 - 102 * u64));
      unfold u64 in *; lra. }
  destruct (div_between a0 b0 (1 # 100) 20) as [Hr1 Hr2]; [lra|lra|lra|].
  set (rho := a0 / b0) in *.
  destruct (b64_near (Qred (A / B))) as (R & -> & HR); [unfold u64 in *; lra|].
  destruct (round2_grid R) as (r & -> & Hr); [unfold u64 in *; lra|].
  exists r. split; [reflexivity|].
  assert (Hr' : (1 # 4) < inject_Z r < 2001) by (unfold u64 in *; lra).
  split.
  - destruct Hr' as [Hp Hq].
    assert (Hp' : inject_Z 0 < inject_Z r) by (change (inject_Z 0) with 0; lra).
    change 2001 with (inject_Z 2001) in Hq.
    rewrite <- Zlt_Qlt in Hp', Hq. lia.
  - apply Qabs_Qle_condition. rewrite (Qmake_hundredths r).
    unfold u64 in *. split; lra.
Qed.

(** ** Entry and exit plan *)

Lemma empty_false (df : DataFrame) : len df <> 0%nat -> empty df = false.
Proof. intros H. unfold empty. now apply Nat.eqb_neq. Qed.

Lemma empty_true (df : DataFrame) : len df = 0%nat -> empty df = true.
Proof. intros H. unfold empty. now apply Nat.eqb_eq. Qed.

Lemma ratio_gap (n1 n2 d : Q) :
  0 < d -> d * (1 # 50) < n2 - n1 -> n1 / d + (1 # 50) < n2 / d.
Proof.
  intros Hd H.
  assert (E : n2 / d == n1 / d + (n2 - n1) / d) by (field; lra).
  rewrite E.
  assert ((1 # 50) < (n2 - n1) / d) by (apply Qlt_shift_div_l; lra).
  lra.
Qed.

(** The price rounded to two decimals. *)
Lemma price_grid (P : Q) :
  (1 # 4) <= P <= 1000000000000 ->
  exists k : Z,
    round2 (Fin P) = lit (k # 100)
    /\ 100 * P - P * (1 # 10000000000000) - (1 # 2) <= inject_Z k
       <= 100 * P + P * (1 # 10000000000000) + (1 # 2).
Proof.
  intros HP. destruct (round2_grid P) as (k & -> & Hk); [lra|].
  exists k. split; [reflexivity|]. unfold u64 in *. lra.
Qed.

(** A value of at most a quarter of a hundredth is rounded to zero. *)
Lemma round2_small (x : Q) :
  0 <= x <= (1 # 400) -> round2 (Fin x) = lit (0 # 100).
Proof.
  intros [Hlo Hhi]. unfold round2, b_mul, of_Z. cbn [fmul rnd].
  assert (E : Qred (x * inject_Z 100) == 100 * x).
  { rewrite Qred_correct. change (inject_Z 100) with 100. ring. }
  assert (Hq : b64 (1 # 4) = Fin (1 # 4)) by (vm_compute; reflexivity).
  destruct (b64_between 0 (1 # 4) (Qred (x * inject_Z 100)) b64_0 Hq)
    as (m & -> & Hm); [lra|].
  cbn [rint]. change (Fin (inject_Z 100)) with (of_Z 100).
  rewrite lit_hundredths.
  assert (Hk : round_half_even m = 0%Z).
  { pose proof (round_half_even_bounds m) as B.
    assert (B1 : inject_Z (-1) < inject_Z (round_half_even m))
      by (change (inject_Z (-1)) with (-1); lra).
    assert (B2 : inject_Z (round_half_even m) < inject_Z 1)
      by (change (inject_Z 1) with 1; lra).
    rewrite <- Zlt_Qlt in B1, B2. lia. }
  now rewrite Hk.
Qed.

(** A level of the plan: the price times a factor written in decimals,
    rounded to two decimals. *)
Lemma level_grid (P c : Q) :
  0 < P <= 1000000000000 -> (9 # 10) <= c <= (13 # 10) ->
  exists k : Z,
    round2 (b_mul (Fin P) (lit c)) = lit (k # 100)
    /\ 100 * (P * c) - P * (1 # 10000000000000) - (1 # 2) <= inject_Z k
       <= 100 * (P * c) + P * (1 # 10000000000000) + (1 # 2).
Proof.
  intros HP Hc. unfold lit at 1.
  destruct (b64_near c) as (c' & -> & Hc'); [lra|].
  unfold b_mul. cbn [fmul rnd].
  assert (E : Qred (P * c') == P * c') by apply Qred_correct.
  assert (H1 : P * c' <= P * (c + c * u64)) by (apply Qmult_le_l; lra).
  assert (H2 : P * (c - c * u64) <= P * c') by (apply Qmult_le_l; lra).
  assert (H3 : P * c <= P * (13 # 10)) by (apply Qmult_le_l; lra).
  assert (H4 : P * (9 # 10) <= P * c) by (apply Qmult_le_l; lra).
  assert (E1 : P * (c + c * u64) == P * c + P * c * u64) by ring.
  assert (E2 : P * (c - c * u64) == P * c - P * c * u64) by ring.
  set (pc := P * c) in *. set (pc' := P * c') in *.
  destruct (Qlt_le_dec P (1 # 700)) as [Hsmall|Hlarge].
  - assert (Hq : b64 (1 # 512) = Fin (1 # 512)) by (vm_compute; reflexivity).
    destruct (b64_between 0 (1 # 512) (Qred pc') b64_0 Hq) as (x & -> & Hx);
      [unfold u64 in *; lra|].
    rewrite round2_small by lra.
    exists 0%Z. split; [reflexivity|]. change (inject_Z 0) with 0.
    unfold u64 in *. lra.
  - destruct (b64_near (Qred pc')) as (x & -> & Hx); [unfold u64 in *; lra|].
    destruct (round2_grid x) as (k & -> & Hk); [unfold u64 in *; lra|].
    exists k. split; [reflexivity|]. unfold u64 in *. lra.
Qed.

(** The four levels of the plan of a positive price are two-decimal
    numbers. *)
Lemma plan_four_levels (df : DataFrame) (P : Q) :
  len df <> 0%nat ->
  latest (Close df) = Fin P ->
  0 < P <= 1000000000000 ->
  exists e s t1 t2 : Z,
    calculate_entry_exit_points df
    = Some {| current_price := round2 (Fin P);
              entry_price := lit (e # 100);
              stop_loss := lit (s # 100);
              target1 := lit (t1 # 100);
              target2 := lit (t2 # 100);
              risk_reward_1 :=
                round2 (b_div (b_sub (lit (t1 # 100)) (lit (e # 100)))
                              (b_sub (lit (e # 100)) (lit (s # 100))));
              risk_reward_2 :=
                round2 (b_div (b_sub (lit (t2 # 100)) (lit (e # 100)))
                              (b_sub (lit (e # 100)) (lit (s # 100)))) |}
    /\ 100 * (P * (995 # 1000)) - P * (1 # 10000000000000) - (1 # 2) <= inject_Z e
       <= 100 * (P * (995 # 1000)) + P * (1 # 10000000000000) + (1 # 2)
    /\ 100 * (P * (95 # 100)) - P * (1 # 10000000000000) - (1 # 2) <= inject_Z s
       <= 100 * (P * (95 # 100)) + P * (1 # 10000000000000) + (1 # 2)
    /\ 100 * (P * (110 # 100)) - P * (1 # 10000000000000) - (1 # 2) <= inject_Z t1
       <= 100 * (P * (110 # 100)) + P * (1 # 10000000000000) + (1 # 2)
    /\ 100 * (P * (120 # 100)) - P * (1 # 10000000000000) - (1 # 2) <= inject_Z t2
       <= 100 * (P * (120 # 100)) + P * (1 # 10000000000000) + (1 # 2).
Proof.
  intros Hne HP Hr. unfold calculate_entry_exit_points.
  rewrite (empty_false df Hne), HP.
  destruct (level_grid P (995 # 1000) Hr) as (e & -> & He); [lra|].
  destruct (level_grid P (95 # 100) Hr) as (s & -> & Hs); [lra|].
  destruct (level_grid P (110 # 100) Hr) as (t1 & -> & Ht1); [lra|].
  destruct (level_grid P (120 # 100) Hr) as (t2 & -> & Ht2); [lra|].
  exists e, s, t1, t2. split; [reflexivity|]. repeat split; lra.
Qed.

(** The plan of a price: its five levels are two-decimal numbers. *)
Lemma plan_levels (df : DataFrame) (P : Q) :
  len df <> 0%nat ->
  latest (Close df) = Fin P ->
  (1 # 4) <= P <= 1000000000000 ->
  exists c e s t1 t2 : Z,
    calculate_entry_exit_points df
    = Some {| current_price := lit (c # 100);
              entry_price := lit (e # 100);
              stop_loss := lit (s # 100);
              target1 := lit (t1 # 100);
              target2 := lit (t2 # 100);
              risk_reward_1 :=
                round2 (b_div (b_sub (lit (t1 # 100)) (lit (e # 100)))
                              (b_sub (lit (e # 100)) (lit (s # 100))));
              risk_reward_2 :=
                round2 (b_div (b_sub (lit (t2 # 100)) (lit (e # 100)))
                              (b_sub (lit (e # 100)) (lit (s # 100)))) |}
    /\ 100 * P - P * (1 # 10000000000000) - (1 # 2) <= inject_Z c
       <= 100 * P + P * (1 # 10000000000000) + (1 # 2)
    /\ 100 * (P * (995 # 1000)) - P * (1 # 10000000000000) - (1 # 2) <= inject_Z e
       <= 100 * (P * (995 # 1000)) + P * (1 # 10000000000000) + (1 # 2)
    /\ 100 * (P * (95 # 100)) - P * (1 # 10000000000000) - (1 # 2) <= inject_Z s
       <= 100 * (P * (95 # 100)) + P * (1 # 10000000000000) + (1 # 2)
    /\ 100 * (P * (110 # 100)) - P * (1 # 10000000000000) - (1 # 2) <= inject_Z t1
       <= 100 * (P * (110 # 100)) + P * (1 # 10000000000000) + (1 # 2)
    /\ 100 * (P * (120 # 100)) - P * (1 # 10000000000000) - (1 # 2) <= inject_Z t2
       <= 100 * (P * (120 # 100)) + P * (1 # 10000000000000) + (1 # 2).
Proof.
  intros Hne HP Hr.
  destruct (plan_four_levels df P Hne HP)
    as (e & s & t1 & t2 & -> & He & Hs & Ht1 & Ht2); [lra|].
  destruct (price_grid P Hr) as (c & -> & Hc).
  exists c, e, s, t1, t2. split; [reflexivity|]. repeat split; lra.
Qed.

(** Goals on integers are settled on their rational images. *)
Ltac on_rationals :=
  first [rewrite Zlt_Qlt | rewrite Zle_Qle];
  repeat first [rewrite inject_Z_plus | rewrite inject_Z_mult
               | rewrite inject_Z_sub];
  change (inject_Z 1) with 1; change (inject_Z 20) with 20;
  change (inject_Z 100) with 100;
  change (inject_Z 1000000000000000) with 1000000000000000.

(** From a quarter of a currency unit on, the two-decimal levels keep
    their order, and their differences are not lost in their sums. *)
Lemma plan_levels_apart (P : Q) (c e s t1 t2 : Z) :
  (1 # 4) <= P <= 1000000000000 ->
  100 * P - P * (1 # 10000000000000) - (1 # 2) <= inject_Z c
    <= 100 * P + P * (1 # 10000000000000) + (1 # 2) ->
  100 * (P * (995 # 1000)) - P * (1 # 10000000000000) - (1 # 2) <= inject_Z e
    <= 100 * (P * (995 # 1000)) + P * (1 # 10000000000000) + (1 # 2) ->
  100 * (P * (95 # 100)) - P * (1 # 10000000000000) - (1 # 2) <= inject_Z s
    <= 100 * (P * (95 # 100)) + P * (1 # 10000000000000) + (1 # 2) ->
  100 * (P * (110 # 100)) - P * (1 # 10000000000000) - (1 # 2) <= inject_Z t1
    <= 100 * (P * (110 # 100)) + P * (1 # 10000000000000) + (1 # 2) ->
  100 * (P * (120 # 100)) - P * (1 # 10000000000000) - (1 # 2) <= inject_Z t2
    <= 100 * (P * (120 # 100)) + P * (1 # 10000000000000) + (1 # 2) ->
  ((1 <= s)%Z /\ (s < e)%Z /\ (e <= c)%Z /\ (c < t1)%Z /\ (t1 < t2)%Z
   /\ (t2 <= 1000000000000000)%Z)
  /\ ((t1 + e <= 100 * (t1 - e))%Z /\ (t2 + e <= 100 * (t2 - e))%Z
      /\ (e + s <= 100 * (e - s))%Z)
  /\ ((t1 - e <= 20 * (e - s))%Z /\ (t2 - e <= 20 * (e - s))%Z
      /\ (e - s <= 100 * (t1 - e))%Z /\ (e - s <= 100 * (t2 - e))%Z).
Proof.
  intros HP Hc He Hs Ht1 Ht2.
  assert (Hse : (s < e)%Z) by (on_rationals; lra).
  assert (Hec : (e < c + 1)%Z) by (on_rationals; lra).
  assert (Hgap : 1 <= inject_Z e - inject_Z s).
  { assert (H : (1 <= e - s)%Z) by lia.
    rewrite Zle_Qle, inject_Z_sub in H. exact H. }
  split.
  { split; [on_rationals; lra|]. split; [exact Hse|]. split; [lia|].
    split; [on_rationals; lra|]. split; on_rationals; lra. }
  split.
  { split; [on_rationals; lra|]. split; [on_rationals; lra|].
    on_rationals. destruct (Qlt_le_dec P (2 # 5)); lra. }
  split; [on_rationals; destruct (Qlt_le_dec P (31 # 100)); lra|].
  split; [on_rationals; destruct (Qlt_le_dec P (31 # 100)); lra|].
  split; on_rationals; lra.
Qed.

(** The planner on a latest close of zero: a plan is returned, and its two
    ratios are the undefined outcome of [0/0].  The claim C5 asks for a
    rejection of this input. *)
Lemma zero_price_is_planned :
  latest (Close zero_price) = Fin 0
  /\ exists plan : EntryExit,
       calculate_entry_exit_points zero_price = Some plan
       /\ risk_reward_1 plan = NaN
       /\ risk_reward_2 plan = NaN.
Proof.
  split; [reflexivity|].
  eexists. split; [vm_compute; reflexivity|]. split; reflexivity.
Qed.

Lemma Qabs_within (x y r : Q) : y - r <= x <= y + r -> Qabs (x - y) <= r.
Proof. intros H. apply Qabs_Qle_condition. lra. Qed.

(** C5, amended.  The planner answers [None] for the empty series only; the
    sign of the price is not examined.  For a latest close [P] above zero
    and up to [10^12] the entry, the stop and the two targets of the plan
    are two-decimal numbers, each the binary64 number written [k/100],
    within half a hundredth of [0.995 P], [0.95 P], [1.10 P] and [1.20 P]
    up to a rounding error of [P/10^15].  From [P = 0.25] on the stop is
    below the entry and the two ratios are two-decimal numbers within half
    a hundredth of [(target - entry) / (entry - stop)], formed on the
    two-decimal levels, up to a rounding error of [10^-12]. *)
Theorem planner_rejects_empty_series_only :
  forall df : DataFrame,
    (calculate_entry_exit_points df = None <-> len df = 0%nat)
    /\ forall P : Q,
         len df <> 0%nat ->
         latest (Close df) = Fin P ->
         0 < P <= 1000000000000 ->
         exists (plan : EntryExit) (e s t1 t2 : Z),
           calculate_entry_exit_points df = Some plan
           /\ entry_price plan = lit (e # 100)
           /\ stop_loss plan = lit (s # 100)
           /\ target1 plan = lit (t1 # 100)
           /\ target2 plan = lit (t2 # 100)
           /\ Qabs ((e # 100) - P * (995 # 1000))
              <= (1 # 200) + P * (1 # 1000000000000000)
           /\ Qabs ((s # 100) - P * (95 # 100))
              <= (1 # 200) + P * (1 # 1000000000000000)
           /\ Qabs ((t1 # 100) - P * (110 # 100))
              <= (1 # 200) + P * (1 # 1000000000000000)
           /\ Qabs ((t2 # 100) - P * (120 # 100))
              <= (1 # 200) + P * (1 # 1000000000000000)
           /\ ((1 # 4) <= P ->
               (s < e)%Z
               /\ exists r1 r2 : Z,
                    risk_reward_1 plan = lit (r1 # 100)
                    /\ risk_reward_2 plan = lit (r2 # 100)
                    /\ Qabs ((r1 # 100)
                             - ((t1 # 100) - (e # 100))
                               / ((e # 100) - (s # 100)))
                       <= (1 # 200) + (1 # 1000000000000)
                    /\ Qabs ((r2 # 100)
                             - ((t2 # 100) - (e # 100))
                               / ((e # 100) - (s # 100)))
                       <= (1 # 200) + (1 # 1000000000000)).
Proof.
  intros df. split.
  - unfold calculate_entry_exit_points, empty.
    destruct (Nat.eqb_spec (len df) 0) as [E|E].
    + tauto.
    + split; [discriminate|contradiction].
  - intros P Hne HP Hr.
    destruct (plan_four_levels df P Hne HP Hr)
      as (e & s & t1 & t2 & Hplan & He & Hs & Ht1 & Ht2).
    eexists. exists e, s, t1, t2.
    split; [exact Hplan|].
    cbn [entry_price stop_loss target1 target2 risk_reward_1 risk_reward_2].
    do 4 (split; [reflexivity|]).
    split; [apply Qabs_within; rewrite (Qmake_hundredths e); lra|].
    split; [apply Qabs_within; rewrite (Qmake_hundredths s); lra|].
    split; [apply Qabs_within; rewrite (Qmake_hundredths t1); lra|].
    split; [apply Qabs_within; rewrite (Qmake_hundredths t2); lra|].
    intros HP4.
    assert (Hr4 : (1 # 4) <= P <= 1000000000000) by lra.
    destruct (price_grid P Hr4) as (c & _ & Hc).
    destruct (plan_levels_apart P c e s t1 t2 Hr4 Hc He Hs Ht1 Ht2)
      as ((Hs1 & Hse & Hec & Hct & Htt & Hbig) & (C1 & C2 & C3)
          & (R1 & R2 & R3 & R4)).
    split; [exact Hse|].
    destruct (ratio_grid t1 e s) as (r1 & -> & _ & Hr1); try lia.
    destruct (ratio_grid t2 e s) as (r2 & -> & _ & Hr2); try lia.
    exists r1, r2. split; [reflexivity|]. split; [reflexivity|].
    split.
    + now rewrite (ratio_hundredths t1 e s Hse).
    + now rewrite (ratio_hundredths t2 e s Hse).
Qed.

Lemma planner_rejects_empty_series_only_witness :
  exists plan : EntryExit,
    calculate_entry_exit_points hundred = Some plan
    /\ entry_price plan = lit (9950 # 100)
    /\ stop_loss plan = lit (9500 # 100)
    /\ target1 plan = lit (11000 # 100)
    /\ target2 plan = lit (12000 # 100)
    /\ risk_reward_1 plan = lit (233 # 100)
    /\ risk_reward_2 plan = lit (456 # 100).
Proof.
  destruct (planner_rejects_empty_series_only hundred) as [_ H].
  destruct (H 100) as (plan & e & s & t1 & t2 & Hplan & _);
    [vm_compute; discriminate|reflexivity|split; [reflexivity|discriminate]|].
  exists plan. split; [exact Hplan|].
  vm_compute in Hplan. injection Hplan as <-.
  vm_compute. repeat split; reflexivity.
Defined.

(** The planner on a latest close of one hundredth: the four levels all
    round to 0.01, both ratios are the undefined outcome of [0/0], and the
    second is not above the first.  The claim C6 asks for a strict order at
    every positive price. *)
Lemma penny_ratios_not_ordered :
  exists P : Q,
    latest (Close penny) = Fin P
    /\ 0 < P
    /\ exists plan : EntryExit,
         calculate_entry_exit_points penny = Some plan
         /\ entry_price plan = stop_loss plan
         /\ fgtb (risk_reward_2 plan) (risk_reward_1 plan) = false.
Proof.
  eexists. split; [vm_compute; reflexivity|]. split; [reflexivity|].
  eexists. split; [vm_compute; reflexivity|]. split; reflexivity.
Qed.

(** C6, amended.  For every price from 0.25 to [10^12] the plan computed
    from it in binary64, with its levels and ratios rounded to two
    decimals, has its second risk/reward ratio strictly above the first. *)
Theorem risk_reward_2_above_1 :
  forall (df : DataFrame) (P : Q) (plan : EntryExit),
    latest (Close df) = Fin P ->
    (1 # 4) <= P <= 1000000000000 ->
    calculate_entry_exit_points df = Some plan ->
    fgtb (risk_reward_2 plan) (risk_reward_1 plan) = true.
Proof.
  intros df P plan HP Hr Hplan.
  assert (Hne : len df <> 0%nat).
  { intros E. unfold calculate_entry_exit_points in Hplan.
    rewrite (empty_true df E) in Hplan. discriminate. }
  destruct (plan_levels df P Hne HP Hr)
    as (c & e & s & t1 & t2 & Hplan' & Hc & He & Hs & Ht1 & Ht2).
  rewrite Hplan' in Hplan.
  apply (f_equal (fun o => match o with Some p => p | None => plan end)) in Hplan.
  subst plan. cbn [risk_reward_1 risk_reward_2].
  destruct (plan_levels_apart P c e s t1 t2 Hr Hc He Hs Ht1 Ht2)
    as ((Hs1 & Hse & Hec & Hct & Htt & Hbig) & (C1 & C2 & C3)
        & (R1 & R2 & R3 & R4)).
  destruct (ratio_grid t1 e s) as (r1 & -> & Hb1 & Hr1); try lia.
  destruct (ratio_grid t2 e s) as (r2 & -> & Hb2 & Hr2); try lia.
  unfold fgtb. apply lit_lt; try lia.
  apply Qabs_Qle_condition in Hr1, Hr2.
  rewrite (Qmake_hundredths r1) in Hr1. rewrite (Qmake_hundredths r2) in Hr2.
  assert (Hd : 0 < inject_Z (e - s)).
  { change 0 with (inject_Z 0). rewrite <- Zlt_Qlt. lia. }
  assert (Hgap : inject_Z (t1 - e) / inject_Z (e - s) + (1 # 50)
                 < inject_Z (t2 - e) / inject_Z (e - s)).
  { apply ratio_gap; [exact Hd|]. rewrite !inject_Z_sub. lra. }
  rewrite Zlt_Qlt. lra.
Qed.

Lemma risk_reward_2_above_1_witness :
  exists plan : EntryExit,
    calculate_entry_exit_points hundred = Some plan
    /\ fgtb (risk_reward_2 plan) (risk_reward_1 plan) = true.
Proof.
  destruct (calculate_entry_exit_points hundred) as [plan|] eqn:Hplan;
    [|vm_compute in Hplan; discriminate Hplan].
  exists plan. split; [reflexivity|].
  apply (risk_reward_2_above_1 hundred 100 plan).
  - reflexivity.
  - split; vm_compute; discriminate.
  - exact Hplan.
Defined.

(** ** The reference index *)

(** [Close.iloc[-5:]] is what the column has of its last five bars. *)
Lemma last_five (l : Series) :
  iloc_slice (-5) None l = skipn (length l - 5) l.
Proof.
  unfold iloc_slice, slice_bound.
  replace (Z.to_nat (Z.min (Z.max (if (-5 <? 0)%Z then -5 + Z.of_nat (length l)
                                   else -5) 0) (Z.of_nat (length l))))
    with (length l - 5)%nat by (cbn [Z.ltb Z.compare]; lia).
  apply firstn_all2. rewrite length_skipn. lia.
Qed.

Lemma close_column_nonempty (td : DataFrame) :
  Close td <> [] -> close_column td = Ok (Close td).
Proof.
  intros H. unfold close_column, empty, len.
  destruct (Close td); [contradiction|]. cbn [length Nat.eqb].
  now rewrite andb_false_r.
Qed.

Lemma tasi_condition_nonempty (td : DataFrame) :
  Close td <> [] ->
  tasi_condition td
  = Ok (fgtb (latest (Close td))
             (series_mean (skipn (length (Close td) - 5) (Close td)))).
Proof.
  intros H. unfold tasi_condition.
  rewrite (close_column_nonempty td H). cbn [bind].
  rewrite (latest_nonempty (Close td) H). cbn [bind].
  now rewrite last_five.
Qed.

(** An index without a bar makes the evaluation of a long enough series
    raise: [KeyError] when the frame has no column either, [IndexError]
    when it has its columns. *)
Lemma tasi_condition_empty (td : DataFrame) :
  Close td = [] ->
  tasi_condition td = Raise (if no_columns td then KeyError else IndexError).
Proof.
  intros H. unfold tasi_condition, close_column, empty, len. rewrite H.
  cbn [length Nat.eqb]. rewrite andb_true_r.
  destruct (no_columns td); reflexivity.
Qed.

(** An index of a single bar: both evaluators produce a result, with the
    index condition false.  The claim C2 asks for [None] on every index with
    fewer than five defined closes. *)
Lemma single_bar_index_is_scored :
  count_defined (Close tasi1) = 1%nat
  /\ (exists rh : StrategyResult,
        analyze_hawk_strategy stock200 tasi1 true = Ok (Some rh)
        /\ lookup "tasi" (conditions rh) = Some false)
  /\ (exists rq : StrategyResult,
        analyze_quick_strategy stock200 tasi1 = Ok (Some rq)
        /\ lookup "tasi" (conditions rq) = Some false).
Proof.
  split; [reflexivity|]. split.
  - eexists. split; [vm_compute; reflexivity|]. reflexivity.
  - eexists. split; [vm_compute; reflexivity|]. reflexivity.
Qed.

(** C2, amended.  The evaluators do not examine the length of the index
    series.  On a stock series of at least 200 bars carrying its indicator
    columns, and for every index series with at least one bar, both produce
    a result; its index condition compares the latest index close with the
    mean of the defined closes among the last five bars, or among all the
    bars when the index has fewer than five. *)
Theorem index_length_is_not_examined :
  forall (sd td : DataFrame) (st : bool),
    (200 <= len sd)%nat ->
    indicators sd <> None ->
    Close td <> [] ->
    let c_tasi :=
      fgtb (latest (Close td))
           (series_mean (skipn (length (Close td) - 5) (Close td))) in
    exists rh rq : StrategyResult,
      analyze_hawk_strategy sd td st = Ok (Some rh)
      /\ analyze_quick_strategy sd td = Ok (Some rq)
      /\ lookup "tasi" (conditions rh) = Some c_tasi
      /\ lookup "tasi" (conditions rq) = Some c_tasi.
Proof.
  intros sd td st Hlen Hind Htd c_tasi.
  unfold analyze_hawk_strategy, analyze_quick_strategy.
  rewrite (long_guard sd Hlen), (tasi_condition_nonempty td Htd).
  cbn [bind]. unfold indicator_columns.
  destruct (indicators sd) as [cols|]; [|contradiction].
  cbn [bind]. do 2 eexists.
  split; [reflexivity|]. split; [reflexivity|]. split; reflexivity.
Qed.

Lemma index_length_is_not_examined_witness :
  exists rh rq : StrategyResult,
    analyze_hawk_strategy stock200 tasi1 true = Ok (Some rh)
    /\ analyze_quick_strategy stock200 tasi1 = Ok (Some rq)
    /\ lookup "tasi" (conditions rh) = Some false
    /\ lookup "tasi" (conditions rq) = Some false.
Proof.
  destruct (index_length_is_not_examined stock200 tasi1 true)
    as (rh & rq & Hh & Hq & Ht & Ht').
  - apply Nat.leb_le. vm_compute. reflexivity.
  - vm_compute. discriminate.
  - discriminate.
  - exists rh, rq. repeat split; assumption.
Defined.

(* ================================================================== *)
(** * Further properties of the engine *)

(** ** Outcomes of the evaluators *)

Lemma hawk_cases (sd td : DataFrame) (st : bool) :
  ((len sd < 200)%nat -> analyze_hawk_strategy sd td st = Ok None)
  /\ ((200 <= len sd)%nat -> Close td = [] ->
      analyze_hawk_strategy sd td st
      = Raise (if no_columns td then KeyError else IndexError))
  /\ ((200 <= len sd)%nat -> Close td <> [] -> indicators sd = None ->
      analyze_hawk_strategy sd td st = Raise KeyError)
  /\ ((200 <= len sd)%nat -> Close td <> [] -> indicators sd <> None ->
      exists r, analyze_hawk_strategy sd td st = Ok (Some r)).
Proof.
  unfold analyze_hawk_strategy. repeat split.
  - intros H. now rewrite (short_guard sd H).
  - intros H E. now rewrite (long_guard sd H), (tasi_condition_empty td E).
  - intros H E N. rewrite (long_guard sd H), (tasi_condition_nonempty td E).
    unfold indicator_columns. now rewrite N.
  - intros H E N. rewrite (long_guard sd H), (tasi_condition_nonempty td E).
    unfold indicator_columns. destruct (indicators sd); [|contradiction].
    cbn [bind]. eexists. reflexivity.
Qed.

Lemma quick_cases (sd td : DataFrame) :
  ((len sd < 200)%nat -> analyze_quick_strategy sd td = Ok None)
  /\ ((200 <= len sd)%nat -> Close td = [] ->
      analyze_quick_strategy sd td
      = Raise (if no_columns td then KeyError else IndexError))
  /\ ((200 <= len sd)%nat -> Close td <> [] -> indicators sd = None ->
      analyze_quick_strategy sd td = Raise KeyError)
  /\ ((200 <= len sd)%nat -> Close td <> [] -> indicators sd <> None ->
      exists r, analyze_quick_strategy sd td = Ok (Some r)).
Proof.
  unfold analyze_quick_strategy. repeat split.
  - intros H. now rewrite (short_guard sd H).
  - intros H E. now rewrite (long_guard sd H), (tasi_condition_empty td E).
  - intros H E N. rewrite (long_guard sd H), (tasi_condition_nonempty td E).
    unfold indicator_columns. now rewrite N.
  - intros H E N. rewrite (long_guard sd H), (tasi_condition_nonempty td E).
    unfold indicator_columns. destruct (indicators sd); [|contradiction].
    cbn [bind]. eexists. reflexivity.
Qed.

Lemma nil_or_not (l : Series) : l = [] \/ l <> [].
Proof. destruct l; [now left|right; discriminate]. Qed.

Lemma none_or_not (o : option IndicatorColumns) : o = None \/ o <> None.
Proof. destruct o; [right; discriminate|now left]. Qed.

(** X1.  The outcomes of an evaluation, for Hawk and Quick alike: [None]
    exactly on fewer than 200 bars, whatever the index and the columns;
    otherwise, on an index without a bar, [IndexError] when the index
    frame has its columns and [KeyError] when it is [pd.DataFrame()];
    otherwise [KeyError] exactly when the indicator columns were never
    attached; a result in the remaining case.  No other exception is
    raised. *)
Theorem evaluator_outcomes :
  forall (sd td : DataFrame) (st : bool),
    let outcome (o : result (option StrategyResult)) : Prop :=
      (o = Ok None <-> (len sd < 200)%nat)
      /\ (o = Raise IndexError <->
          (200 <= len sd)%nat /\ Close td = [] /\ no_columns td = false)
      /\ (o = Raise KeyError <->
          (200 <= len sd)%nat
          /\ ((Close td = [] /\ no_columns td = true)
              \/ (Close td <> [] /\ indicators sd = None)))
      /\ ((exists r, o = Ok (Some r)) <->
          (200 <= len sd)%nat /\ Close td <> [] /\ indicators sd <> None)
      /\ o <> Raise ValueError /\ o <> Raise OverflowError in
    outcome (analyze_hawk_strategy sd td st)
    /\ outcome (analyze_quick_strategy sd td).
Proof.
  intros sd td st outcome. subst outcome. cbv beta.
  destruct (hawk_cases sd td st) as (H1 & H2 & H3 & H4).
  destruct (quick_cases sd td) as (Q1 & Q2 & Q3 & Q4).
  destruct (Nat.lt_ge_cases (len sd) 200) as [Hs|Hl].
  - rewrite (H1 Hs), (Q1 Hs).
    split; repeat split; intros; try discriminate; try lia;
      try (match goal with H : exists _, _ |- _ => destruct H; discriminate end);
      try (destruct H as [H _]; lia).
  - destruct (nil_or_not (Close td)) as [E|E].
    + rewrite (H2 Hl E), (Q2 Hl E).
      destruct (no_columns td) eqn:N.
      * split; repeat split; intros; try discriminate; try lia; try assumption;
          try (match goal with H : exists _, _ |- _ => destruct H; discriminate end);
          try (destruct H as (_ & _ & H); discriminate);
          try (destruct H as (_ & H & _); contradiction);
          try (left; split; [assumption|reflexivity]).
      * split; repeat split; intros; try discriminate; try lia; try assumption;
          try (match goal with H : exists _, _ |- _ => destruct H; discriminate end);
          try (destruct H as (_ & H & _); contradiction);
          try (destruct H as (_ & [(_ & H)|(H & _)]);
               [discriminate|contradiction]).
    + destruct (none_or_not (indicators sd)) as [N|N].
      * rewrite (H3 Hl E N), (Q3 Hl E N).
        split; repeat split; intros; try discriminate; try lia; try assumption;
          try (match goal with H : exists _, _ |- _ => destruct H; discriminate end);
          try (destruct H as (_ & H & _); contradiction);
          try (destruct H as (_ & _ & H); contradiction);
          try (right; split; assumption).
      * destruct (H4 Hl E N) as [rh Hh]. destruct (Q4 Hl E N) as [rq Hq].
        rewrite Hh, Hq.
        split; repeat split; intros; try discriminate; try lia; try assumption;
          try (eexists; reflexivity);
          try (destruct H as (_ & H & _); contradiction);
          try (destruct H as (_ & [(H & _)|(_ & H)]); contradiction).
Qed.

(** The index frame of a failed download: the evaluation of a long enough
    series raises [KeyError]. *)
Example evaluation_without_index :
  analyze_hawk_strategy stock200 no_data true = Raise KeyError
  /\ analyze_quick_strategy stock200 no_data = Raise KeyError.
Proof. split; vm_compute; reflexivity. Qed.

(** ** Hawk against Quick *)

Lemma hawk_conditions (sd td : DataFrame) (st : bool) (r : StrategyResult) :
  analyze_hawk_strategy sd td st = Ok (Some r) ->
  exists (cols : IndicatorColumns) (c_tasi : bool),
    indicators sd = Some cols
    /\ tasi_condition td = Ok c_tasi
    /\ conditions r =
       [ ("tasi", c_tasi);
         ("sector", st);
         ("obv", fgtb (latest (OBV cols))
                      (series_mean (iloc_slice (-20) None (OBV cols))));
         ("volume", fgtb (latest (Volume sd))
                         (fmul (latest (Volume_MA20 cols)) (of_Z 2)));
         ("breakout", breakout_condition sd);
         ("ma", fgtb (latest (Close sd)) (latest (MA50 cols)));
         ("rsi", fltb (of_Z 50) (latest (RSI cols))
                 && fltb (latest (RSI cols)) (of_Z 70));
         ("macd", fgtb (latest (MACD cols)) (latest (Signal_Line cols))
                  && fgtb (latest (MACD cols)) fzero);
         ("bollinger", fgtb (latest (Close sd)) (latest (Upper_Band cols))) ]%string.
Proof.
  unfold analyze_hawk_strategy.
  destruct (empty sd || (len sd <? 200)%nat); [discriminate|].
  destruct (tasi_condition td) as [c_tasi|e]; [|discriminate].
  cbn [bind]. unfold indicator_columns.
  destruct (indicators sd) as [cols|]; [|discriminate].
  cbn [bind]. intros H.
  apply (f_equal (fun o => match o with Ok (Some x) => conditions x | _ => [] end)) in H.
  cbn [conditions] in H. exists cols, c_tasi. repeat split. now symmetry.
Qed.

Lemma quick_conditions (sd td : DataFrame) (r : StrategyResult) :
  analyze_quick_strategy sd td = Ok (Some r) ->
  exists (cols : IndicatorColumns) (c_tasi : bool),
    indicators sd = Some cols
    /\ tasi_condition td = Ok c_tasi
    /\ conditions r =
       [ ("tasi", c_tasi);
         ("volume", fgtb (latest (Volume sd))
                         (fmul (latest (Volume_MA20 cols)) (Fin (3 # 2))));
         ("breakout", breakout_condition sd);
         ("ma20", fgtb (latest (Close sd)) (latest (MA20 cols)));
         ("ma50", fgtb (latest (Close sd)) (latest (MA50 cols)));
         ("rsi", fltb (of_Z 45) (latest (RSI cols))
                 && fltb (latest (RSI cols)) (of_Z 75));
         ("macd", fgtb (latest (MACD cols)) (latest (Signal_Line cols)));
         ("bollinger", fgtb (latest (Close sd)) (latest (BB_Middle cols))) ]%string.
Proof.
  unfold analyze_quick_strategy.
  destruct (empty sd || (len sd <? 200)%nat); [discriminate|].
  destruct (tasi_condition td) as [c_tasi|e]; [|discriminate].
  cbn [bind]. unfold indicator_columns.
  destruct (indicators sd) as [cols|]; [|discriminate].
  cbn [bind]. intros H.
  apply (f_equal (fun o => match o with Ok (Some x) => conditions x | _ => [] end)) in H.
  cbn [conditions] in H. exists cols, c_tasi. repeat split. now symmetry.
Qed.

Lemma rsi_band_wider (r : float) :
  fltb (of_Z 50) r && fltb r (of_Z 70) = true ->
  fltb (of_Z 45) r && fltb r (of_Z 75) = true.
Proof.
  rewrite !andb_true_iff. unfold of_Z.
  destruct r as [q| | |]; try (cbn [fltb]; intros [? ?]; discriminate).
  rewrite !fltb_Fin. change (inject_Z 50) with 50. change (inject_Z 70) with 70.
  change (inject_Z 45) with 45. change (inject_Z 75) with 75. intros [? ?].
  split; lra.
Qed.

Lemma volume_threshold_lower (v vma : float) :
  fltb vma fzero = false ->
  fgtb v (fmul vma (of_Z 2)) = true ->
  fgtb v (fmul vma (Fin (3 # 2))) = true.
Proof.
  unfold fgtb, of_Z, fzero. intros Hn.
  destruct vma as [a| | |]; try discriminate.
  - apply fltb_Fin_false in Hn. cbn [fmul].
    destruct v as [b| | |]; try (cbn [fltb]; congruence).
    rewrite !fltb_Fin, !Qred_correct. change (inject_Z 2) with 2. intros H. lra.
  - destruct v; cbn; congruence.
Qed.

Lemma sum_values_all (c : Conditions) :
  sum_values c = length c -> Forall (fun kv => snd kv = true) c.
Proof.
  induction c as [|[k v] c IH]; [constructor|].
  rewrite sum_values_cons. cbn [length]. intros H.
  pose proof (sum_values_le c) as Hle.
  destruct v; [|lia].
  constructor; [reflexivity|]. apply IH. lia.
Qed.

(** X2.  Hawk is the stricter strategy.  Evaluated on the same frames, the
    index and breakout conditions of the two results agree, Hawk's [ma] is
    Quick's [ma50], and Hawk's [rsi] and [macd] conditions imply Quick's.
    When the latest 20-bar volume average is not negative, Hawk's [volume]
    implies Quick's as well, and a Hawk [buy] comes with a Quick signal
    that is [buy] or [promising]. *)
Theorem hawk_stricter_than_quick :
  forall (sd td : DataFrame) (st : bool) (rh rq : StrategyResult)
         (cols : IndicatorColumns),
    analyze_hawk_strategy sd td st = Ok (Some rh) ->
    analyze_quick_strategy sd td = Ok (Some rq) ->
    indicators sd = Some cols ->
    lookup "tasi" (conditions rh) = lookup "tasi" (conditions rq)
    /\ lookup "breakout" (conditions rh) = lookup "breakout" (conditions rq)
    /\ lookup "ma" (conditions rh) = lookup "ma50" (conditions rq)
    /\ (lookup "rsi" (conditions rh) = Some true ->
        lookup "rsi" (conditions rq) = Some true)
    /\ (lookup "macd" (conditions rh) = Some true ->
        lookup "macd" (conditions rq) = Some true)
    /\ (fltb (latest (Volume_MA20 cols)) fzero = false ->
        (lookup "volume" (conditions rh) = Some true ->
         lookup "volume" (conditions rq) = Some true)
        /\ (signal rh = buy -> signal rq = buy \/ signal rq = promising)).
Proof.
  intros sd td st rh rq cols Hh Hq Hcols.
  destruct (hawk_conditions sd td st rh Hh) as (c1 & t1 & Hc1 & Ht1 & Ch).
  destruct (quick_conditions sd td rq Hq) as (c2 & t2 & Hc2 & Ht2 & Cq).
  rewrite Hcols in Hc1, Hc2.
  injection Hc1 as <-. injection Hc2 as <-.
  rewrite Ht1 in Ht2. injection Ht2 as <-.
  destruct (hawk_result_inv sd td st rh Hh) as (_ & Hlen & Hmet & _ & Hsig & _).
  destruct (quick_result_inv sd td rq Hq) as (_ & _ & Hmet' & _ & Hsig' & _).
  rewrite Ch, Cq. cbn [lookup String.eqb Ascii.eqb Bool.eqb].
  do 3 (split; [reflexivity|]).
  split; [|split; [|intros Hvma; split; revert Hvma]].
  - intros H. injection H as H. now rewrite (rsi_band_wider _ H).
  - intros H. injection H as H. apply andb_true_iff in H.
    destruct H as [H _]. now rewrite H.
  - intros Hvma H. injection H as H.
    now rewrite (volume_threshold_lower _ _ Hvma H).
  - intros Hvma Hbuy. rewrite Hsig in Hbuy.
    apply (proj1 (signal_of_spec (conditions_met rh) 9 7 ltac:(lia))) in Hbuy.
    rewrite Hmet, <- Hlen in Hbuy.
    apply sum_values_all in Hbuy. rewrite Ch in Hbuy.
    repeat match goal with
           | H : Forall _ (_ :: _) |- _ => inversion H; clear H; subst
           end.
    cbn [snd] in *.
    assert (Hm : (6 <= conditions_met rq)%nat).
    { rewrite Hmet', Cq. rewrite !sum_values_cons.
      rewrite volume_threshold_lower by assumption.
      rewrite rsi_band_wider by assumption.
      match goal with
      | H : _ && _ = true |- _ => apply andb_true_iff in H; destruct H as [Hm1 _]
      end.
      repeat match goal with
             | H : ?b = true |- context [?b] => rewrite H
             end.
      lia. }
    rewrite Hsig'. unfold signal_of.
    destruct (conditions_met rq =? 8)%nat; [now left|].
    right. destruct (Nat.leb_spec 6 (conditions_met rq)); [reflexivity|lia].
Qed.

Lemma hawk_stricter_than_quick_witness :
  exists rh rq : StrategyResult,
    analyze_hawk_strategy stock200 tasi6 true = Ok (Some rh)
    /\ analyze_quick_strategy stock200 tasi6 = Ok (Some rq)
    /\ lookup "tasi" (conditions rh) = lookup "tasi" (conditions rq)
    /\ lookup "ma" (conditions rh) = lookup "ma50" (conditions rq)
    /\ (lookup "rsi" (conditions rh) = Some true ->
        lookup "rsi" (conditions rq) = Some true).
Proof.
  destruct (analyze_hawk_strategy stock200 tasi6 true) as [[rh|]|e] eqn:Hh;
    [|vm_compute in Hh; discriminate Hh|vm_compute in Hh; discriminate Hh].
  destruct (analyze_quick_strategy stock200 tasi6) as [[rq|]|e] eqn:Hq;
    [|vm_compute in Hq; discriminate Hq|vm_compute in Hq; discriminate Hq].
  destruct (indicators stock200) as [cols|] eqn:Hc;
    [|vm_compute in Hc; discriminate Hc].
  exists rh, rq.
  destruct (hawk_stricter_than_quick stock200 tasi6 true rh rq cols Hh Hq Hc)
    as (H1 & _ & H3 & H4 & _).
  repeat split; assumption.
Defined.

(** ** Percentages *)

Lemma hawk_scored (sd td : DataFrame) (st : bool) (r : StrategyResult) :
  analyze_hawk_strategy sd td st = Ok (Some r) -> scored 9 7 r.
Proof.
  intros H.
  destruct (hawk_result_inv sd td st r H) as (_ & Hlen & Hmet & Htot & Hsig & _).
  unfold scored. repeat split; try assumption.
  - pose proof (sum_values_le (conditions r)). lia.
  - revert H. unfold analyze_hawk_strategy.
    destruct (empty sd || (len sd <? 200)%nat); [discriminate|].
    destruct (tasi_condition td); [|discriminate]. cbn [bind].
    destruct (indicator_columns sd); [|discriminate]. cbn [bind].
    intros H. injection H as <-. reflexivity.
Qed.

Lemma quick_scored (sd td : DataFrame) (r : StrategyResult) :
  analyze_quick_strategy sd td = Ok (Some r) -> scored 8 6 r.
Proof.
  intros H.
  destruct (quick_result_inv sd td r H) as (_ & Hlen & Hmet & Htot & Hsig & _).
  unfold scored. repeat split; try assumption.
  - pose proof (sum_values_le (conditions r)). lia.
  - revert H. unfold analyze_quick_strategy.
    destruct (empty sd || (len sd <? 200)%nat); [discriminate|].
    destruct (tasi_condition td); [|discriminate]. cbn [bind].
    destruct (indicator_columns sd); [|discriminate]. cbn [bind].
    intros H. injection H as <-. reflexivity.
Qed.

Lemma percentage_compare (total m n : nat) :
  total = 9%nat \/ total = 8%nat ->
  (m <= total)%nat -> (n <= total)%nat ->
  Qcompare (percentage_of m total) (percentage_of n total) = Nat.compare m n.
Proof.
  intros Ht Hm Hn.
  assert (Hall :
    forallb (fun t =>
      forallb (fun a =>
        forallb (fun b =>
          match Qcompare (percentage_of a t) (percentage_of b t),
                Nat.compare a b with
          | Eq, Eq | Lt, Lt | Gt, Gt => true
          | _, _ => false
          end) (seq 0 10)) (seq 0 10)) [9%nat; 8%nat] = true)
    by (vm_compute; reflexivity).
  rewrite forallb_forall in Hall.
  assert (Hin : In total [9%nat; 8%nat])
    by (destruct Ht as [-> | ->]; cbn; auto).
  specialize (Hall total Hin). rewrite forallb_forall in Hall.
  specialize (Hall m). rewrite in_seq, forallb_forall in Hall.
  specialize (Hall ltac:(lia) n). rewrite in_seq in Hall.
  specialize (Hall ltac:(lia)).
  destruct (Qcompare (percentage_of m total) (percentage_of n total)),
           (Nat.compare m n); first [reflexivity|discriminate].
Qed.

Lemma percentage_full (total : nat) :
  total = 9%nat \/ total = 8%nat -> percentage_of total total == 100.
Proof. intros [->| ->]; vm_compute; reflexivity. Qed.

Lemma percentage_none (total : nat) :
  total = 9%nat \/ total = 8%nat -> percentage_of 0 total == 0.
Proof. intros [->| ->]; vm_compute; reflexivity. Qed.

(** The percentage of a result orders results as their score does. *)
Lemma scored_percentage (total from : nat) (a b : StrategyResult) :
  total = 9%nat \/ total = 8%nat -> (from <= total)%nat ->
  scored total from a -> scored total from b ->
  0 <= percentage a <= 100
  /\ (percentage a == 100 <-> signal a = buy)
  /\ (percentage a < percentage b <-> (conditions_met a < conditions_met b)%nat)
  /\ (percentage a == percentage b <-> conditions_met a = conditions_met b).
Proof.
  intros Ht Hf (Ha & _ & Pa & Sa) (Hb & _ & Pb & Sb).
  rewrite Pa, Pb, Sa.
  pose proof (percentage_compare total (conditions_met a) (conditions_met b)
                Ht Ha Hb) as Cab.
  pose proof (percentage_compare total (conditions_met a) total
                Ht Ha (Nat.le_refl _)) as Cfull.
  pose proof (percentage_compare total 0 (conditions_met a)
                Ht (Nat.le_0_l _) Ha) as Czero.
  pose proof (percentage_full total Ht) as Efull.
  pose proof (percentage_none total Ht) as Ezero.
  destruct (signal_of_spec (conditions_met a) total from Hf) as (Hbuy & _).
  repeat split.
  - destruct (Nat.compare_spec 0 (conditions_met a)) as [E|L|G]; [| |lia].
    + apply (proj1 (Qcompare_Eq_iff _ _)) in Czero. lra.
    + apply (proj1 (Qcompare_Lt_iff _ _)) in Czero. lra.
  - destruct (Nat.compare_spec (conditions_met a) total) as [E|L|G]; [| |lia].
    + apply (proj1 (Qcompare_Eq_iff _ _)) in Cfull. lra.
    + apply (proj1 (Qcompare_Lt_iff _ _)) in Cfull. lra.
  - intros H. apply Hbuy.
    destruct (Nat.compare_spec (conditions_met a) total) as [E|L|G];
      [exact E| |lia].
    apply (proj1 (Qcompare_Lt_iff _ _)) in Cfull. lra.
  - intros H. apply Hbuy in H. rewrite H. exact Efull.
  - intros H. apply Qcompare_Lt_iff in H. rewrite Cab in H.
    now apply Nat.compare_lt_iff.
  - intros H. apply Nat.compare_lt_iff in H. rewrite H in Cab.
    now apply Qcompare_Lt_iff.
  - intros H. apply Qcompare_Eq_iff in H. rewrite Cab in H.
    now apply Nat.compare_eq_iff.
  - intros H. apply Nat.compare_eq_iff in H. rewrite H in Cab.
    now apply Qcompare_Eq_iff.
Qed.

(** X3.  The percentage of a result lies in [0, 100], it is 100 exactly
    for a [buy], and between two results of the same strategy it compares
    as the numbers of conditions met do: ranking by percentage is ranking
    by score. *)
Theorem percentage_orders_like_score :
  forall (sd td sd' td' : DataFrame) (st st' : bool) (a b : StrategyResult),
    (analyze_hawk_strategy sd td st = Ok (Some a)
     /\ analyze_hawk_strategy sd' td' st' = Ok (Some b))
    \/ (analyze_quick_strategy sd td = Ok (Some a)
        /\ analyze_quick_strategy sd' td' = Ok (Some b)) ->
    0 <= percentage a <= 100
    /\ (percentage a == 100 <-> signal a = buy)
    /\ (percentage a < percentage b <->
        (conditions_met a < conditions_met b)%nat)
    /\ (percentage a == percentage b <-> conditions_met a = conditions_met b).
Proof.
  intros sd td sd' td' st st' a b [[Ha Hb]|[Ha Hb]].
  - apply (scored_percentage 9 7); [now left|lia| |].
    + exact (hawk_scored sd td st a Ha).
    + exact (hawk_scored sd' td' st' b Hb).
  - apply (scored_percentage 8 6); [now right|lia| |].
    + exact (quick_scored sd td a Ha).
    + exact (quick_scored sd' td' b Hb).
Qed.

Lemma percentage_orders_like_score_witness :
  exists a b : StrategyResult,
    analyze_hawk_strategy stock200 tasi6 true = Ok (Some a)
    /\ analyze_hawk_strategy stock200 tasi1 true = Ok (Some b)
    /\ 0 <= percentage a <= 100
    /\ (percentage b < percentage a <->
        (conditions_met b < conditions_met a)%nat).
Proof.
  destruct (analyze_hawk_strategy stock200 tasi6 true) as [[a|]|e] eqn:Ha;
    [|vm_compute in Ha; discriminate Ha|vm_compute in Ha; discriminate Ha].
  destruct (analyze_hawk_strategy stock200 tasi1 true) as [[b|]|e] eqn:Hb;
    [|vm_compute in Hb; discriminate Hb|vm_compute in Hb; discriminate Hb].
  exists a, b. split; [reflexivity|]. split; [reflexivity|].
  destruct (percentage_orders_like_score stock200 tasi6 stock200 tasi1
              true true a b (or_introl (conj Ha Hb))) as (H1 & _).
  destruct (percentage_orders_like_score stock200 tasi1 stock200 tasi6
              true true b a (or_introl (conj Hb Ha))) as (_ & _ & H3 & _).
  split; assumption.
Defined.

(** ** Shape of the indicator columns *)

Lemma rolling_length (w : nat) (agg : Series -> float) (l : Series) :
  length (rolling w agg l) = length l.
Proof. unfold rolling. now rewrite length_map, length_seq. Qed.

Lemma ewm_from_length (alpha : float) (l : Series) :
  forall weighted old_wt : float,
    length (ewm_from alpha weighted old_wt l) = length l.
Proof.
  induction l as [|x l IH]; intros weighted old_wt; [reflexivity|].
  cbn [ewm_from]. destruct (is_nan weighted).
  - cbn [length]. now rewrite IH.
  - destruct (is_nan x); cbn [length]; now rewrite IH.
Qed.

Lemma ewm_mean_length (span : Z) (l : Series) :
  length (ewm_mean span l) = length l.
Proof.
  destruct l as [|x l]; [reflexivity|].
  cbn [ewm_mean length]. now rewrite ewm_from_length.
Qed.

Lemma cumsum_from_length (l : Series) :
  forall acc : float, length (cumsum_from acc l) = length l.
Proof.
  induction l as [|x l IH]; intros acc; [reflexivity|].
  cbn [cumsum_from]. destruct (is_nan x); cbn [length]; now rewrite IH.
Qed.

Lemma obv_column_length (close vol : Series) :
  length (obv_column close vol) = Nat.min (length close) (length vol).
Proof.
  unfold obv_column, cumsum, fillna, s_mul.
  now rewrite cumsum_from_length, length_map, map2_length, length_map, diff_length.
Qed.

(** The columns attached to a frame of at least 200 bars. *)
Lemma calculate_indicators_long (fsqrt : float -> float) (df : DataFrame) :
  (200 <= len df)%nat ->
  indicators (calculate_indicators fsqrt df)
  = Some {| MA20 := rolling_mean 20 (Close df);
            MA50 := rolling_mean 50 (Close df);
            MA100 := rolling_mean 100 (Close df);
            MA200 := rolling_mean 200 (Close df);
            RSI := rsi_column (Close df);
            MACD := s_sub (ewm_mean 12 (Close df)) (ewm_mean 26 (Close df));
            Signal_Line :=
              ewm_mean 9 (s_sub (ewm_mean 12 (Close df)) (ewm_mean 26 (Close df)));
            BB_Middle := rolling_mean 20 (Close df);
            Upper_Band :=
              s_add (rolling_mean 20 (Close df))
                    (s_scale (of_Z 2) (rolling_std fsqrt 20 (Close df)));
            Lower_Band :=
              s_sub (rolling_mean 20 (Close df))
                    (s_scale (of_Z 2) (rolling_std fsqrt 20 (Close df)));
            OBV := obv_column (Close df) (Volume df);
            Volume_MA20 := rolling_mean 20 (Volume df) |}.
Proof.
  intros H. unfold calculate_indicators. now rewrite (long_guard df H).
Qed.

(** X4.  The indicator columns are attached positionally: on a frame of at
    least 200 bars whose volume column is as long as the frame, each of the
    twelve columns has one entry per bar. *)
Theorem indicator_columns_positional :
  forall (fsqrt : float -> float) (df : DataFrame) (cols : IndicatorColumns),
    (200 <= len df)%nat ->
    length (Volume df) = len df ->
    indicators (calculate_indicators fsqrt df) = Some cols ->
    Forall (fun column => length column = len df)
      [ MA20 cols; MA50 cols; MA100 cols; MA200 cols; RSI cols; MACD cols;
        Signal_Line cols; BB_Middle cols; Upper_Band cols; Lower_Band cols;
        OBV cols; Volume_MA20 cols ].
Proof.
  intros fsqrt df cols Hlen Hvol Hcols.
  rewrite (calculate_indicators_long fsqrt df Hlen) in Hcols.
  apply (f_equal (fun o => match o with Some c => c | None => cols end)) in Hcols.
  subst cols.
  cbn [MA20 MA50 MA100 MA200 RSI MACD Signal_Line BB_Middle Upper_Band
       Lower_Band OBV Volume_MA20].
  unfold rolling_mean, rolling_std, s_sub, s_add, s_scale, len in *.
  repeat constructor;
    rewrite ?ewm_mean_length, ?map2_length, ?length_map, ?rolling_length,
            ?ewm_mean_length, ?rsi_column_length, ?obv_column_length,
            ?rolling_length, ?Hvol;
    lia.
Qed.

Lemma indicator_columns_positional_witness :
  exists cols : IndicatorColumns,
    indicators (calculate_indicators sqrt_micro bars200) = Some cols
    /\ length (RSI cols) = 200%nat
    /\ length (Signal_Line cols) = 200%nat
    /\ length (OBV cols) = 200%nat.
Proof.
  destruct (indicators (calculate_indicators sqrt_micro bars200))
    as [cols|] eqn:Hcols; [|vm_compute in Hcols; discriminate Hcols].
  exists cols. split; [reflexivity|].
  assert (Hlen : (200 <= len bars200)%nat)
    by (apply Nat.leb_le; vm_compute; reflexivity).
  assert (Hvol : length (Volume bars200) = len bars200)
    by (vm_compute; reflexivity).
  pose proof (indicator_columns_positional sqrt_micro bars200 cols
                Hlen Hvol Hcols) as H.
  assert (Hn : len bars200 = 200%nat) by (vm_compute; reflexivity).
  rewrite Hn in H.
  repeat match goal with
         | H : Forall _ (_ :: _) |- _ =>
             let a := fresh "Ha" in
             let b := fresh "Hb" in
             apply Forall_cons_iff in H; destruct H as [a b]
         end.
  repeat split; assumption.
Defined.

Lemma rolling_warm_up (w : nat) (agg : Series -> float) (l : Series) (i : nat) :
  (i + 1 < w)%nat -> nth i (rolling w agg l) NaN = NaN.
Proof.
  intros H. unfold rolling.
  destruct (Nat.lt_ge_cases i (length l)) as [Hi|Hi].
  - rewrite nth_map_seq by exact Hi. unfold rolling_at.
    destruct (Nat.ltb_spec (i + 1) w); [reflexivity|lia].
  - apply nth_overflow. now rewrite length_map, length_seq.
Qed.

Lemma map2_nth (f : float -> float -> float) (l1 : Series) :
  forall (l2 : Series) (i : nat),
    (i < length l1)%nat -> (i < length l2)%nat ->
    nth i (map2 f l1 l2) NaN = f (nth i l1 NaN) (nth i l2 NaN).
Proof.
  induction l1 as [|x l1 IH]; intros l2 i H1 H2; [cbn in H1; lia|].
  destruct l2 as [|y l2]; [cbn in H2; lia|].
  destruct i as [|i]; [reflexivity|].
  cbn [map2 nth]. cbn [length] in H1, H2. apply IH; lia.
Qed.

(** X5.  Every windowed indicator is undefined while its window is not
    full: on a frame of at least 200 bars, the 20-bar averages of close and
    volume and the Bollinger bands are undefined on the first 19 bars, the
    50-, 100- and 200-bar averages on the first 49, 99 and 199 bars, and the
    RSI on the first 13 bars. *)
Theorem indicators_undefined_during_warm_up :
  forall (fsqrt : float -> float) (df : DataFrame) (cols : IndicatorColumns)
         (i : nat),
    (200 <= len df)%nat ->
    indicators (calculate_indicators fsqrt df) = Some cols ->
    ((i + 1 < 14)%nat -> nth i (RSI cols) NaN = NaN)
    /\ ((i + 1 < 20)%nat ->
        nth i (MA20 cols) NaN = NaN
        /\ nth i (BB_Middle cols) NaN = NaN
        /\ nth i (Upper_Band cols) NaN = NaN
        /\ nth i (Lower_Band cols) NaN = NaN
        /\ nth i (Volume_MA20 cols) NaN = NaN)
    /\ ((i + 1 < 50)%nat -> nth i (MA50 cols) NaN = NaN)
    /\ ((i + 1 < 100)%nat -> nth i (MA100 cols) NaN = NaN)
    /\ ((i + 1 < 200)%nat -> nth i (MA200 cols) NaN = NaN).
Proof.
  intros fsqrt df cols i Hlen Hcols.
  rewrite (calculate_indicators_long fsqrt df Hlen) in Hcols.
  apply (f_equal (fun o => match o with Some c => c | None => cols end)) in Hcols.
  subst cols.
  cbn [MA20 MA50 MA100 MA200 RSI BB_Middle Upper_Band Lower_Band Volume_MA20].
  unfold len in Hlen.
  split; [|split; [|split; [|split]]].
  - intros Hi. rewrite rsi_column_seq, nth_map_seq by lia.
    unfold rolling_at. destruct (Nat.ltb_spec (i + 1) 14); [reflexivity|lia].
  - intros Hi.
    assert (Hm : nth i (rolling_mean 20 (Close df)) NaN = NaN)
      by now apply rolling_warm_up.
    repeat split; try exact Hm.
    + unfold s_add. rewrite map2_nth, Hm; [reflexivity| |].
      * unfold rolling_mean. rewrite rolling_length. lia.
      * unfold s_scale, rolling_std. rewrite length_map, rolling_length. lia.
    + unfold s_sub. rewrite map2_nth, Hm; [reflexivity| |].
      * unfold rolling_mean. rewrite rolling_length. lia.
      * unfold s_scale, rolling_std. rewrite length_map, rolling_length. lia.
    + now apply rolling_warm_up.
  - intros Hi. now apply rolling_warm_up.
  - intros Hi. now apply rolling_warm_up.
  - intros Hi. now apply rolling_warm_up.
Qed.

Lemma indicators_undefined_during_warm_up_witness :
  exists cols : IndicatorColumns,
    indicators (calculate_indicators sqrt_micro bars200) = Some cols
    /\ nth 12 (RSI cols) NaN = NaN
    /\ nth 198 (MA200 cols) NaN = NaN.
Proof.
  destruct (indicators (calculate_indicators sqrt_micro bars200))
    as [cols|] eqn:Hcols; [|vm_compute in Hcols; discriminate Hcols].
  exists cols. split; [reflexivity|].
  assert (Hlen : (200 <= len bars200)%nat)
    by (apply Nat.leb_le; vm_compute; reflexivity).
  destruct (indicators_undefined_during_warm_up sqrt_micro bars200 cols 12
              Hlen Hcols) as (H1 & _).
  destruct (indicators_undefined_during_warm_up sqrt_micro bars200 cols 198
              Hlen Hcols) as (_ & _ & _ & _ & H5).
  split; [apply H1|apply H5]; lia.
Defined.

(** ** Moving averages *)

Lemma fold_fadd_Fin (qs : list Q) :
  forall a : Q,
    exists s : Q,
      fold_left fadd (map Fin qs) (Fin a) = Fin s /\ s == a + Qsum qs.
Proof.
  induction qs as [|q qs IH]; intros a.
  - exists a. split; [reflexivity|]. cbn. lra.
  - cbn [map fold_left fadd].
    destruct (IH (Qred (a + q))) as (s & Hs & Es).
    exists s. split; [exact Hs|].
    rewrite Es, Qred_correct. cbn [Qsum fold_right]. fold (Qsum qs). lra.
Qed.

Lemma existsb_nan_Fin (qs : list Q) : existsb is_nan (map Fin qs) = false.
Proof. induction qs as [|q qs IH]; [reflexivity|]. cbn. exact IH. Qed.

(** The mean of a non-empty window of finite values. *)
Lemma mean_of_Fin (qs : list Q) :
  (0 < length qs)%nat ->
  exists m : Q,
    mean_of (map Fin qs) = Fin m
    /\ m == Qsum qs / inject_Z (Z.of_nat (length qs)).
Proof.
  intros Hlen. unfold mean_of, fsum, fzero.
  destruct (fold_fadd_Fin qs 0) as (s & -> & Es).
  rewrite length_map. unfold of_Z.
  assert (Hn : 0 < inject_Z (Z.of_nat (length qs))).
  { change 0 with (inject_Z 0). rewrite <- Zlt_Qlt. lia. }
  rewrite (fdiv_pos s _ Hn). eexists. split; [reflexivity|].
  rewrite Qred_correct, Es. field. lra.
Qed.

Lemma window_at_last (w : nat) (qs : list Q) :
  (0 < w <= length qs)%nat ->
  window_at w (length qs - 1) (map Fin qs) = map Fin (last_n w qs).
Proof.
  intros H. unfold window_at, last_n.
  replace (length qs - 1 + 1 - w)%nat with (length qs - w)%nat by lia.
  rewrite skipn_map. apply firstn_all2.
  rewrite length_map, length_skipn. lia.
Qed.

Lemma last_n_length (w : nat) (qs : list Q) :
  (w <= length qs)%nat -> length (last_n w qs) = w.
Proof. intros H. unfold last_n. rewrite length_skipn. lia. Qed.

Lemma rolling_mean_latest (w : nat) (qs : list Q) :
  (0 < w <= length qs)%nat ->
  exists m : Q,
    latest (rolling_mean w (map Fin qs)) = Fin m
    /\ m == Qsum (last_n w qs) / inject_Z (Z.of_nat w).
Proof.
  intros H. rewrite latest_nth. unfold rolling_mean.
  rewrite rolling_length, length_map. unfold rolling.
  rewrite length_map, nth_map_seq by lia.
  unfold rolling_at.
  destruct (Nat.ltb_spec (length qs - 1 + 1) w) as [Hlt|_]; [lia|].
  cbv zeta. rewrite (window_at_last w qs H), existsb_nan_Fin.
  destruct (mean_of_Fin (last_n w qs)) as (m & Hm & Em).
  - rewrite last_n_length; lia.
  - exists m. split; [exact Hm|].
    rewrite Em, last_n_length by lia. reflexivity.
Qed.

(** X6.  On a frame of at least 200 bars with finite closes, each moving
    average of the latest bar is defined and is the arithmetic mean of the
    last 20, 50, 100 or 200 closes. *)
Theorem moving_averages_of_latest_bar :
  forall (fsqrt : float -> float) (df : DataFrame) (cols : IndicatorColumns)
         (closes : list Q),
    (200 <= len df)%nat ->
    Close df = map Fin closes ->
    indicators (calculate_indicators fsqrt df) = Some cols ->
    exists m20 m50 m100 m200 : Q,
      latest (MA20 cols) = Fin m20
      /\ latest (MA50 cols) = Fin m50
      /\ latest (MA100 cols) = Fin m100
      /\ latest (MA200 cols) = Fin m200
      /\ m20 == Qsum (last_n 20 closes) / 20
      /\ m50 == Qsum (last_n 50 closes) / 50
      /\ m100 == Qsum (last_n 100 closes) / 100
      /\ m200 == Qsum (last_n 200 closes) / 200.
Proof.
  intros fsqrt df cols closes Hlen Hclose Hcols.
  rewrite (calculate_indicators_long fsqrt df Hlen) in Hcols.
  apply (f_equal (fun o => match o with Some c => c | None => cols end)) in Hcols.
  subst cols. cbn [MA20 MA50 MA100 MA200].
  unfold len in Hlen. rewrite Hclose in *. rewrite length_map in Hlen.
  destruct (rolling_mean_latest 20 closes) as (m20 & H20 & E20); [lia|].
  destruct (rolling_mean_latest 50 closes) as (m50 & H50 & E50); [lia|].
  destruct (rolling_mean_latest 100 closes) as (m100 & H100 & E100); [lia|].
  destruct (rolling_mean_latest 200 closes) as (m200 & H200 & E200); [lia|].
  exists m20, m50, m100, m200.
  repeat split; assumption.
Qed.

Lemma moving_averages_of_latest_bar_witness :
  exists (cols : IndicatorColumns) (m20 m200 : Q),
    indicators (calculate_indicators sqrt_micro bars200) = Some cols
    /\ latest (MA20 cols) = Fin m20
    /\ latest (MA200 cols) = Fin m200
    /\ m20 == 2079 # 20
    /\ m200 == 20079 # 200.
Proof.
  destruct (indicators (calculate_indicators sqrt_micro bars200))
    as [cols|] eqn:Hcols; [|vm_compute in Hcols; discriminate Hcols].
  assert (Hlen : (200 <= len bars200)%nat)
    by (apply Nat.leb_le; vm_compute; reflexivity).
  pose (closes :=
          (repeat 100 188
           ++ map inject_Z
                [101; 103; 102; 105; 104; 107; 106; 109; 108; 111; 110; 113]%Z)).
  assert (Hclose : Close bars200 = map Fin closes).
  { vm_compute. reflexivity. }
  destruct (moving_averages_of_latest_bar sqrt_micro bars200 cols closes
              Hlen Hclose Hcols)
    as (m20 & m50 & m100 & m200 & H20 & _ & _ & H200 & E20 & _ & _ & E200).
  exists cols, m20, m200. split; [reflexivity|].
  split; [exact H20|]. split; [exact H200|].
  split.
  - rewrite E20. vm_compute. reflexivity.
  - rewrite E200. vm_compute. reflexivity.
Defined.

(** ** Running the calculation twice *)

(** X7.  The indicator calculation leaves the five provider columns as
    they are, and running it on its own outcome changes nothing more: the
    columns are computed from the closes and the volumes alone. *)
Theorem calculate_indicators_idempotent :
  forall (fsqrt : float -> float) (df : DataFrame),
    let out := calculate_indicators fsqrt df in
    Open out = Open df
    /\ High out = High df
    /\ Low out = Low df
    /\ Close out = Close df
    /\ Volume out = Volume df
    /\ calculate_indicators fsqrt out = out.
Proof.
  intros fsqrt df out. subst out. unfold calculate_indicators.
  destruct (empty df || (len df <? 200)%nat) eqn:Hg.
  - rewrite Hg. repeat split; reflexivity.
  - cbn [set_indicators Open High Low Close Volume].
    repeat split; try reflexivity.
    unfold empty, len in *. cbn [set_indicators Close].
    rewrite Hg. reflexivity.
Qed.

(** ** Bollinger bands *)

Lemma band_values (m x : float) (u l : Q) :
  fadd m x = Fin u -> fsub m x = Fin l ->
  exists mq xq : Q, m = Fin mq /\ x = Fin xq /\ u == mq + xq /\ l == mq - xq.
Proof.
  destruct m as [mq| | |], x as [xq| | |]; cbn [fadd fsub fneg];
    try discriminate.
  intros Hu Hl. exists mq, xq.
  apply (f_equal (fun v => match v with Fin q => q | _ => 0 end)) in Hu.
  apply (f_equal (fun v => match v with Fin q => q | _ => 0 end)) in Hl.
  subst u l. repeat split; rewrite ?Qred_correct; reflexivity.
Qed.

Lemma doubled_value (s : float) (xq : Q) :
  fmul s (of_Z 2) = Fin xq -> exists sq : Q, s = Fin sq /\ xq == 2 * sq.
Proof.
  unfold of_Z. destruct s as [sq| | |]; cbn [fmul]; try discriminate.
  intros H. exists sq. split; [reflexivity|].
  apply (f_equal (fun v => match v with Fin q => q | _ => 0 end)) in H.
  subst xq. rewrite Qred_correct. change (inject_Z 2) with 2. lra.
Qed.

Lemma s_scale_nth (k : float) (l : Series) (i : nat) :
  nth i (s_scale k l) NaN = fmul (nth i l NaN) k.
Proof. exact (map_nth (fun x => fmul x k) l NaN i). Qed.

Lemma rolling_std_at (fsqrt : float -> float) (l : Series) (i : nat) (sq : Q) :
  (forall (x : float) (q : Q), fsqrt x = Fin q -> 0 <= q) ->
  nth i (rolling_std fsqrt 20 l) NaN = Fin sq -> 0 <= sq.
Proof.
  intros Hsqrt. unfold rolling_std, rolling.
  destruct (Nat.lt_ge_cases i (length l)) as [Hi|Hi].
  - rewrite nth_map_seq by exact Hi. unfold rolling_at.
    destruct (i + 1 <? 20)%nat; [discriminate|]. cbv zeta.
    destruct (existsb is_nan (window_at 20 i l)); [discriminate|].
    unfold std_of. apply Hsqrt.
  - rewrite nth_overflow; [discriminate|]. now rewrite length_map, length_seq.
Qed.

(** X8.  The middle Bollinger band is the 20-bar moving average, and the
    bands are symmetric about it: on every bar where the upper and the
    lower band are numbers, so is the middle band, and it is their
    midpoint.  With a square root that returns no negative number, the
    lower band is not above the middle band nor the middle above the
    upper. *)
Theorem bollinger_bands_around_the_average :
  forall (fsqrt : float -> float) (df : DataFrame) (cols : IndicatorColumns)
         (i : nat) (u l : Q),
    (200 <= len df)%nat ->
    indicators (calculate_indicators fsqrt df) = Some cols ->
    (i < len df)%nat ->
    nth i (Upper_Band cols) NaN = Fin u ->
    nth i (Lower_Band cols) NaN = Fin l ->
    BB_Middle cols = MA20 cols
    /\ exists m : Q,
         nth i (BB_Middle cols) NaN = Fin m
         /\ u + l == 2 * m
         /\ ((forall (x : float) (q : Q), fsqrt x = Fin q -> 0 <= q) ->
             l <= m <= u).
Proof.
  intros fsqrt df cols i u l Hlen Hcols Hi.
  rewrite (calculate_indicators_long fsqrt df Hlen) in Hcols.
  apply (f_equal (fun o => match o with Some c => c | None => cols end)) in Hcols.
  subst cols. cbn [MA20 BB_Middle Upper_Band Lower_Band].
  unfold len in Hi. unfold s_add, s_sub, s_scale.
  assert (L1 : (i < length (rolling_mean 20 (Close df)))%nat).
  { unfold rolling_mean. now rewrite rolling_length. }
  assert (L2 : (i < length (map (fun x => fmul x (of_Z 2))
                              (rolling_std fsqrt 20 (Close df))))%nat).
  { unfold rolling_std. now rewrite length_map, rolling_length. }
  rewrite !map2_nth by assumption.
  fold (s_scale (of_Z 2) (rolling_std fsqrt 20 (Close df))).
  rewrite s_scale_nth.
  intros Hu Hl. split; [reflexivity|].
  destruct (band_values _ _ u l Hu Hl) as (mq & xq & Hm & Hx & Eu & El).
  destruct (doubled_value _ xq Hx) as (sq & Hs & Es).
  exists mq. split; [exact Hm|]. split; [lra|].
  intros Hsqrt.
  pose proof (rolling_std_at fsqrt (Close df) i sq Hsqrt Hs). lra.
Qed.

Lemma sqrt_micro_not_negative (x : float) (q : Q) :
  sqrt_micro x = Fin q -> 0 <= q.
Proof.
  unfold sqrt_micro. destruct x as [a| | |]; try discriminate.
  destruct (Qltb a 0); [discriminate|].
  intros H.
  apply (f_equal (fun v => match v with Fin q => q | _ => 0 end)) in H.
  subst q. rewrite Qred_correct.
  unfold Qle. cbn [Qnum Qden].
  pose proof (Z.sqrt_nonneg (Qnum a * 10 ^ 12 / Z.pos (Qden a))). lia.
Qed.

Lemma bollinger_bands_around_the_average_witness :
  exists (cols : IndicatorColumns) (u l m : Q),
    indicators (calculate_indicators sqrt_micro bars200) = Some cols
    /\ nth 199 (Upper_Band cols) NaN = Fin u
    /\ nth 199 (Lower_Band cols) NaN = Fin l
    /\ nth 199 (BB_Middle cols) NaN = Fin m
    /\ u + l == 2 * m
    /\ l <= m <= u.
Proof.
  destruct (indicators (calculate_indicators sqrt_micro bars200))
    as [cols|] eqn:Hcols; [|vm_compute in Hcols; discriminate Hcols].
  assert (Hlen : (200 <= len bars200)%nat)
    by (apply Nat.leb_le; vm_compute; reflexivity).
  assert (Hi : (199 < len bars200)%nat)
    by (apply Nat.ltb_lt; vm_compute; reflexivity).
  assert (E : option_map (fun c => (nth 199 (Upper_Band c) NaN,
                                    nth 199 (Lower_Band c) NaN))
                (indicators (calculate_indicators sqrt_micro bars200))
              = Some (Fin (11269131 # 100000), Fin (9520869 # 100000)))
    by (vm_compute; reflexivity).
  rewrite Hcols in E. cbn [option_map] in E.
  apply (f_equal (fun o => match o with Some p => p | None => (NaN, NaN) end)) in E.
  assert (Hu : nth 199 (Upper_Band cols) NaN = Fin (11269131 # 100000))
    by exact (f_equal fst E).
  assert (Hl : nth 199 (Lower_Band cols) NaN = Fin (9520869 # 100000))
    by exact (f_equal snd E).
  destruct (bollinger_bands_around_the_average sqrt_micro bars200 cols 199
              _ _ Hlen Hcols Hi Hu Hl) as (_ & m & Hm & Esum & Hord).
  exists cols, (11269131 # 100000), (9520869 # 100000), m.
  split; [reflexivity|].
  repeat split; try assumption; apply (Hord sqrt_micro_not_negative).
Defined.

(** ** The indicator snapshot *)

Lemma int_of_finite (x : float) :
  is_finite x = true -> exists z : Z, int_of x = Ok z.
Proof. destruct x; try discriminate. intros _. eexists. reflexivity. Qed.

Lemma int_of_not_finite (x : float) :
  is_finite x = false ->
  int_of x = Raise ValueError \/ int_of x = Raise OverflowError.
Proof. destruct x; try discriminate; intros _; cbn; auto. Qed.

Ltac settle :=
  repeat split; intros;
  repeat match goal with
         | H : exists _, _ |- _ => destruct H
         | H : _ /\ _ |- _ => destruct H
         | H : _ \/ _ |- _ => destruct H
         end;
  subst; try congruence; try lia; eauto.

Lemma snapshot_cases (df : DataFrame) :
  (len df = 0%nat -> get_all_indicators df = Ok None)
  /\ (len df <> 0%nat -> indicators df = None ->
      get_all_indicators df = Raise KeyError)
  /\ (len df <> 0%nat ->
      forall cols, indicators df = Some cols ->
        is_finite (latest (OBV cols))
        && is_finite (latest (Volume df))
        && is_finite (latest (Volume_MA20 cols)) = true ->
        exists v, get_all_indicators df = Ok (Some v))
  /\ (len df <> 0%nat ->
      forall cols, indicators df = Some cols ->
        is_finite (latest (OBV cols))
        && is_finite (latest (Volume df))
        && is_finite (latest (Volume_MA20 cols)) = false ->
        get_all_indicators df = Raise ValueError
        \/ get_all_indicators df = Raise OverflowError).
Proof.
  unfold get_all_indicators, indicator_columns.
  split; [|split; [|split]].
  - intros E. now rewrite (empty_true df E).
  - intros E N. now rewrite (empty_false df E), N.
  - intros E cols Hc F. rewrite (empty_false df E), Hc. cbn [bind].
    apply andb_true_iff in F. destruct F as [F F3].
    apply andb_true_iff in F. destruct F as [F1 F2].
    destruct (int_of_finite _ F1) as [z1 ->].
    destruct (int_of_finite _ F2) as [z2 ->].
    destruct (int_of_finite _ F3) as [z3 ->].
    cbn [bind]. eexists. reflexivity.
  - intros E cols Hc F. rewrite (empty_false df E), Hc. cbn [bind].
    destruct (is_finite (latest (OBV cols))) eqn:F1.
    2: { destruct (int_of_not_finite _ F1) as [-> | ->]; cbn [bind]; auto. }
    destruct (int_of_finite _ F1) as [z1 ->]. cbn [bind].
    destruct (is_finite (latest (Volume df))) eqn:F2.
    2: { destruct (int_of_not_finite _ F2) as [-> | ->]; cbn [bind]; auto. }
    destruct (int_of_finite _ F2) as [z2 ->]. cbn [bind].
    cbn [andb] in F.
    destruct (int_of_not_finite _ F) as [-> | ->]; cbn [bind]; auto.
Qed.

(** X9.  The snapshot of the latest indicators answers [None] exactly on
    the empty frame and raises [KeyError] exactly on a non-empty frame
    without indicator columns.  With the columns attached it succeeds
    exactly when the latest OBV, volume and 20-bar volume average are finite
    numbers; otherwise the conversion to an integer raises [ValueError] or
    [OverflowError]. *)
Theorem indicator_snapshot_outcomes :
  forall df : DataFrame,
    let integral (cols : IndicatorColumns) : bool :=
      is_finite (latest (OBV cols))
      && is_finite (latest (Volume df))
      && is_finite (latest (Volume_MA20 cols)) in
    (get_all_indicators df = Ok None <-> len df = 0%nat)
    /\ (get_all_indicators df = Raise KeyError <->
        len df <> 0%nat /\ indicators df = None)
    /\ ((exists v, get_all_indicators df = Ok (Some v)) <->
        len df <> 0%nat
        /\ exists cols, indicators df = Some cols /\ integral cols = true)
    /\ (get_all_indicators df = Raise ValueError
        \/ get_all_indicators df = Raise OverflowError <->
        len df <> 0%nat
        /\ exists cols, indicators df = Some cols /\ integral cols = false)
    /\ get_all_indicators df <> Raise IndexError.
Proof.
  intros df integral. subst integral. cbv beta.
  destruct (snapshot_cases df) as (C1 & C2 & C3 & C4).
  destruct (Nat.eq_dec (len df) 0) as [E|E].
  { rewrite (C1 E). settle. }
  destruct (indicators df) as [cols|] eqn:Hc.
  2: { rewrite (C2 E eq_refl). settle. }
  destruct (is_finite (latest (OBV cols))
            && is_finite (latest (Volume df))
            && is_finite (latest (Volume_MA20 cols))) eqn:F.
  - destruct (C3 E cols eq_refl F) as [v ->]. settle.
  - destruct (C4 E cols eq_refl F) as [-> | ->]; settle.
Qed.

(** ** Analysis of one security *)

Lemma latest_Forall (P : float -> Prop) (l : Series) :
  l <> [] -> Forall P l -> P (latest l).
Proof.
  intros Hne H. rewrite latest_nth. rewrite Forall_forall in H. apply H.
  apply nth_In. destruct l; [contradiction|]. cbn [length]. lia.
Qed.

Lemma finite_as_Fin (l : Series) :
  Forall (fun x => is_finite x = true) l -> exists qs : list Q, l = map Fin qs.
Proof.
  induction 1 as [|x l Hx Hl (qs & ->)]; [now exists []|].
  destruct x as [q| | |]; try discriminate. now exists (q :: qs).
Qed.

Lemma cumsum_from_finite (l : Series) :
  forall acc : float,
    is_finite acc = true ->
    Forall (fun x => is_finite x = true) l ->
    Forall (fun x => is_finite x = true) (cumsum_from acc l).
Proof.
  induction l as [|x l IH]; intros acc Ha Hl; [constructor|].
  inversion Hl as [|? ? Hx Hl']; subst.
  destruct x as [q| | |]; try discriminate.
  destruct acc as [a| | |]; try discriminate.
  cbn [cumsum_from is_nan fadd].
  constructor; [reflexivity|]. now apply IH.
Qed.

Lemma signed_terms_finite (d : Series) :
  forall vol : Series,
    Forall (fun x => is_finite x = true) vol ->
    Forall (fun x => is_finite x = true)
           (fillna fzero (s_mul (map fsign d) vol)).
Proof.
  induction d as [|x d IH]; intros vol Hv; [constructor|].
  destruct vol as [|v vol]; [constructor|].
  inversion Hv as [|? ? Hv0 Hv']; subst.
  cbn [map s_mul map2 fillna]. constructor; [|now apply IH].
  destruct v as [q| | |]; try discriminate.
  destruct x as [a| | |]; cbn [fsign]; try reflexivity.
  destruct (Qsign a); reflexivity.
Qed.

Lemma obv_column_finite (close vol : Series) :
  Forall (fun x => is_finite x = true) vol ->
  Forall (fun x => is_finite x = true) (obv_column close vol).
Proof.
  intros Hv. unfold obv_column, cumsum.
  apply cumsum_from_finite; [reflexivity|]. now apply signed_terms_finite.
Qed.

Lemma nonempty_of_length (l : Series) : (0 < length l)%nat -> l <> [].
Proof. destruct l; [cbn; lia|discriminate]. Qed.

Lemma Volume_calculate_indicators (fsqrt : float -> float) (df : DataFrame) :
  Volume (calculate_indicators fsqrt df) = Volume df.
Proof.
  unfold calculate_indicators.
  destruct (empty df || (len df <? 200)%nat); reflexivity.
Qed.

(** The snapshot succeeds on a long enough frame of finite bars. *)
Lemma snapshot_of_finite_bars (fsqrt : float -> float) (df : DataFrame) :
  (200 <= len df)%nat -> finite_bars df ->
  exists v, get_all_indicators (calculate_indicators fsqrt df) = Ok (Some v).
Proof.
  intros Hlen (Hvl & Hc & Hv).
  destruct (snapshot_cases (calculate_indicators fsqrt df)) as (_ & _ & C3 & _).
  apply (C3 ltac:(rewrite len_calculate_indicators; lia) _
            (calculate_indicators_long fsqrt df Hlen)).
  cbn [OBV Volume_MA20]. rewrite Volume_calculate_indicators.
  rewrite !andb_true_iff. repeat split.
  - apply (latest_Forall (fun x => is_finite x = true)).
    + apply nonempty_of_length. rewrite obv_column_length.
      unfold len in *. lia.
    + now apply obv_column_finite.
  - apply (latest_Forall (fun x => is_finite x = true)); [|exact Hv].
    apply nonempty_of_length. lia.
  - destruct (finite_as_Fin _ Hv) as (qs & Hqs). rewrite Hqs.
    destruct (rolling_mean_latest 20 qs) as (m & -> & _); [|reflexivity].
    rewrite Hqs, length_map in Hvl. lia.
Qed.

Lemma analysis_cases (fsqrt : float -> float) (name sym sec now : string)
    (fetched td : DataFrame) :
  ((len fetched < 200)%nat ->
   analyze_single_stock fsqrt name sym sec fetched td now = Ok None)
  /\ (len td = 0%nat ->
      analyze_single_stock fsqrt name sym sec fetched td now = Ok None)
  /\ ((200 <= len fetched)%nat -> len td <> 0%nat ->
      forall v, get_all_indicators (calculate_indicators fsqrt fetched) = v ->
        exists (h q : StrategyResult),
          analyze_hawk_strategy (calculate_indicators fsqrt fetched) td true
          = Ok (Some h)
          /\ analyze_quick_strategy (calculate_indicators fsqrt fetched) td
             = Ok (Some q)
          /\ analyze_single_stock fsqrt name sym sec fetched td now
             = (indicators_ <- v ;;
                Ok (Some {| company := name; symbol := sym; sector := sec;
                            hawk := h; quick := q;
                            entry_exit :=
                              calculate_entry_exit_points
                                (calculate_indicators fsqrt fetched);
                            indicator_values := indicators_;
                            timestamp := now |}))).
Proof.
  unfold analyze_single_stock. split; [|split].
  - intros Hs.
    destruct (hawk_cases (calculate_indicators fsqrt fetched) td true) as (H1 & _).
    destruct (quick_cases (calculate_indicators fsqrt fetched) td) as (Q1 & _).
    rewrite H1, Q1 by (rewrite len_calculate_indicators; exact Hs).
    destruct (empty fetched); [reflexivity|]. destruct (empty td); reflexivity.
  - intros E. rewrite (empty_true td E). destruct (empty fetched); reflexivity.
  - intros Hl E v Hv.
    rewrite (empty_false fetched) by lia. rewrite (empty_false td E).
    destruct (hawk_cases (calculate_indicators fsqrt fetched) td true)
      as (_ & _ & _ & H4).
    destruct (quick_cases (calculate_indicators fsqrt fetched) td)
      as (_ & _ & _ & Q4).
    assert (Hlen' : (200 <= len (calculate_indicators fsqrt fetched))%nat)
      by (rewrite len_calculate_indicators; exact Hl).
    assert (Htd : Close td <> []).
    { apply nonempty_of_length. unfold len in E. lia. }
    assert (Hind : indicators (calculate_indicators fsqrt fetched) <> None).
    { rewrite (calculate_indicators_long fsqrt fetched Hl). discriminate. }
    destruct (H4 Hlen' Htd Hind) as [h Hh].
    destruct (Q4 Hlen' Htd Hind) as [q Hq].
    exists h, q. rewrite Hh, Hq, Hv. cbn [bind]. repeat split.
Qed.

(** X10.  The analysis of a security does not raise on data as the provider
    delivers it.  For a fetched frame of at most [10^9] bars whose close
    and volume columns are finite numbers of equal length, the volumes
    being at most [2^63] in magnitude, and for any index frame, it answers
    [None] exactly when the security has fewer than 200 bars or the index
    has no bar, and a report otherwise.  The two bounds keep the running
    totals of the volumes, which the program adds up in binary64, inside
    the range of binary64, where they are finite as the exact totals are. *)
Theorem analysis_of_finite_bars_never_raises :
  forall (fsqrt : float -> float) (name sym sec now : string)
         (fetched td : DataFrame),
    provider_bars fetched ->
    let outcome := analyze_single_stock fsqrt name sym sec fetched td now in
    (outcome = Ok None <-> (len fetched < 200)%nat \/ len td = 0%nat)
    /\ ((exists rep, outcome = Ok (Some rep)) <->
        (200 <= len fetched)%nat /\ len td <> 0%nat)
    /\ forall e : exn, outcome <> Raise e.
Proof.
  intros fsqrt name sym sec now fetched td [Hfin _] outcome. subst outcome.
  destruct (analysis_cases fsqrt name sym sec now fetched td) as (A1 & A2 & A3).
  destruct (Nat.lt_ge_cases (len fetched) 200) as [Hs|Hl].
  { rewrite (A1 Hs). settle. }
  destruct (Nat.eq_dec (len td) 0) as [E|E].
  { rewrite (A2 E). settle. }
  destruct (snapshot_of_finite_bars fsqrt fetched Hl Hfin) as [v Hv].
  destruct (A3 Hl E _ Hv) as (h & q & _ & _ & ->). cbn [bind]. settle.
Qed.

Lemma bars200_finite : provider_bars bars200.
Proof.
  split; [|split].
  - unfold finite_bars. split; [vm_compute; reflexivity|].
    split; apply forallb_Forall_true; vm_compute; reflexivity.
  - vm_compute. discriminate.
  - apply forallb_Forall_true. vm_compute. reflexivity.
Qed.

Lemma analysis_of_finite_bars_never_raises_witness :
  exists rep : Report,
    analyze_single_stock sqrt_micro "Bank" "1120" "Banks" bars200 tasi6 "now"
    = Ok (Some rep).
Proof.
  destruct (analysis_of_finite_bars_never_raises sqrt_micro "Bank" "1120"
              "Banks" "now" bars200 tasi6 bars200_finite) as (_ & H & _).
  apply H. split.
  - apply Nat.leb_le. vm_compute. reflexivity.
  - vm_compute. discriminate.
Defined.

(** What a report is made of. *)
Lemma report_inv (fsqrt : float -> float) (name sym sec now : string)
    (fetched td : DataFrame) (rep : Report) :
  analyze_single_stock fsqrt name sym sec fetched td now = Ok (Some rep) ->
  (200 <= len fetched)%nat
  /\ len td <> 0%nat
  /\ exists (h q : StrategyResult) (iv : option IndicatorValues),
       analyze_hawk_strategy (calculate_indicators fsqrt fetched) td true
       = Ok (Some h)
       /\ analyze_quick_strategy (calculate_indicators fsqrt fetched) td
          = Ok (Some q)
       /\ get_all_indicators (calculate_indicators fsqrt fetched) = Ok iv
       /\ rep = {| company := name; symbol := sym; sector := sec;
                   hawk := h; quick := q;
                   entry_exit :=
                     calculate_entry_exit_points
                       (calculate_indicators fsqrt fetched);
                   indicator_values := iv;
                   timestamp := now |}.
Proof.
  intros H.
  destruct (analysis_cases fsqrt name sym sec now fetched td) as (A1 & A2 & A3).
  destruct (Nat.lt_ge_cases (len fetched) 200) as [Hs|Hl].
  { rewrite (A1 Hs) in H. discriminate. }
  destruct (Nat.eq_dec (len td) 0) as [E|E].
  { rewrite (A2 E) in H. discriminate. }
  destruct (A3 Hl E _ eq_refl) as (h & q & Hh & Hq & Ha).
  rewrite Ha in H.
  destruct (get_all_indicators (calculate_indicators fsqrt fetched))
    as [iv|e]; cbn [bind] in H; [|discriminate].
  split; [exact Hl|]. split; [exact E|].
  exists h, q, iv. repeat split; try assumption.
  apply (f_equal (fun o => match o with Ok (Some r) => r | _ => rep end)) in H.
  now symmetry.
Qed.

(** X11.  A report is complete.  Whenever the analysis produces one, the
    security had at least 200 bars and the index at least one; the report
    carries the name, ticker, sector and clock reading it was given, a Hawk
    result over 9 conditions and a Quick result over 8, an entry/exit plan
    and a snapshot of the indicators, none of them missing. *)
Theorem report_is_complete :
  forall (fsqrt : float -> float) (name sym sec now : string)
         (fetched td : DataFrame) (rep : Report),
    analyze_single_stock fsqrt name sym sec fetched td now = Ok (Some rep) ->
    (200 <= len fetched)%nat
    /\ len td <> 0%nat
    /\ company rep = name
    /\ symbol rep = sym
    /\ sector rep = sec
    /\ timestamp rep = now
    /\ scored 9 7 (hawk rep)
    /\ scored 8 6 (quick rep)
    /\ (exists plan, entry_exit rep = Some plan)
    /\ (exists values, indicator_values rep = Some values).
Proof.
  intros fsqrt name sym sec now fetched td rep H.
  destruct (report_inv fsqrt name sym sec now fetched td rep H)
    as (Hl & E & h & q & iv & Hh & Hq & Hiv & ->).
  cbn [company symbol sector timestamp hawk quick entry_exit indicator_values].
  repeat split; try assumption; try reflexivity;
    try apply (hawk_scored _ _ _ _ Hh); try apply (quick_scored _ _ _ Hq).
  - unfold calculate_entry_exit_points.
    rewrite empty_false by (rewrite len_calculate_indicators; lia).
    eexists. reflexivity.
  - destruct (snapshot_cases (calculate_indicators fsqrt fetched))
      as (_ & _ & C3 & C4).
    assert (Hne : len (calculate_indicators fsqrt fetched) <> 0%nat)
      by (rewrite len_calculate_indicators; lia).
    pose proof (calculate_indicators_long fsqrt fetched Hl) as Hc.
    match type of Hc with
    | _ = Some ?c =>
        destruct (is_finite (latest (OBV c))
                  && is_finite (latest (Volume (calculate_indicators fsqrt fetched)))
                  && is_finite (latest (Volume_MA20 c))) eqn:F;
        [destruct (C3 Hne c Hc F) as [v Hv]|
         destruct (C4 Hne c Hc F) as [Hv|Hv]]
    end.
    + rewrite Hv in Hiv. exists v. congruence.
    + rewrite Hv in Hiv. discriminate.
    + rewrite Hv in Hiv. discriminate.
Qed.

Lemma report_is_complete_witness :
  exists rep : Report,
    analyze_single_stock sqrt_micro "Bank" "1120" "Banks" bars200 tasi6 "now"
    = Ok (Some rep)
    /\ company rep = "Bank"%string
    /\ (exists plan, entry_exit rep = Some plan)
    /\ (exists values, indicator_values rep = Some values).
Proof.
  destruct (analyze_single_stock sqrt_micro "Bank" "1120" "Banks" bars200
              tasi6 "now") as [[rep|]|e] eqn:H;
    [|vm_compute in H; discriminate H|vm_compute in H; discriminate H].
  exists rep. split; [reflexivity|].
  destruct (report_is_complete sqrt_micro "Bank" "1120" "Banks" "now"
              bars200 tasi6 rep H)
    as (_ & _ & Hc & _ & _ & _ & _ & _ & Hp & Hv).
  repeat split; assumption.
Defined.

(** X12.  In every report the [ma20] and [bollinger] conditions of the
    Quick strategy have the same value: the middle Bollinger band they
    compare the close with is the 20-bar average itself. *)
Theorem quick_ma20_is_quick_bollinger :
  forall (fsqrt : float -> float) (name sym sec now : string)
         (fetched td : DataFrame) (rep : Report),
    analyze_single_stock fsqrt name sym sec fetched td now = Ok (Some rep) ->
    exists b : bool,
      lookup "ma20" (conditions (quick rep)) = Some b
      /\ lookup "bollinger" (conditions (quick rep)) = Some b.
Proof.
  intros fsqrt name sym sec now fetched td rep H.
  destruct (report_inv fsqrt name sym sec now fetched td rep H)
    as (Hl & E & h & q & iv & Hh & Hq & Hiv & ->).
  cbn [quick].
  destruct (quick_conditions _ _ _ Hq) as (cols & c_tasi & Hc & _ & ->).
  rewrite (calculate_indicators_long fsqrt fetched Hl) in Hc.
  apply (f_equal (fun o => match o with Some c => c | None => cols end)) in Hc.
  subst cols. cbn [MA20 BB_Middle].
  eexists. split; reflexivity.
Qed.

Lemma quick_ma20_is_quick_bollinger_witness :
  exists (rep : Report) (b : bool),
    analyze_single_stock sqrt_micro "Bank" "1120" "Banks" bars200 tasi6 "now"
    = Ok (Some rep)
    /\ lookup "ma20" (conditions (quick rep)) = Some b
    /\ lookup "bollinger" (conditions (quick rep)) = Some b.
Proof.
  destruct (analyze_single_stock sqrt_micro "Bank" "1120" "Banks" bars200
              tasi6 "now") as [[rep|]|e] eqn:H;
    [|vm_compute in H; discriminate H|vm_compute in H; discriminate H].
  destruct (quick_ma20_is_quick_bollinger sqrt_micro "Bank" "1120" "Banks"
              "now" bars200 tasi6 rep H) as (b & H1 & H2).
  exists rep, b. repeat split; assumption.
Defined.

(** ** Levels and ratios of a plan *)

Lemma fltb_irrefl (x : float) : fltb x x = false.
Proof.
  destruct x as [q| | |]; try reflexivity.
  apply fltb_Fin_false. lra.
Qed.

Lemma fltb_asym (x y : float) : fltb x y = true -> fltb y x = false.
Proof.
  destruct x as [a| | |], y as [b| | |]; try discriminate; try reflexivity.
  intros H. apply fltb_Fin in H. apply fltb_Fin_false. lra.
Qed.

(** X13.  From a price of 0.25 up to [10^12], the levels of a plan are in
    order: the stop is below the entry, the entry is not above the
    rounded current price, which is below the first target, itself below
    the second; and the first risk/reward ratio is positive. *)
Theorem plan_levels_in_order :
  forall (df : DataFrame) (P : Q) (plan : EntryExit),
    latest (Close df) = Fin P ->
    (1 # 4) <= P <= 1000000000000 ->
    calculate_entry_exit_points df = Some plan ->
    fltb (stop_loss plan) (entry_price plan) = true
    /\ fltb (current_price plan) (entry_price plan) = false
    /\ fltb (current_price plan) (target1 plan) = true
    /\ fltb (target1 plan) (target2 plan) = true
    /\ fltb fzero (risk_reward_1 plan) = true.
Proof.
  intros df P plan HP Hr Hplan.
  assert (Hne : len df <> 0%nat).
  { intros E. unfold calculate_entry_exit_points in Hplan.
    rewrite (empty_true df E) in Hplan. discriminate. }
  destruct (plan_levels df P Hne HP Hr)
    as (c & e & s & t1 & t2 & Hplan' & Hc & He & Hs & Ht1 & Ht2).
  rewrite Hplan' in Hplan.
  apply (f_equal (fun o => match o with Some p => p | None => plan end)) in Hplan.
  subst plan.
  cbn [stop_loss entry_price current_price target1 target2 risk_reward_1].
  destruct (plan_levels_apart P c e s t1 t2 Hr Hc He Hs Ht1 Ht2)
    as ((Hs1 & Hse & Hec & Hct & Htt & Hbig) & (C1 & C2 & C3)
        & (R1 & R2 & R3 & R4)).
  split; [apply lit_lt; lia|].
  split.
  { destruct (Z.eq_dec e c) as [->|Hne'].
    - apply fltb_irrefl.
    - apply fltb_asym, lit_lt; lia. }
  split; [apply lit_lt; lia|].
  split; [apply lit_lt; lia|].
  destruct (ratio_grid t1 e s) as (r1 & -> & Hb1 & _); try lia.
  apply lit_positive; lia.
Qed.

Lemma plan_levels_in_order_witness :
  exists plan : EntryExit,
    calculate_entry_exit_points hundred = Some plan
    /\ fltb (stop_loss plan) (entry_price plan) = true
    /\ fltb (current_price plan) (target1 plan) = true
    /\ fltb (target1 plan) (target2 plan) = true.
Proof.
  destruct (calculate_entry_exit_points hundred) as [plan|] eqn:Hplan;
    [|vm_compute in Hplan; discriminate Hplan].
  exists plan. split; [reflexivity|].
  destruct (plan_levels_in_order hundred 100 plan) as (H1 & _ & H3 & H4 & _).
  - reflexivity.
  - split; vm_compute; discriminate.
  - exact Hplan.
  - repeat split; assumption.
Defined.

(** X14.  From a price of 100 up to [10^12], the two ratios of a plan
    hardly depend on the price: the first is the binary64 number 2.33 or
    2.34, and the second one of 4.54, 4.55, 4.56 and 4.57. *)
Theorem plan_ratios_nearly_constant :
  forall (df : DataFrame) (P : Q) (plan : EntryExit),
    latest (Close df) = Fin P ->
    100 <= P <= 1000000000000 ->
    calculate_entry_exit_points df = Some plan ->
    exists r1 r2 : Z,
      risk_reward_1 plan = lit (r1 # 100)
      /\ risk_reward_2 plan = lit (r2 # 100)
      /\ (233 <= r1 <= 234)%Z
      /\ (454 <= r2 <= 457)%Z.
Proof.
  intros df P plan HP HP100 Hplan.
  assert (Hr : (1 # 4) <= P <= 1000000000000) by lra.
  assert (Hne : len df <> 0%nat).
  { intros E. unfold calculate_entry_exit_points in Hplan.
    rewrite (empty_true df E) in Hplan. discriminate. }
  destruct (plan_levels df P Hne HP Hr)
    as (c & e & s & t1 & t2 & Hplan' & Hc & He & Hs & Ht1 & Ht2).
  rewrite Hplan' in Hplan.
  apply (f_equal (fun o => match o with Some p => p | None => plan end)) in Hplan.
  subst plan. cbn [risk_reward_1 risk_reward_2].
  destruct (plan_levels_apart P c e s t1 t2 Hr Hc He Hs Ht1 Ht2)
    as ((Hs1 & Hse & Hec & Hct & Htt & Hbig) & (C1 & C2 & C3)
        & (R1 & R2 & R3 & R4)).
  destruct (ratio_grid t1 e s) as (r1 & -> & _ & Hr1); try lia.
  destruct (ratio_grid t2 e s) as (r2 & -> & _ & Hr2); try lia.
  exists r1, r2. split; [reflexivity|]. split; [reflexivity|].
  apply Qabs_Qle_condition in Hr1, Hr2.
  rewrite (Qmake_hundredths r1) in Hr1. rewrite (Qmake_hundredths r2) in Hr2.
  assert (Hd : 0 < inject_Z (e - s)).
  { change 0 with (inject_Z 0). rewrite <- Zlt_Qlt. lia. }
  pose proof (inject_Z_sub t1 e) as E1. pose proof (inject_Z_sub t2 e) as E2.
  pose proof (inject_Z_sub e s) as E3.
  destruct (div_between (inject_Z (t1 - e)) (inject_Z (e - s))
              (23259 # 10000) (23408 # 10000)) as [L1 U1]; try lra.
  destruct (div_between (inject_Z (t2 - e)) (inject_Z (e - s))
              (45432 # 10000) (4568 # 1000)) as [L2 U2]; try lra.
  assert (B1 : inject_Z 232 < inject_Z r1 < inject_Z 235).
  { change (inject_Z 232) with 232. change (inject_Z 235) with 235. lra. }
  assert (B2 : inject_Z 453 < inject_Z r2 < inject_Z 458).
  { change (inject_Z 453) with 453. change (inject_Z 458) with 458. lra. }
  rewrite <- !Zlt_Qlt in B1, B2. lia.
Qed.

Lemma plan_ratios_nearly_constant_witness :
  exists (plan : EntryExit) (r1 r2 : Z),
    calculate_entry_exit_points hundred = Some plan
    /\ risk_reward_1 plan = lit (r1 # 100)
    /\ risk_reward_2 plan = lit (r2 # 100)
    /\ (233 <= r1 <= 234)%Z
    /\ (454 <= r2 <= 457)%Z.
Proof.
  destruct (calculate_entry_exit_points hundred) as [plan|] eqn:Hplan;
    [|vm_compute in Hplan; discriminate Hplan].
  destruct (plan_ratios_nearly_constant hundred 100 plan) as (r1 & r2 & H).
  - reflexivity.
  - split; vm_compute; discriminate.
  - exact Hplan.
  - exists plan, r1, r2. split; [reflexivity|exact H].
Defined.

(** ** The market scan *)

Section ScanFacts.

Variable fsqrt : float -> float.
Variable feed : Feed.

Lemma scan_loop_ok (stocks : Registry) :
  forall results : list Report,
    Forall (fun entry => forall e, analyze_listed fsqrt feed entry <> Raise e)
           stocks ->
    scan_loop fsqrt feed stocks results
    = Ok (results ++ reports_of fsqrt feed stocks).
Proof.
  induction stocks as [|entry rest IH]; intros results H.
  - cbn. now rewrite app_nil_r.
  - inversion H as [|? ? He Hrest]; subst.
    cbn [scan_loop reports_of flat_map].
    destruct (analyze_listed fsqrt feed entry) as [[a|]|e] eqn:Ha; cbn [bind].
    + rewrite (IH _ Hrest). unfold reports_of. now rewrite <- app_assoc.
    + rewrite (IH _ Hrest). reflexivity.
    + exfalso. now apply (He e).
Qed.

Lemma scan_loop_raise (stocks : Registry) :
  forall (results : list Report) (e : exn),
    scan_loop fsqrt feed stocks results = Raise e ->
    exists pre entry post,
      stocks = pre ++ entry :: post
      /\ analyze_listed fsqrt feed entry = Raise e
      /\ Forall (fun x => forall e', analyze_listed fsqrt feed x <> Raise e') pre.
Proof.
  induction stocks as [|entry rest IH]; intros results e H; [discriminate|].
  cbn [scan_loop] in H.
  destruct (analyze_listed fsqrt feed entry) as [o|e0] eqn:Ha; cbn [bind] in H.
  - destruct (IH _ _ H) as (pre & x & post & -> & Hx & Hpre).
    exists (entry :: pre), x, post. repeat split; try assumption.
    constructor; [|exact Hpre]. intros e'. rewrite Ha. discriminate.
  - exists [], entry, rest. repeat split.
    + rewrite Ha. injection H as ->. reflexivity.
    + constructor.
Qed.

Lemma scan_loop_ok_inv (stocks : Registry) :
  forall results rs : list Report,
    scan_loop fsqrt feed stocks results = Ok rs ->
    Forall (fun entry => forall e, analyze_listed fsqrt feed entry <> Raise e)
           stocks.
Proof.
  induction stocks as [|entry rest IH]; intros results rs H; [constructor|].
  cbn [scan_loop] in H.
  destruct (analyze_listed fsqrt feed entry) as [o|e0] eqn:Ha; cbn [bind] in H;
    [|discriminate].
  constructor; [intros e; rewrite Ha; discriminate|]. exact (IH _ _ H).
Qed.

Lemma reports_of_length (stocks : Registry) :
  (length (reports_of fsqrt feed stocks) <= length stocks)%nat.
Proof.
  induction stocks as [|entry rest IH]; [cbn; lia|].
  cbn [reports_of flat_map]. fold (reports_of fsqrt feed rest).
  rewrite length_app. cbn [length].
  destruct (analyze_listed fsqrt feed entry) as [[a|]|e]; cbn [length]; lia.
Qed.

End ScanFacts.

(** X15.  A scan returns exactly when no analysis raises; it then lists,
    in registry order, the reports of the entries whose analysis gave one,
    so never more reports than entries.  When it raises, it raises what the
    first raising analysis raised: one such security ends the whole scan. *)
Theorem scan_outcome :
  forall (fsqrt : float -> float) (feed : Feed) (stocks : Registry),
    let quiet := fun entry : string * StockInfo =>
                   forall e, analyze_listed fsqrt feed entry <> Raise e in
    ((exists rs, scan_market fsqrt feed stocks = Ok rs) <-> Forall quiet stocks)
    /\ (forall rs, scan_market fsqrt feed stocks = Ok rs ->
          rs = reports_of fsqrt feed stocks
          /\ (length rs <= length stocks)%nat)
    /\ (forall e, scan_market fsqrt feed stocks = Raise e ->
          exists pre entry post,
            stocks = pre ++ entry :: post
            /\ analyze_listed fsqrt feed entry = Raise e
            /\ Forall quiet pre).
Proof.
  intros fsqrt feed stocks quiet. subst quiet. unfold scan_market.
  split; [|split].
  - split.
    + intros [rs H]. exact (scan_loop_ok_inv fsqrt feed stocks [] rs H).
    + intros H. eexists. exact (scan_loop_ok fsqrt feed stocks [] H).
  - intros rs H.
    pose proof (scan_loop_ok_inv fsqrt feed stocks [] rs H) as Hq.
    rewrite (scan_loop_ok fsqrt feed stocks [] Hq) in H.
    cbn [app] in H.
    apply (f_equal (fun o => match o with Ok l => l | Raise _ => rs end)) in H.
    subst rs. split; [reflexivity|apply reports_of_length].
  - intros e H. exact (scan_loop_raise fsqrt feed stocks [] e H).
Qed.

(** The analysis of a listed entry on finite bars. *)
Lemma analyze_listed_finite (fsqrt : float -> float) (feed : Feed)
    (entry : string * StockInfo) :
  finite_bars (stock_history feed (fst entry)) ->
  (reportable feed entry = false ->
   analyze_listed fsqrt feed entry = Ok None)
  /\ (reportable feed entry = true ->
      exists rep, analyze_listed fsqrt feed entry = Ok (Some rep)
                  /\ company rep = fst entry).
Proof.
  intros Hfin. unfold analyze_listed, reportable. cbv zeta.
  set (name := fst entry) in *.
  destruct (analysis_cases fsqrt name (info_symbol (snd entry))
              (info_sector (snd entry)) (clock feed name)
              (stock_history feed name) (tasi_history feed name))
    as (A1 & A2 & A3).
  split.
  - intros H. apply andb_false_iff in H. destruct H as [H|H].
    + apply A1. apply Nat.leb_gt in H. exact H.
    + apply A2. apply negb_false_iff in H. now apply Nat.eqb_eq.
  - intros H. apply andb_true_iff in H. destruct H as [H1 H2].
    apply Nat.leb_le in H1. apply negb_true_iff, Nat.eqb_neq in H2.
    destruct (snapshot_of_finite_bars fsqrt _ H1 Hfin) as [v Hv].
    destruct (A3 H1 H2 _ Hv) as (h & q & _ & _ & ->). cbn [bind].
    eexists. split; reflexivity.
Qed.

Lemma reports_of_finite (fsqrt : float -> float) (feed : Feed)
    (stocks : Registry) :
  (forall name, finite_bars (stock_history feed name)) ->
  Forall (fun entry => forall e, analyze_listed fsqrt feed entry <> Raise e)
         stocks
  /\ map company (reports_of fsqrt feed stocks)
     = map fst (filter (reportable feed) stocks).
Proof.
  intros Hfin. induction stocks as [|entry rest [IH1 IH2]].
  - split; [constructor|reflexivity].
  - destruct (analyze_listed_finite fsqrt feed entry (Hfin _)) as [Hn Hy].
    cbn [reports_of flat_map filter]. fold (reports_of fsqrt feed rest).
    destruct (reportable feed entry).
    + destruct (Hy eq_refl) as (rep & Hrep & Hc). rewrite Hrep.
      split.
      * constructor; [intros e; rewrite Hrep; discriminate|exact IH1].
      * cbn [app map]. now rewrite Hc, IH2.
    + rewrite (Hn eq_refl). split.
      * constructor; [intros e; rewrite (Hn eq_refl); discriminate|exact IH1].
      * exact IH2.
Qed.

(** X16.  On data as the provider delivers it (for every company at most
    [10^9] bars, with close and volume columns finite and equally long and
    volumes of at most [2^63] in magnitude, which keeps the binary64
    running totals of the program in range), the scan does not raise, and
    the companies it reports are exactly those with at least 200 bars and a
    non-empty index, in registry order. *)
Theorem scan_of_finite_bars :
  forall (fsqrt : float -> float) (feed : Feed) (stocks : Registry),
    (forall name, provider_bars (stock_history feed name)) ->
    exists rs : list Report,
      scan_market fsqrt feed stocks = Ok rs
      /\ map company rs = map fst (filter (reportable feed) stocks).
Proof.
  intros fsqrt feed stocks Hprov.
  assert (Hfin : forall name, finite_bars (stock_history feed name))
    by (intros name; apply Hprov).
  destruct (reports_of_finite fsqrt feed stocks Hfin) as [Hq Hm].
  exists (reports_of fsqrt feed stocks). split; [|exact Hm].
  unfold scan_market. now rewrite (scan_loop_ok fsqrt feed stocks [] Hq).
Qed.

Lemma bars3_finite : provider_bars bars3.
Proof.
  split; [|split].
  - unfold finite_bars. split; [vm_compute; reflexivity|].
    split; apply forallb_Forall_true; vm_compute; reflexivity.
  - vm_compute. discriminate.
  - apply forallb_Forall_true. vm_compute. reflexivity.
Qed.

Lemma bars_buy_finite : provider_bars bars_buy.
Proof.
  split; [|split].
  - unfold finite_bars. split; [vm_compute; reflexivity|].
    split; apply forallb_Forall_true; vm_compute; reflexivity.
  - vm_compute. discriminate.
  - apply forallb_Forall_true. vm_compute. reflexivity.
Qed.

Lemma scan_of_finite_bars_witness :
  exists rs : list Report,
    scan_market sqrt_micro feed3 registry3 = Ok rs
    /\ map company rs = ["Alpha Bank"; "Gamma Telecom"]%string.
Proof.
  destruct (scan_of_finite_bars sqrt_micro feed3 registry3) as (rs & H & Hm).
  - intros name. unfold feed3. cbn [stock_history].
    destruct (String.eqb name "Beta Cement"); [exact bars3_finite|].
    destruct (String.eqb name "Gamma Telecom");
      [exact bars_buy_finite|exact bars200_finite].
  - exists rs. split; [exact H|]. rewrite Hm. vm_compute. reflexivity.
Defined.

(** ** Buy signals in the top lists *)

Section TopFacts.

Variable A : Type.
Variable key : A -> Q.
Variable top_key : Q.

Lemma filter_none (f : A -> bool) (l : list A) :
  Forall (fun y => f y = false) l -> filter f l = [].
Proof.
  induction 1 as [|y t Hy Ht IH]; [reflexivity|].
  cbn [filter]. now rewrite Hy.
Qed.

Lemma filter_every (f : A -> bool) (l : list A) :
  Forall (fun y => f y = true) l -> filter f l = l.
Proof.
  induction 1 as [|y t Hy Ht IH]; [reflexivity|].
  cbn [filter]. now rewrite Hy, IH.
Qed.

Lemma below_the_bound (x : A) (t : list A) :
  key x <= top_key ->
  has_percentage key top_key x = false ->
  Forall (descending key x) t ->
  Forall (fun y => has_percentage key top_key y = false) t.
Proof.
  intros Hb E H. eapply Forall_impl; [|exact H].
  intros y Hy. unfold descending in Hy. unfold has_percentage in *.
  destruct (Qeq_bool (key y) top_key) eqn:Ey; [|reflexivity].
  apply Qeq_bool_iff in Ey.
  assert (Hx : key x == top_key) by lra.
  apply Qeq_bool_iff in Hx. congruence.
Qed.

(** In a descending list bounded by [top_key], the entries that reach the
    bound come first. *)
Lemma descending_split (l : list A) :
  StronglySorted (descending key) l ->
  Forall (fun x => key x <= top_key) l ->
  l = filter (has_percentage key top_key) l
      ++ filter (fun x => negb (has_percentage key top_key x)) l.
Proof.
  induction 1 as [|x t Hs IH Hx]; intros Hb; [reflexivity|].
  inversion Hb as [|? ? Hbx Hbt]; subst.
  cbn [filter]. destruct (has_percentage key top_key x) eqn:E; cbn [negb].
  - cbn [app]. f_equal. now apply IH.
  - pose proof (below_the_bound x t Hbx E Hx) as Hnone.
    rewrite (filter_none _ t Hnone). cbn [app]. f_equal.
    symmetry. apply filter_every.
    eapply Forall_impl; [|exact Hnone].
    intros y Hy. cbn beta. now rewrite Hy.
Qed.

Lemma top_holds_the_best (k : nat) (l : list A) (d : A) :
  Forall (fun x => key x <= top_key) l ->
  (length (filter (has_percentage key top_key) l) <= k)%nat ->
  In d l -> has_percentage key top_key d = true ->
  In d (firstn k (sorted key true l)).
Proof.
  intros Hb Hk Hin Hd.
  pose proof (sorted_reverse_descending _ key l) as Hs.
  pose proof (sorted_reverse_perm _ key l) as Hp.
  pose proof (sorted_reverse_stable _ key top_key l) as Hst.
  assert (Hb' : Forall (fun x => key x <= top_key) (sorted key true l)).
  { rewrite Forall_forall in *. intros x Hx. apply Hb.
    apply (Permutation_in _ (Permutation_sym Hp) Hx). }
  rewrite (descending_split _ Hs Hb'), Hst.
  rewrite firstn_app. apply in_or_app. left.
  rewrite firstn_all2 by exact Hk.
  apply filter_In. split; assumption.
Qed.

End TopFacts.

Lemma reports_of_scored (fsqrt : float -> float) (feed : Feed)
    (stocks : Registry) :
  Forall (fun d => scored 9 7 (hawk d) /\ scored 8 6 (quick d))
         (reports_of fsqrt feed stocks).
Proof.
  induction stocks as [|entry rest IH]; [constructor|].
  cbn [reports_of flat_map]. fold (reports_of fsqrt feed rest).
  destruct (analyze_listed fsqrt feed entry) as [[a|]|e] eqn:Ha;
    cbn [app]; try exact IH.
  constructor; [|exact IH].
  unfold analyze_listed in Ha.
  destruct (report_inv _ _ _ _ _ _ _ _ Ha)
    as (_ & _ & h & q & iv & Hh & Hq & _ & ->).
  cbn [hawk quick]. split.
  - exact (hawk_scored _ _ _ _ Hh).
  - exact (quick_scored _ _ _ Hq).
Qed.

Lemma scored_buy_percentage (total from : nat) (r : StrategyResult) :
  total = 9%nat \/ total = 8%nat -> (from <= total)%nat ->
  scored total from r ->
  percentage r <= 100
  /\ has_percentage percentage 100 r = is_buy (signal r).
Proof.
  intros Ht Hf Hr.
  destruct (scored_percentage total from r r Ht Hf Hr Hr) as ((_ & Hle) & Hb & _).
  split; [exact Hle|].
  unfold has_percentage.
  destruct (Qeq_bool (percentage r) 100) eqn:E.
  - apply Qeq_bool_iff in E. apply Hb in E. now rewrite E.
  - destruct (signal r) eqn:S; try reflexivity.
    assert (H : percentage r == 100) by now apply Hb.
    apply Qeq_bool_iff in H. congruence.
Qed.

Lemma filter_agree (f g : Report -> bool) (l : list Report) :
  Forall (fun d => f d = g d) l -> filter f l = filter g l.
Proof.
  induction 1 as [|d l Hd Hl IH]; [reflexivity|].
  cbn [filter]. now rewrite Hd, IH.
Qed.

(** X17.  No buy signal is lost by the cut at twenty: when a scan has at
    most 20 securities with a Hawk [buy], each of them is in the Hawk top
    list, and likewise for Quick. *)
Theorem top_lists_hold_the_buy_signals :
  forall (fsqrt : float -> float) (feed : Feed) (stocks : Registry)
         (data : list Report) (d : Report),
    scan_market fsqrt feed stocks = Ok data ->
    In d data ->
    ((hawk_signals data <= 20)%nat -> signal (hawk d) = buy ->
     In d (hawk_top data))
    /\ ((quick_signals data <= 20)%nat -> signal (quick d) = buy ->
        In d (quick_top data)).
Proof.
  intros fsqrt feed stocks data d Hscan Hin.
  assert (Hdata : data = reports_of fsqrt feed stocks).
  { unfold scan_market in Hscan.
    pose proof (scan_loop_ok_inv fsqrt feed stocks [] data Hscan) as Hq.
    rewrite (scan_loop_ok fsqrt feed stocks [] Hq) in Hscan.
    cbn [app] in Hscan.
    apply (f_equal (fun o => match o with Ok l => l | Raise _ => data end))
      in Hscan.
    now symmetry. }
  pose proof (reports_of_scored fsqrt feed stocks) as Hsc.
  rewrite <- Hdata in Hsc.
  unfold hawk_top, quick_top, hawk_signals, quick_signals.
  rewrite (filter_truthy hawk), (filter_truthy quick).
  split; intros Hk Hbuy.
  - apply (top_holds_the_best _ (fun x => percentage (hawk x)) 100).
    + eapply Forall_impl; [|exact Hsc]. intros x [Hx _]. cbn beta.
      apply (scored_buy_percentage 9 7); [now left|lia|exact Hx].
    + rewrite (filter_agree _ (fun x => is_buy (signal (hawk x)))); [exact Hk|].
      eapply Forall_impl; [|exact Hsc]. intros x [Hx _]. cbn beta.
      apply (scored_buy_percentage 9 7 (hawk x)); [now left|lia|exact Hx].
    + exact Hin.
    + rewrite Forall_forall in Hsc. destruct (Hsc d Hin) as [Hd _].
      destruct (scored_buy_percentage 9 7 (hawk d)) as [_ E];
        [now left|lia|exact Hd|].
      unfold has_percentage in *. rewrite E, Hbuy. reflexivity.
  - apply (top_holds_the_best _ (fun x => percentage (quick x)) 100).
    + eapply Forall_impl; [|exact Hsc]. intros x [_ Hx]. cbn beta.
      apply (scored_buy_percentage 8 6); [now right|lia|exact Hx].
    + rewrite (filter_agree _ (fun x => is_buy (signal (quick x)))); [exact Hk|].
      eapply Forall_impl; [|exact Hsc]. intros x [_ Hx]. cbn beta.
      apply (scored_buy_percentage 8 6 (quick x)); [now right|lia|exact Hx].
    + exact Hin.
    + rewrite Forall_forall in Hsc. destruct (Hsc d Hin) as [_ Hd].
      destruct (scored_buy_percentage 8 6 (quick d)) as [_ E];
        [now right|lia|exact Hd|].
      unfold has_percentage in *. rewrite E, Hbuy. reflexivity.
Qed.

Lemma top_lists_hold_the_buy_signals_witness :
  exists (data : list Report) (d : Report),
    scan_market sqrt_micro feed3 registry3 = Ok data
    /\ In d data
    /\ signal (hawk d) = buy
    /\ In d (hawk_top data)
    /\ In d (quick_top data).
Proof.
  destruct (scan_market sqrt_micro feed3 registry3) as [data|e] eqn:Hscan;
    [|vm_compute in Hscan; discriminate Hscan].
  assert (Hd : exists d, nth_error data 1 = Some d)
    by (vm_compute in Hscan; injection Hscan as <-; eexists; reflexivity).
  destruct Hd as [d Hd].
  assert (Hin : In d data) by exact (nth_error_In data 1 Hd).
  assert (Hfacts :
            option_map (fun x => (signal (hawk x), signal (quick x)))
                       (nth_error data 1) = Some (buy, buy)
            /\ (hawk_signals data <=? 20)%nat = true
            /\ (quick_signals data <=? 20)%nat = true).
  { vm_compute in Hscan. injection Hscan as <-.
    vm_compute. repeat split. }
  destruct Hfacts as (Hs & Hh & Hq).
  rewrite Hd in Hs. cbn [option_map] in Hs.
  assert (Hbh : signal (hawk d) = buy) by congruence.
  assert (Hbq : signal (quick d) = buy) by congruence.
  apply Nat.leb_le in Hh. apply Nat.leb_le in Hq.
  destruct (top_lists_hold_the_buy_signals sqrt_micro feed3 registry3 data d
              Hscan Hin) as [H1 H2].
  exists data, d. repeat split; auto.
Defined.

(** ** The search *)

Lemma prefix_spec (a : string) :
  forall b : string,
    prefix a b = true <-> exists post : string, b = (a ++ post)%string.
Proof.
  induction a as [|c a IH]; intros b.
  - split; [intros _; now exists b|intros _; destruct b; reflexivity].
  - destruct b as [|c' b]; cbn [prefix].
    + split; [discriminate|]. intros [post H]. discriminate.
    + destruct (Ascii.ascii_dec c c') as [->|Hne].
      * rewrite IH. split.
        -- intros [post ->]. now exists post.
        -- intros [post H]. cbn in H. injection H as ->. now exists post.
      * split; [discriminate|]. intros [post H]. cbn in H.
        injection H as H _. congruence.
Qed.

(** [contains] is the substring test. *)
Lemma contains_spec (needle : string) :
  forall hay : string,
    contains needle hay = true
    <-> exists pre post : string, hay = (pre ++ needle ++ post)%string.
Proof.
  intros hay. induction hay as [|c hay IH]; cbn [contains].
  - rewrite orb_false_r, prefix_spec. split.
    + intros [post H]. now exists ""%string, post.
    + intros [pre [post H]]. destruct pre; [now exists post|discriminate].
  - rewrite orb_true_iff, prefix_spec, IH. split.
    + intros [[post H]|[pre [post H]]].
      * now exists ""%string, post.
      * exists (String c pre), post. cbn. now rewrite H.
    + intros [pre [post H]]. destruct pre as [|c' pre].
      * left. now exists post.
      * right. cbn in H. injection H as _ H. now exists pre, post.
Qed.

Lemma find_first (A : Type) (f : A -> bool) (l : list A) (x : A) :
  find f l = Some x ->
  exists pre post : list A,
    l = pre ++ x :: post
    /\ Forall (fun y => f y = false) pre
    /\ f x = true.
Proof.
  induction l as [|y l IH]; [discriminate|]. cbn [find].
  destruct (f y) eqn:E.
  - intros H. injection H as ->. exists [], l. repeat split; auto.
  - intros H. destruct (IH H) as (pre & post & -> & Hpre & Hx).
    exists (y :: pre), post. repeat split; auto.
Qed.

Lemma find_none_all (A : Type) (f : A -> bool) (l : list A) :
  find f l = None <-> Forall (fun y => f y = false) l.
Proof.
  induction l as [|y l IH]; cbn [find].
  - split; [constructor|reflexivity].
  - destruct (f y) eqn:E.
    + split; [discriminate|]. intros H. inversion H; subst. congruence.
    + rewrite IH. split.
      * intros H. now constructor.
      * intros H. now inversion H.
Qed.

Lemma nonempty_string (s : string) : s <> ""%string -> String.eqb s "" = false.
Proof. intros H. now apply String.eqb_neq. Qed.

(** X18.  The search answers on the first registry entry that matches: an
    entry matches when the lowered query occurs inside its lowered name or
    the query is its ticker.  An empty query (after stripping) is refused;
    "Stock not found" is answered exactly when no entry matches, so never
    for the ticker of a registered company; and a successful answer is the
    analysis of the first matching entry, under its name, ticker and
    sector. *)
Theorem search_answers_first_match :
  forall (fsqrt : float -> float) (feed : Feed) (strip lower : string -> string)
         (stocks : Registry) (q : string),
    let query := strip q in
    let found := fun entry => matches lower query entry in
    let answer := api_search fsqrt feed strip lower stocks q in
    (forall entry,
       found entry = true <->
       (exists pre post : string,
          lower (fst entry) = (pre ++ lower query ++ post)%string)
       \/ query = info_symbol (snd entry))
    /\ (query = ""%string -> answer = Ok (Failure "No query provided"))
    /\ (query <> ""%string ->
        (answer = Ok (Failure "Stock not found") <->
         Forall (fun entry => found entry = false) stocks)
        /\ (forall entry, In entry stocks ->
              info_symbol (snd entry) = query ->
              answer <> Ok (Failure "Stock not found"))
        /\ (forall data, answer = Ok (Success data) ->
              exists pre entry post,
                stocks = pre ++ entry :: post
                /\ Forall (fun x => found x = false) pre
                /\ found entry = true
                /\ analyze_listed fsqrt feed entry = Ok (Some data)
                /\ company data = fst entry
                /\ symbol data = info_symbol (snd entry)
                /\ sector data = info_sector (snd entry))).
Proof.
  intros fsqrt feed strip lower stocks q query found answer.
  subst found answer. cbv beta.
  assert (Hmatch : forall entry,
             matches lower query entry = true <->
             (exists pre post : string,
                lower (fst entry) = (pre ++ lower query ++ post)%string)
             \/ query = info_symbol (snd entry)).
  { intros entry. unfold matches.
    now rewrite orb_true_iff, contains_spec, String.eqb_eq. }
  split; [exact Hmatch|].
  unfold api_search. fold query. split.
  - intros ->. reflexivity.
  - intros Hne. rewrite (nonempty_string query Hne).
    assert (Hnf : (match find (matches lower query) stocks with
                   | Some found =>
                       analysis <- analyze_listed fsqrt feed found ;;
                       match analysis with
                       | Some a => Ok (Success a)
                       | None => Ok (Failure "Failed to analyze stock")
                       end
                   | None => Ok (Failure "Stock not found")
                   end = Ok (Failure "Stock not found"))
                  <-> Forall (fun entry => matches lower query entry = false)
                             stocks).
    { rewrite <- find_none_all.
      destruct (find (matches lower query) stocks) as [x|]; [|tauto].
      split; [|discriminate].
      destruct (analyze_listed fsqrt feed x) as [[a|]|e]; cbn [bind];
        discriminate. }
    split; [exact Hnf|]. split.
    + intros entry Hin Hsym Habs. apply Hnf in Habs.
      rewrite Forall_forall in Habs. specialize (Habs entry Hin).
      assert (matches lower query entry = true)
        by (apply Hmatch; right; now symmetry).
      congruence.
    + intros data H.
      destruct (find (matches lower query) stocks) as [x|] eqn:Hf;
        [|discriminate].
      destruct (find_first _ _ _ _ Hf) as (pre & post & -> & Hpre & Hx).
      destruct (analyze_listed fsqrt feed x) as [[a|]|e] eqn:Ha;
        cbn [bind] in H; try discriminate.
      assert (a = data) by congruence. subst a.
      exists pre, x, post. repeat split; try assumption.
      all: unfold analyze_listed in Ha;
        destruct (report_inv _ _ _ _ _ _ _ _ Ha)
          as (_ & _ & h & qk & iv & _ & _ & _ & ->); reflexivity.
Qed.

(** The search on the sample registry, with no stripping and no case
    folding to do. *)
Example search_samples :
  let search := api_search sqrt_micro feed3 (fun s => s) (fun s => s) registry3 in
  (exists data, search "7010"%string = Ok (Success data)
                /\ company data = "Gamma Telecom"%string)
  /\ (exists data, search "Bank"%string = Ok (Success data)
                   /\ symbol data = "1010"%string)
  /\ search "Cement"%string = Ok (Failure "Failed to analyze stock")
  /\ search "9999"%string = Ok (Failure "Stock not found")
  /\ search ""%string = Ok (Failure "No query provided").
Proof.
  cbv zeta.
  split; [eexists; split; [vm_compute; reflexivity|reflexivity]|].
  split; [eexists; split; [vm_compute; reflexivity|reflexivity]|].
  split; [vm_compute; reflexivity|].
  split; vm_compute; reflexivity.
Qed.

(** ** A close that does not move *)

Lemma diff_nth (l : Series) (j : nat) :
  (0 < j < length l)%nat ->
  nth j (diff l) NaN = fsub (nth j l NaN) (nth (j - 1) l NaN).
Proof.
  intros Hj. destruct l as [|x t]; [cbn in Hj; lia|].
  destruct j as [|j]; [lia|].
  cbn [diff nth length] in *.
  rewrite map2_nth by (cbn [length]; lia).
  replace (S j - 1)%nat with j by lia. reflexivity.
Qed.

Lemma fsub_same (c : Q) : fsub (Fin c) (Fin c) = Fin 0.
Proof.
  cbn [fsub fneg fadd]. f_equal.
  change 0 with (Qred 0). apply Qred_complete.
  rewrite Qred_correct. lra.
Qed.

Lemma where_nth (cond : float -> bool) (l : Series) (j : nat) :
  (j < length l)%nat ->
  nth j (where_ cond fzero l) NaN
  = if cond (nth j l NaN) then nth j l NaN else fzero.
Proof.
  intros Hj. unfold where_.
  set (f := fun x : float => if cond x then x else fzero).
  transitivity (nth j (map f l) (f NaN)).
  - apply nth_indep. now rewrite length_map.
  - apply map_nth.
Qed.

(** The gains and losses seen by the RSI window of the latest bar, when the
    last fifteen closes are one and the same number. *)
Lemma flat_windows (close : Series) (c : Q) :
  (15 <= length close)%nat ->
  (forall j, (length close - 15 <= j < length close)%nat ->
             nth j close NaN = Fin c) ->
  window_at 14 (length close - 1)
    (where_ (fun d => fgtb d fzero) fzero (diff close)) = repeat fzero 14
  /\ window_at 14 (length close - 1)
       (s_neg (where_ (fun d => fltb d fzero) fzero (diff close)))
     = repeat (Fin 0) 14.
Proof.
  intros Hlen Hflat.
  assert (Hd : forall j, (length close - 14 <= j < length close)%nat ->
                         nth j (diff close) NaN = Fin 0).
  { intros j Hj. rewrite diff_nth by lia.
    rewrite !Hflat by lia. apply fsub_same. }
  unfold window_at.
  replace (length close - 1 + 1 - 14)%nat with (length close - 14)%nat by lia.
  split.
  - rewrite firstn_skipn_nth
      by (unfold where_; rewrite length_map, diff_length; lia).
    rewrite (map_ext_in _ (fun _ => fzero)).
    + cbn [seq map repeat]. reflexivity.
    + intros j Hj. apply in_seq in Hj.
      rewrite where_nth by (rewrite diff_length; lia).
      rewrite Hd by lia. reflexivity.
  - unfold s_neg.
    rewrite firstn_skipn_nth
      by (unfold where_; rewrite !length_map, diff_length; lia).
    rewrite (map_ext_in _ (fun _ => Fin 0)).
    + cbn [seq map repeat]. reflexivity.
    + intros j Hj. apply in_seq in Hj.
      change NaN with (fneg NaN) at 1. rewrite map_nth.
      rewrite where_nth by (rewrite diff_length; lia).
      rewrite Hd by lia. reflexivity.
Qed.

Lemma flat_rsi (close : Series) (c : Q) :
  (15 <= length close)%nat ->
  (forall j, (length close - 15 <= j < length close)%nat ->
             nth j close NaN = Fin c) ->
  latest (rsi_column close) = NaN.
Proof.
  intros Hlen Hflat.
  rewrite latest_nth, rsi_column_length, rsi_column_seq, nth_map_seq by lia.
  unfold rolling_at.
  destruct (Nat.ltb_spec (length close - 1 + 1) 14) as [Hlt|_]; [lia|].
  cbv zeta.
  destruct (flat_windows close c Hlen Hflat) as [-> ->].
  reflexivity.
Qed.

(** X19.  When the last fifteen closes of a series of at least 200 bars
    are one and the same number, there is neither gain nor loss to average:
    the RSI of the latest bar is undefined, and both strategies count their
    [rsi] condition as not met without raising. *)
Theorem flat_close_has_no_rsi :
  forall (fsqrt : float -> float) (df td : DataFrame) (st : bool) (c : Q),
    (200 <= len df)%nat ->
    (forall j, (len df - 15 <= j < len df)%nat ->
               nth j (Close df) NaN = Fin c) ->
    Close td <> [] ->
    exists (cols : IndicatorColumns) (rh rq : StrategyResult),
      indicators (calculate_indicators fsqrt df) = Some cols
      /\ latest (RSI cols) = NaN
      /\ analyze_hawk_strategy (calculate_indicators fsqrt df) td st
         = Ok (Some rh)
      /\ analyze_quick_strategy (calculate_indicators fsqrt df) td
         = Ok (Some rq)
      /\ lookup "rsi" (conditions rh) = Some false
      /\ lookup "rsi" (conditions rq) = Some false.
Proof.
  intros fsqrt df td st c Hlen Hflat Htd.
  pose proof (calculate_indicators_long fsqrt df Hlen) as Hc.
  assert (Hrsi : latest (rsi_column (Close df)) = NaN).
  { apply (flat_rsi (Close df) c); [unfold len in Hlen; lia|exact Hflat]. }
  destruct (hawk_cases (calculate_indicators fsqrt df) td st) as (_ & _ & _ & H4).
  destruct (quick_cases (calculate_indicators fsqrt df) td) as (_ & _ & _ & Q4).
  assert (Hlen' : (200 <= len (calculate_indicators fsqrt df))%nat)
    by (rewrite len_calculate_indicators; exact Hlen).
  assert (Hind : indicators (calculate_indicators fsqrt df) <> None)
    by (rewrite Hc; discriminate).
  destruct (H4 Hlen' Htd Hind) as [rh Hh].
  destruct (Q4 Hlen' Htd Hind) as [rq Hq].
  destruct (hawk_conditions _ _ _ _ Hh) as (c1 & t1 & Hc1 & _ & Ch).
  destruct (quick_conditions _ _ _ Hq) as (c2 & t2 & Hc2 & _ & Cq).
  rewrite Hc in Hc1, Hc2.
  apply (f_equal (fun o => match o with Some x => x | None => c1 end)) in Hc1.
  apply (f_equal (fun o => match o with Some x => x | None => c2 end)) in Hc2.
  subst c1 c2. cbn [RSI] in Ch, Cq. rewrite Hrsi in Ch, Cq.
  eexists. exists rh, rq.
  split; [exact Hc|]. cbn [RSI].
  split; [exact Hrsi|]. split; [exact Hh|]. split; [exact Hq|].
  rewrite Ch, Cq. split; reflexivity.
Qed.

Lemma nth_repeat_below (x : float) (n j : nat) :
  (j < n)%nat -> nth j (repeat x n) NaN = x.
Proof.
  revert j. induction n as [|n IH]; intros j Hj; [lia|].
  destruct j as [|j]; [reflexivity|]. cbn [repeat nth]. apply IH. lia.
Qed.

Lemma flat_close_has_no_rsi_witness :
  exists (cols : IndicatorColumns) (rh rq : StrategyResult),
    indicators (calculate_indicators sqrt_micro flat200) = Some cols
    /\ latest (RSI cols) = NaN
    /\ analyze_hawk_strategy (calculate_indicators sqrt_micro flat200) tasi6 true
       = Ok (Some rh)
    /\ analyze_quick_strategy (calculate_indicators sqrt_micro flat200) tasi6
       = Ok (Some rq)
    /\ lookup "rsi" (conditions rh) = Some false
    /\ lookup "rsi" (conditions rq) = Some false.
Proof.
  apply (flat_close_has_no_rsi sqrt_micro flat200 tasi6 true 100).
  - apply Nat.leb_le. vm_compute. reflexivity.
  - intros j Hj.
    assert (Hn : len flat200 = 200%nat) by (vm_compute; reflexivity).
    rewrite Hn in Hj.
    change (Close flat200) with (repeat (of_Z 100) 200).
    apply nth_repeat_below. lia.
  - discriminate.
Defined.

(** ** The sector input *)

(** X20.  The sector input moves the Hawk score by exactly one: with the
    same frames, the evaluation with a false sector input meets one
    condition less than the one with a true input, and it never signals
    [buy]. *)
Theorem sector_input_is_worth_one_condition :
  forall (sd td : DataFrame) (r_true r_false : StrategyResult),
    analyze_hawk_strategy sd td true = Ok (Some r_true) ->
    analyze_hawk_strategy sd td false = Ok (Some r_false) ->
    conditions_met r_true = S (conditions_met r_false)
    /\ signal r_false <> buy
    /\ (signal r_true = buy <-> conditions_met r_false = 8%nat).
Proof.
  intros sd td rt rf Ht Hf.
  destruct (hawk_conditions sd td true rt Ht) as (c1 & t1 & Hc1 & Ht1 & Ct).
  destruct (hawk_conditions sd td false rf Hf) as (c2 & t2 & Hc2 & Ht2 & Cf).
  rewrite Hc1 in Hc2. injection Hc2 as <-.
  rewrite Ht1 in Ht2. injection Ht2 as <-.
  destruct (hawk_result_inv sd td true rt Ht) as (_ & _ & Mt & _ & St & _).
  destruct (hawk_result_inv sd td false rf Hf) as (_ & Lf & Mf & _ & Sf & _).
  assert (E : conditions_met rt = S (conditions_met rf)).
  { rewrite Mt, Mf, Ct, Cf. rewrite !sum_values_cons. lia. }
  pose proof (sum_values_le (conditions rt)) as Hle.
  rewrite Ct in Hle at 2. cbn [length] in Hle. rewrite <- Mt in Hle.
  destruct (signal_of_spec (conditions_met rt) 9 7) as (Bt & _); [lia|].
  destruct (signal_of_spec (conditions_met rf) 9 7) as (Bf & _); [lia|].
  split; [exact E|]. split.
  - rewrite Sf. intros H. apply Bf in H. lia.
  - rewrite St. split.
    + intros H. apply Bt in H. lia.
    + intros H. apply Bt. lia.
Qed.

Lemma sector_input_is_worth_one_condition_witness :
  exists r_true r_false : StrategyResult,
    analyze_hawk_strategy stock200 tasi6 true = Ok (Some r_true)
    /\ analyze_hawk_strategy stock200 tasi6 false = Ok (Some r_false)
    /\ conditions_met r_true = S (conditions_met r_false)
    /\ signal r_false <> buy.
Proof.
  destruct (analyze_hawk_strategy stock200 tasi6 true) as [[rt|]|e] eqn:Ht;
    [|vm_compute in Ht; discriminate Ht|vm_compute in Ht; discriminate Ht].
  destruct (analyze_hawk_strategy stock200 tasi6 false) as [[rf|]|e] eqn:Hf;
    [|vm_compute in Hf; discriminate Hf|vm_compute in Hf; discriminate Hf].
  exists rt, rf.
  destruct (sector_input_is_worth_one_condition stock200 tasi6 rt rf Ht Hf)
    as (H1 & H2 & _).
  repeat split; assumption.
Defined.

(** ** Size of the top lists *)

(** X21.  Each top list of the scan summary has exactly twenty entries, or
    all the reports when there are fewer than twenty, and every entry of it
    is one of the reports. *)
Theorem top_lists_are_full :
  forall data : list Report,
    length (hawk_top data) = Nat.min 20 (length data)
    /\ length (quick_top data) = Nat.min 20 (length data)
    /\ incl (hawk_top data) data
    /\ incl (quick_top data) data.
Proof.
  intros data. unfold hawk_top, quick_top.
  rewrite (filter_truthy hawk), (filter_truthy quick).
  destruct (top20_of_sorted (fun d => percentage (hawk d)) data)
    as (_ & Lh & _ & rh & Ph & _).
  destruct (top20_of_sorted (fun d => percentage (quick d)) data)
    as (_ & Lq & _ & rq & Pq & _).
  cbv zeta in *.
  split; [exact Lh|]. split; [exact Lq|]. split.
  - intros x Hx. apply (Permutation_in _ (Permutation_sym Ph)).
    apply in_or_app. now left.
  - intros x Hx. apply (Permutation_in _ (Permutation_sym Pq)).
    apply in_or_app. now left.
Qed.
